(** * DOCKERI web client: the asynchronous state-synchronisation core

    A shallow embedding of the client-side code of the DOCKERI chat client:
    the conversation store ([utils/localStorage.ts], [utils/indexedDBStorage.ts]
    and the storage functions of the static script), the stream consumer
    ([streamChatMessage]), the task poller ([pollUploadStatus], in its
    React-client and static-script versions) and the session handlers of
    [App.tsx] ([handleSendMessage], [handleNewChat],
    [handleDeleteConversation]).

    Where the code is.  [services/apiService.ts] and the latest [App.tsx] are
    the second and the last part of [client/src/api/axiosClient.ts]; the
    static script is the first part of [unnamed/part_007]; the storage
    modules are [client/src/utils/localStorage.ts] and
    [client/src/utils/indexedDBStorage.ts].

    Conventions.  A JavaScript string is a Rocq [string] that spells it in
    UTF-8; where the browser orders strings (the keys of IndexedDB) they are
    compared by their UTF-16 code units, [codeUnits].  A number that the
    code only uses as an integer (a time in
    milliseconds, a progress percentage, a byte, a UTF-16 code unit) is a [Z];
    an optional field is an [option], and a [messages] field that is null is
    the empty list, which is how every reader takes it
    ([conv.messages || []]); a function that can throw returns a
    [completion]; module-level and browser state is passed explicitly.  What
    the browser provides - the clock, [toLocaleString], [trim], the answers
    of the server, the room left in localStorage - is an argument. *)

From Stdlib Require Import ZArith Lia Ascii.
From stdpp Require Import base option list gmap strings sorting pretty.

Local Open Scope string_scope.
Local Open Scope list_scope.
Local Open Scope Z_scope.

(** ** Data model ([types/index.ts]) *)

Inductive Role := User | Model.
Inductive Icon := IconSuccess | IconError | IconInfo | IconWarning.
Inductive Status := Uploaded | Processing | Done | Failed.

Record UploadStatusInfo := {
  status : Status;
  message : option string;
  progress : option Z
}.

Record MessagePart := {
  text : string;
  icon : option Icon
}.

Record Message := {
  role : Role;
  parts : list MessagePart;
  uploadStatus : option UploadStatusInfo
}.

Record Conversation := {
  id : string;
  title : string;
  messages : list Message;
  createdAt : string
}.

#[global] Instance Role_eq_dec : EqDecision Role.
Proof. solve_decision. Defined.
#[global] Instance Icon_eq_dec : EqDecision Icon.
Proof. solve_decision. Defined.
#[global] Instance Status_eq_dec : EqDecision Status.
Proof. solve_decision. Defined.
#[global] Instance UploadStatusInfo_eq_dec : EqDecision UploadStatusInfo.
Proof. solve_decision. Defined.
#[global] Instance MessagePart_eq_dec : EqDecision MessagePart.
Proof. solve_decision. Defined.
#[global] Instance Message_eq_dec : EqDecision Message.
Proof. solve_decision. Defined.
#[global] Instance Conversation_eq_dec : EqDecision Conversation.
Proof. solve_decision. Defined.

(** A message made of one plain text part: [{ role, parts: [{ text }] }]. *)
Definition textMsg (r : Role) (t : string) : Message :=
  {| role := r; parts := [ {| text := t; icon := None |} ]; uploadStatus := None |}.

(** The same with an icon: [{ role, parts: [{ text, icon }] }]. *)
Definition iconMsg (r : Role) (t : string) (i : Icon) : Message :=
  {| role := r; parts := [ {| text := t; icon := Some i |} ]; uploadStatus := None |}.

(** ** Exceptions and completions *)

Inductive exn :=
  | SyntaxError                      (* JSON.parse on a text that is no JSON *)
  | TypeError                        (* a call of something that is no function *)
  | QuotaExceededError               (* localStorage.setItem refused by the browser *)
  | ConstraintError                  (* IndexedDB add on a key that exists *)
  | DatabaseClosedError              (* the IndexedDB database cannot be opened *)
  | HttpFailure (code : option Z)    (* a rejected request; the status when a response came *)
  | Error (msg : string).            (* new Error(msg) *)

Inductive completion (A : Type) :=
  | Normal (a : A)
  | Throw (e : exn).
Arguments Normal {A} a.
Arguments Throw {A} e.

#[global] Instance exn_eq_dec : EqDecision exn.
Proof. solve_decision. Defined.

(** [Date.now().toString()]: the decimal digits of an integer. *)
Definition toString (n : Z) : string := pretty n.

(** ** The browser's localStorage

    What the code keeps there is JSON text, and every key is read back at one
    type only, so an item is modelled by what [JSON.parse] makes of it. *)

Inductive stored (A : Type) :=
  | Blank                      (* the empty string *)
  | Corrupt                    (* a text JSON.parse rejects *)
  | ObjectText                 (* the JSON text of a truthy value that is no array:
                                  an object, true, a number or string that is not falsy *)
  | FalsyText                  (* the JSON text of null, false, 0 or the empty string *)
  | ArrayOf (items : list A).  (* JSON.stringify of an array of A *)
Arguments Blank {A}.
Arguments Corrupt {A}.
Arguments ObjectText {A}.
Arguments FalsyText {A}.
Arguments ArrayOf {A} items.

Inductive parsed (A : Type) :=
  | AnObject
  | AFalsy
  | AnArray (items : list A).
Arguments AnObject {A}.
Arguments AFalsy {A}.
Arguments AnArray {A} items.

Record localStorage := {
  conversations_v1 : option (stored Conversation);  (* 'dockeri_conversations_v1' *)
  chat_history_v1 : option (stored Message);        (* 'dockeri_chat_history_v1' *)
  migration_done : option string;                   (* 'dockeri_indexeddb_migration_done' *)
  (* whether the browser has room for this text under the conversations key,
     and for the migration flag *)
  accepts : list Conversation → bool;
  accepts_flag : bool
}.

(** One line of the browser console: the label and the error passed. *)
Record logEntry := { label : string; cause : exn }.

(** [if (raw)]: an item that is present and not the empty string. *)
Definition truthy {A} (raw : option (stored A)) : bool :=
  match raw with
  | None | Some Blank => false
  | Some _ => true
  end.

Definition JSON_parse {A} (raw : stored A) : completion (parsed A) :=
  match raw with
  | Blank | Corrupt => Throw SyntaxError
  | ObjectText => Normal AnObject
  | FalsyText => Normal AFalsy
  | ArrayOf l => Normal (AnArray l)
  end.

(** [msgs || []] for a value that is an array or falsy; it is also what the
    readers of a field [messages: msgs] take it for. *)
Definition orEmpty {A} (msgs : parsed A) : list A :=
  match msgs with
  | AnArray l => l
  | _ => []
  end.

(** [localStorage.setItem(CONV_STORAGE_KEY, JSON.stringify(conversations))] *)
Definition setItem_conversations (cs : list Conversation) (ls : localStorage)
  : completion localStorage :=
  if accepts ls cs
  then Normal {| conversations_v1 := Some (ArrayOf cs);
                 chat_history_v1 := chat_history_v1 ls;
                 migration_done := migration_done ls;
                 accepts := accepts ls;
                 accepts_flag := accepts_flag ls |}
  else Throw QuotaExceededError.

(** [localStorage.removeItem(OLD_CHAT_KEY)] *)
Definition removeItem_chat_history (ls : localStorage) : localStorage :=
  {| conversations_v1 := conversations_v1 ls;
     chat_history_v1 := None;
     migration_done := migration_done ls;
     accepts := accepts ls;
     accepts_flag := accepts_flag ls |}.

(** [localStorage.setItem(MIGRATION_DONE_KEY, 'true')] *)
Definition setItem_migration_done (ls : localStorage) : completion localStorage :=
  if accepts_flag ls
  then Normal {| conversations_v1 := conversations_v1 ls;
                 chat_history_v1 := chat_history_v1 ls;
                 migration_done := Some "true";
                 accepts := accepts ls;
                 accepts_flag := accepts_flag ls |}
  else Throw QuotaExceededError.

(** The first message whose role is 'user':
    [(msgs || []).find((m) => m.role === 'user')]. *)
Definition firstUser (msgs : list Message) : option Message :=
  List.find (λ m, bool_decide (role m = User)) msgs.

(** [firstUser && firstUser.parts && firstUser.parts[0] && firstUser.parts[0].text]:
    the text when every step is truthy, in particular when the text is not
    empty. *)
Definition firstUserText (msgs : list Message) : option string :=
  match firstUser msgs with
  | Some m =>
      match parts m with
      | p :: _ => if bool_decide (text p = "") then None else Some (text p)
      | [] => None
      end
  | None => None
  end.

(** [!id] for an id that is a string or null: null or the empty string. *)
Definition falsy (i : option string) : bool :=
  match i with
  | None => true
  | Some s => bool_decide (s = "")
  end.

(** ** [utils/localStorage.ts] *)

Module LocalStorage.

Record world := {
  store : localStorage;
  console : list logEntry
}.

Definition warn (l : string) (e : exn) (w : world) : world :=
  {| store := store w; console := console w ++ [ {| label := l; cause := e |} ] |}.

Definition put (ls : localStorage) (w : world) : world :=
  {| store := ls; console := console w |}.

(** [saveConversations]: the write in a try block whose handler only warns. *)
Definition saveConversations (conversations : list Conversation) (w : world)
  : completion unit * world :=
  match setItem_conversations conversations (store w) with
  | Normal ls => (Normal (), put ls w)
  | Throw e => (Normal (), warn "Conversations 저장 실패" e w)
  end.

Section Load.

(** [new Date(ms).toLocaleString()], which depends on the browser's locale. *)
Variable toLocaleString : Z → string.

(** The body of the try block of [loadConversations]: [Normal (Some l)] for a
    [return l] inside it, [Normal None] when control leaves it by its end. *)
Definition loadConversations_try (now : Z) (w : world)
  : completion (option (list Conversation)) * world :=
  let raw := conversations_v1 (store w) in
  let early :=
    if truthy raw then
      match raw with
      | Some r =>
          match JSON_parse r with
          | Normal (AnArray data) => Normal (Some data)
          | Normal AnObject | Normal AFalsy => Normal None
          | Throw e => Throw e
          end
      | None => Normal None
      end
    else Normal None in
  match early with
  | Throw e => (Throw e, w)
  | Normal (Some data) => (Normal (Some data), w)
  | Normal None =>
      (* migration: old single-chat key *)
      let oldRaw := chat_history_v1 (store w) in
      if truthy oldRaw then
        match oldRaw with
        | Some r =>
            match JSON_parse r with
            | Throw e => (Throw e, w)
            | Normal AnObject => (Throw TypeError, w)   (* msgs.find is no function *)
            | Normal msgs =>
                let msgs := orEmpty msgs in
                let id := toString now in
                let title :=
                  match firstUserText msgs with
                  | Some t => t
                  | None => "대화 " +:+ toLocaleString now
                  end in
                let conversations :=
                  [ {| id := id; title := title; messages := msgs; createdAt := id |} ] in
                let '(_, w1) := saveConversations conversations w in
                let w2 := put (removeItem_chat_history (store w1)) w1 in
                (Normal (Some conversations), w2)
            end
        | None => (Normal None, w)
        end
      else (Normal None, w)
  end.

Definition loadConversations (now : Z) (w : world)
  : completion (list Conversation) * world :=
  match loadConversations_try now w with
  | (Normal (Some l), w') => (Normal l, w')
  | (Normal None, w') => (Normal [], w')
  | (Throw e, w') => (Normal [], warn "Conversations 로드 실패" e w')
  end.

End Load.

End LocalStorage.

(** ** UTF-8 and UTF-16

    [new TextDecoder('utf-8')] with [decode(value, { stream: true })], as the
    Encoding standard defines it: the UTF-8 decoder keeps the bytes of a
    started character between calls, malformed input yields U+FFFD, and the
    first character of the whole stream is dropped when it is the byte order
    mark U+FEFF.  Bytes, code points and the UTF-16 code units of the text
    are integers. *)

Module TextDecoder.

(** The state of the UTF-8 decoder. *)
Record utf8_decoder := {
  code_point : Z;
  bytes_seen : Z;
  bytes_needed : Z;
  lower_boundary : Z;
  upper_boundary : Z
}.

Definition idle : utf8_decoder :=
  {| code_point := 0; bytes_seen := 0; bytes_needed := 0;
     lower_boundary := 0x80; upper_boundary := 0xBF |}.

Definition expect (needed cp lower upper : Z) : utf8_decoder :=
  {| code_point := cp; bytes_seen := 0; bytes_needed := needed;
     lower_boundary := lower; upper_boundary := upper |}.

(** The handler on a byte when no character is started: the code points it
    emits (U+FFFD for an error) and the next state. *)
Definition lead (byte : Z) : list Z * utf8_decoder :=
  if (0x00 <=? byte) && (byte <=? 0x7F) then ([byte], idle)
  else if (0xC2 <=? byte) && (byte <=? 0xDF) then
    ([], expect 1 (Z.land byte 0x1F) 0x80 0xBF)
  else if (0xE0 <=? byte) && (byte <=? 0xEF) then
    ([], expect 2 (Z.land byte 0xF)
           (if byte =? 0xE0 then 0xA0 else 0x80)
           (if byte =? 0xED then 0x9F else 0xBF))
  else if (0xF0 <=? byte) && (byte <=? 0xF4) then
    ([], expect 3 (Z.land byte 0x7)
           (if byte =? 0xF0 then 0x90 else 0x80)
           (if byte =? 0xF4 then 0x8F else 0xBF))
  else ([0xFFFD], idle).

(** The UTF-8 decoder's handler on one byte.  A byte outside the boundaries
    ends the started character with an error and is then handled again. *)
Definition handler (byte : Z) (d : utf8_decoder) : list Z * utf8_decoder :=
  if bytes_needed d =? 0 then lead byte
  else if negb ((lower_boundary d <=? byte) && (byte <=? upper_boundary d)) then
    let '(out, d') := lead byte in (0xFFFD :: out, d')
  else
    let cp := Z.lor (Z.shiftl (code_point d) 6) (Z.land byte 0x3F) in
    if bytes_seen d + 1 =? bytes_needed d then ([cp], idle)
    else
      ([], {| code_point := cp; bytes_seen := bytes_seen d + 1;
              bytes_needed := bytes_needed d;
              lower_boundary := 0x80; upper_boundary := 0xBF |}).

(** The code points a run of bytes yields. *)
Fixpoint process (bytes : list Z) (d : utf8_decoder) : list Z * utf8_decoder :=
  match bytes with
  | [] => ([], d)
  | b :: bytes' =>
      let '(out, d1) := handler b d in
      let '(out', d2) := process bytes' d1 in
      (out ++ out', d2)
  end.

(** A code point as UTF-16 code units. *)
Definition code_units (cp : Z) : list Z :=
  if cp <? 0x10000 then [cp]
  else [0xD800 + Z.shiftr (cp - 0x10000) 10; 0xDC00 + Z.land (cp - 0x10000) 0x3FF].

(** Serializing the output: the first item of the stream sets [BOM seen] and
    is skipped when it is U+FEFF. *)
Fixpoint serialize (items : list Z) (BOM_seen : bool) : list Z * bool :=
  match items with
  | [] => ([], BOM_seen)
  | item :: items' =>
      let '(out, seen) := serialize items' true in
      if negb BOM_seen && (item =? 0xFEFF) then (out, seen)
      else (code_units item ++ out, seen)
  end.

(** A decoder object that is used with [{ stream: true }] throughout. *)
Record t := {
  decoder : utf8_decoder;
  BOM_seen : bool
}.

(** [new TextDecoder('utf-8')] *)
Definition fresh : t := {| decoder := idle; BOM_seen := false |}.

(** [decoder.decode(value, { stream: true })] *)
Definition decode (value : list Z) (d : t) : list Z * t :=
  let '(items, u) := process value (decoder d) in
  let '(out, seen) := serialize items (BOM_seen d) in
  (out, {| decoder := u; BOM_seen := seen |}).

End TextDecoder.

(** The UTF-16 code units of the JavaScript string that a Rocq string spells
    in UTF-8: its bytes decoded, a character left unfinished at the end being
    U+FFFD.  (A JavaScript string with a lone surrogate has no such
    spelling.) *)
Definition bytesOf (s : string) : list Z :=
  (λ a, Z.of_N (N_of_ascii a)) <$> String.list_ascii_of_string s.

Definition codeUnits (s : string) : list Z :=
  let '(items, d) := TextDecoder.process (bytesOf s) TextDecoder.idle in
  let items := if TextDecoder.bytes_needed d =? 0 then items else items ++ [0xFFFD] in
  concat (TextDecoder.code_units <$> items).

(** The order of IndexedDB on keys that are strings: code unit by code unit, a proper
    prefix first. *)
Fixpoint compare_units (xs ys : list Z) : comparison :=
  match xs, ys with
  | [], [] => Eq
  | [], _ :: _ => Lt
  | _ :: _, [] => Gt
  | x :: xs', y :: ys' =>
      match x ?= y with
      | Eq => compare_units xs' ys'
      | c => c
      end
  end.

Definition key_compare (a b : string) : comparison :=
  compare_units (codeUnits a) (codeUnits b).

Definition key_leb (a b : string) : bool :=
  match key_compare a b with
  | Gt => false
  | _ => true
  end.

(** ** [utils/indexedDBStorage.ts]

    The Dexie table [conversations] has primary key [id] and an index on
    [createdAt]: a finite map from ids to records.  Reading through the index
    yields the records by ascending [createdAt], records of one [createdAt]
    by ascending primary key; keys that are strings are ordered by their
    UTF-16 code units. *)

Module IndexedDB.

Record Dexie := {
  rows : gmap string Conversation;
  opened : bool          (* false: the database cannot be opened, every request rejects *)
}.

Record world := {
  store : localStorage;
  db : Dexie;
  console : list logEntry
}.

Definition log (l : string) (e : exn) (w : world) : world :=
  {| store := store w; db := db w;
     console := console w ++ [ {| label := l; cause := e |} ] |}.

Definition put_db (d : Dexie) (w : world) : world :=
  {| store := store w; db := d; console := console w |}.

Definition put_store (ls : localStorage) (w : world) : world :=
  {| store := ls; db := db w; console := console w |}.

(** [db.conversations.clear()] *)
Definition clear (d : Dexie) : completion unit * Dexie :=
  if opened d then (Normal (), {| rows := ∅; opened := true |})
  else (Throw DatabaseClosedError, d).

(** One [add] request of a bulk operation: refused when the key is taken.
    The second component counts the refused requests. *)
Definition add (acc : gmap string Conversation * nat) (c : Conversation)
  : gmap string Conversation * nat :=
  match acc.1 !! id c with
  | Some _ => (acc.1, S acc.2)
  | None => (<[id c := c]> acc.1, acc.2)
  end.

(** [db.conversations.bulkAdd(items)] outside a transaction: the requests
    that succeed are committed, and the promise rejects when one failed. *)
Definition bulkAdd (items : list Conversation) (d : Dexie) : completion unit * Dexie :=
  if opened d then
    let '(m, failures) := foldl add (rows d, 0%nat) items in
    (if bool_decide (failures = 0%nat) then Normal () else Throw ConstraintError,
     {| rows := m; opened := true |})
  else (Throw DatabaseClosedError, d).

(** The order of the [createdAt] index: by the key, then by the primary
    key. *)
Definition index_leb (a b : Conversation) : bool :=
  match key_compare (createdAt a) (createdAt b) with
  | Lt => true
  | Gt => false
  | Eq => key_leb (id a) (id b)
  end.

Definition index_le (a b : Conversation) : Prop := index_leb a b = true.

#[global] Instance index_le_dec : RelDecision index_le.
Proof. intros a b. unfold index_le. apply _. Defined.

(** [db.conversations.orderBy('createdAt')], read out as an array. *)
Definition orderBy_createdAt (d : Dexie) : list Conversation :=
  merge_sort index_le (snd <$> map_to_list (rows d)).

(** [db.conversations.orderBy('createdAt').reverse().toArray()] *)
Definition orderBy_createdAt_reverse_toArray (d : Dexie)
  : completion (list Conversation) :=
  if opened d then Normal (reverse (orderBy_createdAt d))
  else Throw DatabaseClosedError.

Section Migration.

Variable toLocaleString : Z → string.

(** [loadConversationsFromLocalStorage]: as [LocalStorage.loadConversations],
    but nothing is written. *)
Definition loadConversationsFromLocalStorage_try (now : Z) (ls : localStorage)
  : completion (option (list Conversation)) :=
  let raw := conversations_v1 ls in
  let early :=
    if truthy raw then
      match raw with
      | Some r =>
          match JSON_parse r with
          | Normal (AnArray data) => Normal (Some data)
          | Normal AnObject | Normal AFalsy => Normal None
          | Throw e => Throw e
          end
      | None => Normal None
      end
    else Normal None in
  match early with
  | Throw e => Throw e
  | Normal (Some data) => Normal (Some data)
  | Normal None =>
      let oldRaw := chat_history_v1 ls in
      if truthy oldRaw then
        match oldRaw with
        | Some r =>
            match JSON_parse r with
            | Throw e => Throw e
            | Normal AnObject => Throw TypeError
            | Normal msgs =>
                let msgs := orEmpty msgs in
                let id := toString now in
                let title :=
                  match firstUserText msgs with
                  | Some t => t
                  | None => "대화 " +:+ toLocaleString now
                  end in
                Normal (Some [ {| id := id; title := title; messages := msgs;
                                  createdAt := id |} ])
            end
        | None => Normal None
        end
      else Normal None
  end.

Definition loadConversationsFromLocalStorage (now : Z) (w : world)
  : list Conversation * world :=
  match loadConversationsFromLocalStorage_try now (store w) with
  | Normal (Some l) => (l, w)
  | Normal None => ([], w)
  | Throw e => ([], log "localStorage 데이터 로드 실패:" e w)
  end.

(** [if (localStorage.getItem(MIGRATION_DONE_KEY))] *)
Definition migrated (ls : localStorage) : bool :=
  match migration_done ls with
  | None => false
  | Some s => negb (bool_decide (s = ""))
  end.

(** [migrateFromLocalStorage]: never rejects. *)
Definition migrateFromLocalStorage (now : Z) (w : world) : world :=
  if migrated (store w) then w
  else
    let '(existingConversations, w1) := loadConversationsFromLocalStorage now w in
    let '(r, w2) :=
      if (0 <? length existingConversations)%nat
      then let '(r, d) := bulkAdd existingConversations (db w1) in (r, put_db d w1)
      else (Normal (), w1) in
    match r with
    | Throw e => log "마이그레이션 실패:" e w2
    | Normal _ =>
        match setItem_migration_done (store w2) with
        | Normal ls => put_store ls w2
        | Throw e => log "마이그레이션 실패:" e w2
        end
    end.

(** [saveConversations]: the handler logs and throws the error again. *)
Definition saveConversations (now : Z) (conversations : list Conversation) (w : world)
  : completion unit * world :=
  let w1 := migrateFromLocalStorage now w in
  let '(r, w2) :=
    match clear (db w1) with
    | (Throw e, d) => (Throw e, put_db d w1)
    | (Normal _, d) =>
        let '(r, d') := bulkAdd conversations d in (r, put_db d' w1)
    end in
  match r with
  | Normal _ => (Normal (), w2)
  | Throw e => (Throw e, log "Conversations 저장 실패:" e w2)
  end.

(** [loadConversations]: the handler logs and returns the empty list. *)
Definition loadConversations (now : Z) (w : world)
  : completion (list Conversation) * world :=
  let w1 := migrateFromLocalStorage now w in
  match orderBy_createdAt_reverse_toArray (db w1) with
  | Normal conversations => (Normal conversations, w1)
  | Throw e => (Normal [], log "Conversations 로드 실패:" e w1)
  end.

End Migration.

End IndexedDB.

(** ** The task poller

    The status endpoint and the clock are the environment of a poll session:
    the n-th status request gets the n-th [exchange], which tells what comes
    back and how long that takes.  A timer of d milliseconds moves the clock
    by d.  The session is run step by step, one turn of the [while (true)]
    loop per step. *)

Inductive reply :=
  | Body (info : UploadStatusInfo)  (* a response whose JSON body is a status record *)
  | Status404                       (* a response with status 404 *)
  | Broken (e : exn).               (* the request, or the reading of its body, rejects *)

Record exchange := {
  answer : reply;
  latency : Z
}.

Inductive outcome (S : Type) :=
  | Running (s : S)                            (* at the head of the loop *)
  | Returned (info : UploadStatusInfo) (s : S) (* the promise resolved *)
  | Thrown (e : exn) (s : S).                  (* the promise rejected *)
Arguments Running {S} s.
Arguments Returned {S} info s.
Arguments Thrown {S} e s.

Fixpoint run {S : Type} (step : S → outcome S) (turns : nat) (s : S) : outcome S :=
  match turns with
  | O => Running s
  | Datatypes.S n =>
      match step s with
      | Running s' => run step n s'
      | o => o
      end
  end.

Definition maxInterval : Z := 5000.
Definition maxTimeout : Z := 1000 * 60 * 20.

(** [info.status === 'done' || info.status === 'failed'] *)
Definition terminal (info : UploadStatusInfo) : bool :=
  bool_decide (status info = Done) || bool_decide (status info = Failed).

(** [info.progress || 0] *)
Definition progress_or_0 (info : UploadStatusInfo) : Z :=
  match progress info with
  | Some p => p
  | None => 0
  end.

Definition timeoutInfo (info : UploadStatusInfo) : UploadStatusInfo :=
  {| status := Failed; message := Some "타임아웃"; progress := Some (progress_or_0 info) |}.

Definition notFoundInfo : UploadStatusInfo :=
  {| status := Failed; message := Some "작업을 찾을 수 없습니다"; progress := Some 0 |}.

(** *** [services/apiService.ts], the poller of the React client *)

Module ApiService.

Record poll := {
  interval : Z;
  start : Z;
  clock : Z;                           (* Date.now() *)
  requests : nat;                      (* status requests sent *)
  delivered : list UploadStatusInfo    (* the calls of onUpdate, oldest first *)
}.

Definition init (now : Z) : poll :=
  {| interval := 2000; start := now; clock := now; requests := 0; delivered := [] |}.

(** The catch block: a 404 resolves with a synthesized status, any other
    error is thrown again. *)
Definition handler (err : exn) (s : poll) : outcome poll :=
  if bool_decide (err = HttpFailure (Some 404)) then
    Returned notFoundInfo
      {| interval := interval s; start := start s; clock := clock s;
         requests := requests s; delivered := delivered s ++ [notFoundInfo] |}
  else Thrown err s.

Definition step (env : nat → exchange) (s : poll) : outcome poll :=
  let x := env (requests s) in
  let s1 := {| interval := interval s; start := start s;
               clock := clock s + latency x;
               requests := S (requests s); delivered := delivered s |} in
  match answer x with
  | Status404 => handler (HttpFailure (Some 404)) s1
  | Broken e => handler e s1
  | Body info =>
      let s2 := {| interval := interval s1; start := start s1; clock := clock s1;
                   requests := requests s1; delivered := delivered s1 ++ [info] |} in
      if terminal info then Returned info s2
      else if maxTimeout <? clock s2 - start s2 then
        handler (Error "Polling timeout")
          {| interval := interval s2; start := start s2; clock := clock s2;
             requests := requests s2;
             delivered := delivered s2 ++ [timeoutInfo info] |}
      else
        Running {| interval := Z.min (interval s2 * 2) maxInterval;
                   start := start s2;
                   clock := clock s2 + interval s2;
                   requests := requests s2; delivered := delivered s2 |}
  end.

(** [pollUploadStatus(taskId, onUpdate)], run for at most [turns] turns of
    its loop from the time [now]. *)
Definition pollUploadStatus (env : nat → exchange) (now : Z) (turns : nat)
  : outcome poll :=
  run (step env) turns (init now).

End ApiService.

(** *** The static script: its module state, storage functions and poller *)

Module Script.

(** The module-level variables and the browser state they are saved to. *)
Record state := {
  chatContext : list Message;
  conversations : list Conversation;
  currentConversationId : option string;
  store : localStorage;
  console : list logEntry
}.

Definition warn (l : string) (e : exn) (s : state) : state :=
  {| chatContext := chatContext s; conversations := conversations s;
     currentConversationId := currentConversationId s; store := store s;
     console := console s ++ [ {| label := l; cause := e |} ] |}.

Definition put (ls : localStorage) (s : state) : state :=
  {| chatContext := chatContext s; conversations := conversations s;
     currentConversationId := currentConversationId s; store := ls;
     console := console s |}.

Definition set_conversations (cs : list Conversation) (s : state) : state :=
  {| chatContext := chatContext s; conversations := cs;
     currentConversationId := currentConversationId s; store := store s;
     console := console s |}.

(** [saveConversations()]: writes the module's list. *)
Definition saveConversations (s : state) : state :=
  match setItem_conversations (conversations s) (store s) with
  | Normal ls => put ls s
  | Throw e => warn "Conversations 저장 실패" e s
  end.

Section Load.

(** [new Date(id).toLocaleString()] on the id, a string of digits. *)
Variable dateToLocaleString : string → string.

Definition loadConversations_try (now : Z) (s : state) : completion state :=
  let raw := conversations_v1 (store s) in
  if truthy raw then
    match raw with
    | Some r =>
        match JSON_parse r with
        | Normal (AnArray data) => Normal (set_conversations data s)
        | Normal AnObject | Normal AFalsy => Normal s
        | Throw e => Throw e
        end
    | None => Normal s
    end
  else
    (* migration: if old single-chat key exists, migrate into conversations *)
    let oldRaw := chat_history_v1 (store s) in
    if truthy oldRaw then
      match oldRaw with
      | Some r =>
          match JSON_parse r with
          | Throw e => Throw e
          | Normal AnObject => Throw TypeError
          | Normal msgs =>
              let msgs := orEmpty msgs in
              let id := toString now in
              let title :=
                match firstUserText msgs with
                | Some t => t
                | None => "대화 " +:+ dateToLocaleString id
                end in
              let s1 := set_conversations
                          [ {| id := id; title := title; messages := msgs;
                               createdAt := id |} ] s in
              let s2 := saveConversations s1 in
              Normal (put (removeItem_chat_history (store s2)) s2)
          end
      | None => Normal s
      end
    else Normal s.

Definition loadConversations (now : Z) (s : state) : state :=
  match loadConversations_try now s with
  | Normal s' => s'
  | Throw e => warn "Conversations 로드 실패" e s
  end.

End Load.

(** [startNewConversation] *)
Definition startNewConversation (s : state) : state :=
  {| chatContext := []; conversations := conversations s;
     currentConversationId := None; store := store s; console := console s |}.

(** [conv.messages = ...] on the first conversation with this id, in place. *)
Fixpoint set_messages_of_first (i : string) (ms : list Message)
  (cs : list Conversation) : option (list Conversation) :=
  match cs with
  | [] => None
  | c :: cs' =>
      if bool_decide (id c = i)
      then Some ({| id := id c; title := title c; messages := ms;
                    createdAt := createdAt c |} :: cs')
      else (c ::.) <$> set_messages_of_first i ms cs'
  end.

(** [sendMessage] up to the request: the user message is pushed, and the
    conversation is created or brought up to date and saved. *)
Definition sendMessage_begin (now : Z) (text : string) (s : state) : state :=
  if bool_decide (text = "") then s
  else
    let ctx := chatContext s ++ [textMsg User text] in
    if falsy (currentConversationId s) then
      let id := toString now in
      let conv := {| id := id; title := text; messages := ctx; createdAt := id |} in
      saveConversations
        {| chatContext := ctx; conversations := conv :: conversations s;
           currentConversationId := Some id; store := store s;
           console := console s |}
    else
      let s1 := {| chatContext := ctx; conversations := conversations s;
                   currentConversationId := currentConversationId s;
                   store := store s; console := console s |} in
      match set_messages_of_first (default "" (currentConversationId s)) ctx
              (conversations s) with
      | Some cs => saveConversations (set_conversations cs s1)
      | None => s1
      end.

(** The poller of the script. *)
Record poll := {
  interval : Z;
  start : Z;
  clock : Z;
  requests : nat;
  consecutiveFailures : Z;
  delivered : list UploadStatusInfo
}.

Definition init (now : Z) : poll :=
  {| interval := 2000; start := now; clock := now; requests := 0;
     consecutiveFailures := 0; delivered := [] |}.

Definition networkInfo : UploadStatusInfo :=
  {| status := Failed; message := Some "네트워크 오류로 폴링 중단"; progress := Some 0 |}.

(** The catch block: count the failure, give up at five in a row, else wait
    and go on. *)
Definition handler (err : exn) (s : poll) : outcome poll :=
  let n := consecutiveFailures s + 1 in
  if 5 <=? n then
    Thrown err
      {| interval := interval s; start := start s; clock := clock s;
         requests := requests s; consecutiveFailures := n;
         delivered := delivered s ++ [networkInfo] |}
  else
    Running {| interval := Z.min (interval s * 2) maxInterval;
               start := start s;
               clock := clock s + Z.min (interval s) maxInterval;
               requests := requests s; consecutiveFailures := n;
               delivered := delivered s |}.

Definition step (env : nat → exchange) (s : poll) : outcome poll :=
  let x := env (requests s) in
  let s1 := {| interval := interval s; start := start s;
               clock := clock s + latency x; requests := S (requests s);
               consecutiveFailures := consecutiveFailures s;
               delivered := delivered s |} in
  match answer x with
  | Status404 =>
      Returned {| status := Failed; message := None; progress := None |}
        {| interval := interval s1; start := start s1; clock := clock s1;
           requests := requests s1; consecutiveFailures := consecutiveFailures s1;
           delivered := delivered s1 ++ [notFoundInfo] |}
  | Broken e => handler e s1
  | Body info =>
      let s2 := {| interval := interval s1; start := start s1; clock := clock s1;
                   requests := requests s1; consecutiveFailures := 0;
                   delivered := delivered s1 ++ [info] |} in
      if terminal info then Returned info s2
      else if maxTimeout <? clock s2 - start s2 then
        handler (Error "Polling timeout")
          {| interval := interval s2; start := start s2; clock := clock s2;
             requests := requests s2; consecutiveFailures := consecutiveFailures s2;
             delivered := delivered s2 ++ [timeoutInfo info] |}
      else
        Running {| interval := Z.min (interval s2 * 2) maxInterval;
                   start := start s2;
                   clock := clock s2 + interval s2;
                   requests := requests s2;
                   consecutiveFailures := consecutiveFailures s2;
                   delivered := delivered s2 |}
  end.

Definition pollUploadStatus (env : nat → exchange) (now : Z) (turns : nat)
  : outcome poll :=
  run (step env) turns (init now).

End Script.

(** ** The session handlers of [App.tsx]

    The component's state variables and the browser state.  A handler reads
    the state of the render it is called from and its setters take effect
    before the next event is handled.  [handleSendMessage] awaits the stream,
    so it is split at its suspension points: what runs before the request,
    the chunk callback, and what runs when the stream has resolved or
    rejected; its local variables live in a [flow]. *)

Module App.

Record state := {
  conversations : list Conversation;
  currentConversationId : option string;
  chatContext : list Message;
  promptValue : string;
  world : LocalStorage.world
}.

(** The locals of one call of [handleSendMessage] that its continuations use. *)
Record flow := {
  convId : string;
  newContext : list Message;
  updatedConversations : list Conversation;
  accumulatedText : string
}.

Definition setChatContext (ms : list Message) (s : state) : state :=
  {| conversations := conversations s;
     currentConversationId := currentConversationId s;
     chatContext := ms; promptValue := promptValue s; world := world s |}.

Definition setConversations (cs : list Conversation) (s : state) : state :=
  {| conversations := cs;
     currentConversationId := currentConversationId s;
     chatContext := chatContext s; promptValue := promptValue s; world := world s |}.

Definition setCurrentConversationId (i : option string) (s : state) : state :=
  {| conversations := conversations s;
     currentConversationId := i;
     chatContext := chatContext s; promptValue := promptValue s; world := world s |}.

Definition setPromptValue (p : string) (s : state) : state :=
  {| conversations := conversations s;
     currentConversationId := currentConversationId s;
     chatContext := chatContext s; promptValue := p; world := world s |}.

(** [saveConversations(cs)] of [utils/localStorage.ts], on the browser state. *)
Definition saveConversations (cs : list Conversation) (s : state) : state :=
  {| conversations := conversations s;
     currentConversationId := currentConversationId s;
     chatContext := chatContext s; promptValue := promptValue s;
     world := (LocalStorage.saveConversations cs (world s)).2 |}.

Definition handleNewChat (s : state) : state :=
  setPromptValue "" (setChatContext [] (setCurrentConversationId None s)).

Definition handleOpenConversation (i : string) (s : state) : state :=
  match List.find (λ c, bool_decide (id c = i)) (conversations s) with
  | Some conv => setChatContext (messages conv) (setCurrentConversationId (Some i) s)
  | None => s
  end.

Definition handleDeleteConversation (i : string) (s : state) : state :=
  match List.find (λ c, bool_decide (id c = i)) (conversations s) with
  | None => s
  | Some _ =>
      let newConversations :=
        List.filter (λ c, negb (bool_decide (id c = i))) (conversations s) in
      let s1 := saveConversations newConversations (setConversations newConversations s) in
      if bool_decide (currentConversationId s = Some i)
      then setChatContext [] (setCurrentConversationId None s1)
      else s1
  end.

(** [cs.map((c) => c.id === convId ? { ...c, messages: ms } : c)] *)
Definition withMessages (i : string) (ms : list Message) (cs : list Conversation)
  : list Conversation :=
  List.map (λ c, if bool_decide (id c = i)
                 then {| id := id c; title := title c; messages := ms;
                         createdAt := createdAt c |}
                 else c) cs.

Definition loadingMsg : Message := textMsg Model "".

Section Send.

(** [String.prototype.trim] *)
Variable trim : string → string.

(** [handleSendMessage] up to the call of [streamChatMessage]; no flow when
    the trimmed prompt is empty. *)
Definition handleSendMessage_begin (now : Z) (s : state) : option flow * state :=
  let text := trim (promptValue s) in
  if bool_decide (text = "") then (None, s)
  else
    let s := setPromptValue "" s in
    let userMsg := textMsg User text in
    let newContext := chatContext s ++ [userMsg] in
    let s := setChatContext newContext s in
    (* the loading message *)
    let s := setChatContext (newContext ++ [loadingMsg]) s in
    let convId := currentConversationId s in
    if falsy convId then
      let id := toString now in
      let title := text in
      let newConv := {| id := id; title := title; messages := newContext;
                        createdAt := id |} in
      let updatedConversations := newConv :: conversations s in
      (Some {| convId := id; newContext := newContext;
               updatedConversations := updatedConversations;
               accumulatedText := "" |},
       saveConversations updatedConversations
         (setCurrentConversationId (Some id)
            (setConversations updatedConversations s)))
    else
      let convId := default "" convId in
      let updatedConvs := withMessages convId newContext (conversations s) in
      (Some {| convId := convId; newContext := newContext;
               updatedConversations := updatedConvs;
               accumulatedText := "" |},
       saveConversations updatedConvs (setConversations updatedConvs s)).

End Send.

(** The chunk callback passed to [streamChatMessage]. *)
Definition onChunk (chunk : string) (fs : flow * state) : flow * state :=
  let f := {| convId := convId fs.1; newContext := newContext fs.1;
              updatedConversations := updatedConversations fs.1;
              accumulatedText := chunk |} in
  let botMsg := textMsg Model (accumulatedText f) in
  let tempContext := newContext f ++ [botMsg] in
  (f, setChatContext tempContext fs.2).

(** After the await: the final save, with the flow's [convId]. *)
Definition handleSendMessage_resolved (f : flow) (s : state) : state :=
  let botMsg := textMsg Model (accumulatedText f) in
  let finalContext := newContext f ++ [botMsg] in
  let s := setChatContext finalContext s in
  let finalConvs := withMessages (convId f) finalContext (updatedConversations f) in
  saveConversations finalConvs (setConversations finalConvs s).

(** The catch block; [msg] is [getErrorMessage(error)]. *)
Definition handleSendMessage_rejected (f : flow) (msg : string) (s : state) : state :=
  let botMsg := iconMsg Model ("오류가 발생했습니다: " +:+ msg) IconError in
  let errorContext := newContext f ++ [botMsg] in
  let s := setChatContext errorContext s in
  let errorConvs := withMessages (convId f) errorContext (updatedConversations f) in
  saveConversations errorConvs (setConversations errorConvs s).

(** What is persisted: the list under the conversations key, and in it the
    messages of the conversation with a given id. *)
Definition persisted (s : state) : option (list Conversation) :=
  match conversations_v1 (LocalStorage.store (world s)) with
  | Some (ArrayOf cs) => Some cs
  | _ => None
  end.

Definition persistedMessages (i : string) (s : state) : option (list Message) :=
  match persisted s with
  | Some cs => messages <$> List.find (λ c, bool_decide (id c = i)) cs
  | None => None
  end.

End App.

(** ** The stream consumer

    [streamChatMessage] of [services/apiService.ts], which decodes the body
    with [new TextDecoder('utf-8')] and [decode(value, { stream: true })]:
    the module [TextDecoder] above. *)

Module StreamConsumer.

(** The body of a response: the chunks the reader delivers, and the error of
    the read that rejects, if one does. *)
Record stream := {
  chunks : list (list Z);
  failure : option exn
}.

Record response := {
  ok : bool;
  body : option stream
}.

Record reading := {
  decoder : TextDecoder.t;
  accumulatedText : list Z;
  calls : list (list Z)       (* the arguments of onChunk, oldest first *)
}.

(** One turn of the read loop, on a chunk. *)
Definition read (r : reading) (value : list Z) : reading :=
  let '(chunk, d) := TextDecoder.decode value (decoder r) in
  let accumulatedText := accumulatedText r ++ chunk in
  {| decoder := d; accumulatedText := accumulatedText;
     calls := calls r ++ [accumulatedText] |}.

Definition readAll (cs : list (list Z)) : reading :=
  foldl read {| decoder := TextDecoder.fresh; accumulatedText := []; calls := [] |} cs.

(** [streamChatMessage(messages, onChunk)] on the response of the request:
    the text it resolves with or the error it rejects with, and the calls of
    [onChunk]. *)
Definition streamChatMessage (resp : response) : completion (list Z) * list (list Z) :=
  if negb (ok resp) then (Throw (Error "Server Error"), [])
  else
    match body resp with
    | None => (Throw (Error "ReadableStream not supported"), [])
    | Some b =>
        let r := readAll (chunks b) in
        match failure b with
        | Some e => (Throw e, calls r)
        | None => (Normal (accumulatedText r), calls r)
        end
    end.

(** The read loop of the script's [sendMessage] is the same loop; it renders
    the accumulated text after each chunk. *)
Definition sendMessage_read (cs : list (list Z)) : list Z * list (list Z) :=
  let r := readAll cs in (accumulatedText r, calls r).

End StreamConsumer.

(** UTF-8, as the server encodes the answer: the bytes of a scalar value. *)
Definition utf8 (c : Z) : list Z :=
  if c <? 0x80 then [c]
  else if c <? 0x800 then [0xC0 + c / 64; 0x80 + c mod 64]
  else if c <? 0x10000 then [0xE0 + c / 4096; 0x80 + (c / 64) mod 64; 0x80 + c mod 64]
  else [0xF0 + c / 262144; 0x80 + (c / 4096) mod 64; 0x80 + (c / 64) mod 64;
        0x80 + c mod 64].

Definition utf8_encode (s : list Z) : list Z := concat (utf8 <$> s).

(** A Unicode scalar value: a code point that is no surrogate. *)
Definition scalar (c : Z) : Prop :=
  0 <= c < 0x110000 ∧ ¬ (0xD800 <= c <= 0xDFFF).

(** A text, given by its scalar values, as a JavaScript string. *)
Definition utf16 (s : list Z) : list Z := concat (TextDecoder.code_units <$> s).

(** How many leading characters of a text lie wholly within its first [n]
    bytes. *)
Fixpoint whole (s : list Z) (n : nat) : nat :=
  match s with
  | [] => 0
  | c :: s' =>
      if (length (utf8 c) <=? n)%nat then S (whole s' (n - length (utf8 c))) else 0
  end.

(** A text without its leading byte order mark, if it has one. *)
Definition strip_BOM (s : list Z) : list Z :=
  match s with
  | c :: s' => if c =? 0xFEFF then s' else s
  | [] => []
  end.

(** ** Notions used to state the properties *)

(** The conversation that [loadConversations] makes of the legacy messages
    at the time [now], with the title it falls back to when no first user
    text is found. *)
Definition migratedConversation (fallback : string) (now : Z) (msgs : list Message)
  : Conversation :=
  {| id := toString now;
     title := match firstUserText msgs with
              | Some t => t
              | None => fallback
              end;
     messages := msgs;
     createdAt := toString now |}.

(** Descending [createdAt], the strings compared by their UTF-16 code units:
    the order of a list that is most recent first. *)
Definition createdAt_ge (a b : Conversation) : Prop :=
  key_leb (createdAt b) (createdAt a) = true.

(** A store that holds nothing and accepts every write. *)
Definition emptyStorage : localStorage :=
  {| conversations_v1 := None; chat_history_v1 := None; migration_done := None;
     accepts := λ _, true; accepts_flag := true |}.


(** The active conversation, when there is one, is in the component's list:
    what opening, creating and deleting a conversation maintain. *)
Definition active_listed (s : App.state) : Prop :=
  ∀ i, App.currentConversationId s = Some i → i ≠ "" →
    ∃ c, List.find (λ c, bool_decide (id c = i)) (App.conversations s) = Some c.

(** The browser has room for every list of conversations. *)
Definition roomy (ls : localStorage) : Prop := ∀ cs, accepts ls cs = true.

(** The chunk callback called on each of the snapshots of a stream, in turn. *)
Definition onChunks (snapshots : list string) (fs : App.flow * App.state)
  : App.flow * App.state :=
  foldl (λ fs chunk, App.onChunk chunk fs) fs snapshots.

(** A session that has just started on an empty store, with a prompt typed. *)
Definition startWith (prompt : string) : App.state :=
  {| App.conversations := []; App.currentConversationId := None;
     App.chatContext := []; App.promptValue := prompt;
     App.world := {| LocalStorage.store := emptyStorage;
                     LocalStorage.console := [] |} |}.

(** Two conversations, a millisecond apart. *)
Definition older : Conversation :=
  {| id := "1700000000000"; title := "first"; messages := [];
     createdAt := "1700000000000" |}.
Definition newer : Conversation :=
  {| id := "1700000000001"; title := "second"; messages := [];
     createdAt := "1700000000001" |}.




(** An endpoint that answers every request, in no negative time, with a
    status that is not terminal. *)
Definition never_terminal (env : nat → exchange) : Prop :=
  ∀ n, 0 ≤ latency (env n) ∧
       ∃ info, answer (env n) = Body info ∧ terminal info = false.

(** The React client's poller at the head of its loop after [n] turns of a
    session started at [now]. *)
Definition looping (now : Z) (n : nat) (s : ApiService.poll) : Prop :=
  ApiService.start s = now ∧ ApiService.requests s = n ∧
  2000 ≤ ApiService.interval s ≤ 5000 ∧
  2000 * Z.of_nat n ≤ ApiService.clock s - now ∧
  Forall (λ i, terminal i = false) (ApiService.delivered s).

(** How a session of the React client's poller ends on the timeout: the
    timeout status, built from the last answer, is the last one delivered and
    the only terminal one, and the clock is more than [maxTimeout] past the
    start. *)
Definition timed_out (env : nat → exchange) (now : Z) (s : ApiService.poll) : Prop :=
  ∃ infos info,
    ApiService.delivered s = infos ++ [info; timeoutInfo info] ∧
    Forall (λ i, terminal i = false) (infos ++ [info]) ∧
    (0 < ApiService.requests s)%nat ∧
    answer (env (ApiService.requests s - 1)%nat) = Body info ∧
    ApiService.start s = now ∧
    maxTimeout < ApiService.clock s - ApiService.start s.


(** An endpoint that answers "processing" for ever. *)
Definition stuckInfo : UploadStatusInfo :=
  {| status := Processing; message := Some "parsing"; progress := Some 30 |}.

Definition stuck : nat → exchange :=
  λ _, {| answer := Body stuckInfo; latency := 0 |}.

(** The flow of the question "hello" asked first in a session, at the time
    1700000000000. *)
Definition firstFlow : App.flow :=
  {| App.convId := "1700000000000";
     App.newContext := [textMsg User "hello"];
     App.updatedConversations :=
       [ {| id := "1700000000000"; title := "hello";
            messages := [textMsg User "hello"];
            createdAt := "1700000000000" |} ];
     App.accumulatedText := "" |}.

(** ** The rest of the modelled code

    The functions around the ones above: the helper [escapeHtml], the
    single-record functions of [utils/indexedDBStorage.ts], the conversation
    handlers of the static script, and the upload and document handlers of
    [App.tsx] with the whole of [handleSendMessage]. *)

(** *** [escapeHtml], in [utils/helpers.ts] and in the static script

    [String(str).replace(pattern, f)], where the pattern is a character class
    of four characters - ampersand, less-than, greater-than and the double
    quote - followed by [+]: it matches every maximal run of these
    characters, and [f] gets the whole run. *)

Module Helpers.

(** The character class of the pattern; 034 is the double quote. *)
Definition special (a : ascii) : bool :=
  bool_decide (a = "&"%char) || bool_decide (a = "<"%char) ||
  bool_decide (a = ">"%char) || bool_decide (a = "034"%char).

(** The table of both versions, a lookup by the matched text. *)
Definition map (s : string) : option string :=
  if bool_decide (s = "&") then Some "&amp;"
  else if bool_decide (s = "<") then Some "&lt;"
  else if bool_decide (s = ">") then Some "&gt;"
  else if bool_decide (s = String "034" "") then Some "&quot;"
  else None.

(** [str.replace(pattern, f)]; [run] is the match that is being read. *)
Fixpoint replace (f : string → string) (run str : string) : string :=
  match str with
  | EmptyString => if bool_decide (run = "") then "" else f run
  | String a rest =>
      if special a then replace f (run +:+ String a "") rest
      else (if bool_decide (run = "") then "" else f run)
             +:+ String a (replace f "" rest)
  end.

(** [utils/helpers.ts]: [(s) => map[s] || s] *)
Definition escapeHtml (str : string) : string :=
  replace (λ s, default s (map s)) "" str.

(** The static script: [function (s) { return ({ ... })[s]; }], whose result
    [undefined] the replacement turns into the text [undefined]. *)
Definition script_escapeHtml (str : string) : string :=
  replace (λ s, default "undefined" (map s)) "" str.

End Helpers.

(** *** [utils/indexedDBStorage.ts]: single records

    These functions go to the table without looking at the migration flag. *)

Module IndexedDBRecords.
Import IndexedDB.

(** [db.conversations.put(conversation)] *)
Definition put (c : Conversation) (d : Dexie) : completion unit * Dexie :=
  if opened d
  then (Normal (), {| rows := <[id c := c]> (rows d); opened := true |})
  else (Throw DatabaseClosedError, d).

(** [db.conversations.get(id)] *)
Definition get (i : string) (d : Dexie) : completion (option Conversation) :=
  if opened d then Normal (rows d !! i) else Throw DatabaseClosedError.

(** [db.conversations.delete(id)] *)
Definition delete (i : string) (d : Dexie) : completion unit * Dexie :=
  if opened d
  then (Normal (), {| rows := base.delete i (rows d); opened := true |})
  else (Throw DatabaseClosedError, d).

(** [saveConversation]: the handler logs and throws the error again. *)
Definition saveConversation (conversation : Conversation) (w : world)
  : completion unit * world :=
  match put conversation (db w) with
  | (Normal _, d) => (Normal (), put_db d w)
  | (Throw e, d) => (Throw e, log "Conversation 저장 실패:" e (put_db d w))
  end.

(** [loadConversation]: the handler logs and returns [undefined]. *)
Definition loadConversation (i : string) (w : world)
  : completion (option Conversation) * world :=
  match get i (db w) with
  | Normal c => (Normal c, w)
  | Throw e => (Normal None, log "Conversation 로드 실패:" e w)
  end.

(** [deleteConversation]: the handler logs and throws the error again. *)
Definition deleteConversation (i : string) (w : world) : completion unit * world :=
  match delete i (db w) with
  | (Normal _, d) => (Normal (), put_db d w)
  | (Throw e, d) => (Throw e, log "Conversation 삭제 실패:" e (put_db d w))
  end.

End IndexedDBRecords.

(** *** The static script: opening and deleting a conversation, and the end
    of [sendMessage] *)

Module ScriptSession.
Import Script.

Definition set_session (ctx : list Message) (i : option string) (s : state) : state :=
  {| chatContext := ctx; conversations := conversations s;
     currentConversationId := i; store := store s; console := console s |}.

(** [window.openConversation] *)
Definition openConversation (i : string) (s : state) : state :=
  match List.find (λ c, bool_decide (id c = i)) (conversations s) with
  | None => s
  | Some conv => set_session (messages conv) (Some i) s
  end.

(** [window.deleteConversation]: [findIndex], then [splice(idx, 1)]. *)
Definition deleteConversation (i : string) (s : state) : state :=
  match list_find (λ c, id c = i) (conversations s) with
  | None => s
  | Some (idx, _) =>
      let s1 := set_conversations (base.delete idx (conversations s)) s in
      let s2 := if bool_decide (currentConversationId s1 = Some i)
                then set_session [] None s1
                else s1 in
      saveConversations s2
  end.

(** [sendMessage] after the read loop: the answer is pushed on the context
    that is current then and saved in the conversation that is current then. *)
Definition sendMessage_resolved (accumulatedText : string) (s : state) : state :=
  let modelMsg := textMsg Model accumulatedText in
  let s1 := set_session (chatContext s ++ [modelMsg]) (currentConversationId s) s in
  if falsy (currentConversationId s1) then s1
  else
    match set_messages_of_first (default "" (currentConversationId s1))
            (chatContext s1) (conversations s1) with
    | Some cs => saveConversations (set_conversations cs s1)
    | None => s1
    end.

(** The catch block of [sendMessage]: the error is logged and shown, the
    module's variables stay as they are. *)
Definition sendMessage_rejected (error : exn) (s : state) : state :=
  warn "" error s.

End ScriptSession.

(** *** [App.tsx]: the documents, the upload flow and whole flows

    The component's other state variables.  The answers of the server are
    arguments: what [getDocuments], [deleteDocument] and [uploadFile] resolve
    or reject with, and the exchanges of the status endpoint. *)

(** What [getDocuments] brings: the [documents] field of the body, if it has
    one, or the error it rejects with. *)
Inductive documentsReply :=
  | Documents (docs : option (list string))
  | DocumentsFailed (e : exn).

(** The body of the answer to an upload. *)
Record uploadData := {
  data_task_id : option string;    (* data.task_id *)
  data_taskId : option string;     (* data.taskId *)
  data_message : option string     (* data.message *)
}.

(** [a || b] on texts that may be missing: the first that is there and not
    empty. *)
Definition or_else (a b : option string) : option string :=
  match a with
  | Some s => if bool_decide (s = "") then b else Some s
  | None => b
  end.

Module Session.

Record state := {
  app : App.state;
  documents : list string;
  isBackendOnline : bool;
  deleteModalActive : bool;
  targetFileToDelete : option string;
  deleteModalMessage : string;
  isFileUploading : bool
}.

Definition onApp (f : App.state → App.state) (s : state) : state :=
  {| app := f (app s); documents := documents s;
     isBackendOnline := isBackendOnline s;
     deleteModalActive := deleteModalActive s;
     targetFileToDelete := targetFileToDelete s;
     deleteModalMessage := deleteModalMessage s;
     isFileUploading := isFileUploading s |}.

Definition setDocuments (docs : list string) (s : state) : state :=
  {| app := app s; documents := docs;
     isBackendOnline := isBackendOnline s;
     deleteModalActive := deleteModalActive s;
     targetFileToDelete := targetFileToDelete s;
     deleteModalMessage := deleteModalMessage s;
     isFileUploading := isFileUploading s |}.

Definition setIsBackendOnline (b : bool) (s : state) : state :=
  {| app := app s; documents := documents s;
     isBackendOnline := b;
     deleteModalActive := deleteModalActive s;
     targetFileToDelete := targetFileToDelete s;
     deleteModalMessage := deleteModalMessage s;
     isFileUploading := isFileUploading s |}.

Definition setIsFileUploading (b : bool) (s : state) : state :=
  {| app := app s; documents := documents s;
     isBackendOnline := isBackendOnline s;
     deleteModalActive := deleteModalActive s;
     targetFileToDelete := targetFileToDelete s;
     deleteModalMessage := deleteModalMessage s;
     isFileUploading := b |}.

Definition setDeleteModal (active : bool) (target : option string) (msg : string)
    (s : state) : state :=
  {| app := app s; documents := documents s;
     isBackendOnline := isBackendOnline s;
     deleteModalActive := active;
     targetFileToDelete := target;
     deleteModalMessage := msg;
     isFileUploading := isFileUploading s |}.

(** [console.error(label, e)] *)
Definition error (l : string) (e : exn) (s : state) : state :=
  onApp (λ a, {| App.conversations := App.conversations a;
                 App.currentConversationId := App.currentConversationId a;
                 App.chatContext := App.chatContext a;
                 App.promptValue := App.promptValue a;
                 App.world := LocalStorage.warn l e (App.world a) |}) s.

(** [loadDocuments], and the effect that runs it when the component mounts. *)
Definition loadDocuments (reply : documentsReply) (s : state) : state :=
  match reply with
  | Documents docs =>
      let s :=
        match docs with
        | Some (d :: ds) => setDocuments (d :: ds) s
        | _ => setDocuments [] s
        end in
      setIsBackendOnline true s
  | DocumentsFailed e =>
      setIsBackendOnline false (error "문서 목록 로드 실패" e s)
  end.

Definition openDeleteModal (filename : string) (s : state) : state :=
  setDeleteModal true (Some filename)
    ("'" +:+ filename +:+ "' 문서를 삭제하시겠습니까?") s.

Definition closeDeleteModal (s : state) : state :=
  setDeleteModal false None (deleteModalMessage s) s.

Section Flows.

(** [String.prototype.trim]; the string with given UTF-16 code units,
    [String.fromCharCode(...units)]; and the [message] of an error that the
    browser or the HTTP client made. *)
Variable trim : string → string.
Variable fromCharCode : list Z → string.
Variable messageOf : exn → string.

(** [getErrorMessage]: every value thrown here is an [Error]. *)
Definition getErrorMessage (error : exn) : string :=
  match error with
  | Error msg => msg
  | e => messageOf e
  end.

(** [if (chatContext.length > 0) handleNewChat()] *)
Definition leaveConversation (s : state) : state :=
  if (0 <? length (App.chatContext (app s)))%nat
  then onApp App.handleNewChat s
  else s.

(** [handleConfirmDelete], with what [deleteDocument] and then
    [getDocuments] bring. *)
Definition handleConfirmDelete (deleted : completion unit) (docs : documentsReply)
    (s : state) : state :=
  match or_else (targetFileToDelete s) None with
  | None => s
  | Some filename =>
      let s := closeDeleteModal s in
      let s := leaveConversation s in
      let userMsg := textMsg User ("문서 삭제 요청: " +:+ filename) in
      let newContext := [userMsg] in
      let s := onApp (App.setChatContext newContext) s in
      match deleted with
      | Normal _ =>
          let botMsg :=
            iconMsg Model ("'" +:+ filename +:+ "' 삭제 완료.") IconSuccess in
          let finalContext := newContext ++ [botMsg] in
          let s := onApp (App.setChatContext finalContext) s in
          loadDocuments docs s
      | Throw err =>
          let botMsg :=
            iconMsg Model ("삭제 실패: " +:+ getErrorMessage err) IconError in
          onApp (App.setChatContext (newContext ++ [botMsg])) s
      end
  end.

(** The progress message of the upload flow. *)
Definition progressMsg (info : UploadStatusInfo) : Message :=
  {| role := Model; parts := [ {| text := ""; icon := None |} ];
     uploadStatus := Some info |}.

(** [handleFileSelect] on a file of the given name, with what [uploadFile]
    brings, the exchanges of the status endpoint from the time [now], and
    what [getDocuments] brings.  The poller is run for at most [turns] turns;
    when it is still polling then, the handler is still suspended. *)
Definition handleFileSelect (name : string) (uploaded : completion uploadData)
    (env : nat → exchange) (now : Z) (turns : nat) (docs : documentsReply)
    (s : state) : state :=
  let s := leaveConversation s in
  let s := setIsFileUploading true s in
  let userMsg := textMsg User ("파일 업로드: " +:+ name) in
  let newContext := [userMsg] in
  let s := onApp (App.setChatContext newContext) s in
  let catch (err : exn) (s : state) : state :=
    let botMsg :=
      iconMsg Model ("업로드 실패: " +:+ getErrorMessage err) IconError in
    setIsFileUploading false (onApp (App.setChatContext (newContext ++ [botMsg])) s) in
  match uploaded with
  | Throw err => catch err s
  | Normal data =>
      match or_else (data_task_id data) (data_taskId data) with
      | None =>
          let botMsg :=
            iconMsg Model (default "업로드 완료" (or_else (data_message data) None))
              IconSuccess in
          let finalContext := newContext ++ [botMsg] in
          let s := onApp (App.setChatContext finalContext) s in
          let s := loadDocuments docs s in
          setIsFileUploading false s
      | Some taskId =>
          let onUpdate (s : state) (info : UploadStatusInfo) : state :=
            onApp (App.setChatContext (newContext ++ [progressMsg info])) s in
          match ApiService.pollUploadStatus env now turns with
          | Running p => foldl onUpdate s (ApiService.delivered p)
          | Thrown err p => catch err (foldl onUpdate s (ApiService.delivered p))
          | Returned finalStatus p =>
              let s := foldl onUpdate s (ApiService.delivered p) in
              let s :=
                if bool_decide (status finalStatus = Done) then
                  let botMsg :=
                    iconMsg Model ("처리 완료: " +:+ name) IconSuccess in
                  let finalContext := newContext ++ [botMsg] in
                  let s := onApp (App.setChatContext finalContext) s in
                  loadDocuments docs s
                else
                  let botMsg :=
                    iconMsg Model
                      ("처리 실패: " +:+
                         default "오류" (or_else (message finalStatus) None))
                      IconError in
                  onApp (App.setChatContext (newContext ++ [botMsg])) s in
              setIsFileUploading false s
          end
      end
  end.

(** [handleSendMessage] as a whole, with the response of the chat request:
    the first part, the chunk callbacks of [streamChatMessage], and the end. *)
Definition handleSendMessage (now : Z) (resp : StreamConsumer.response)
    (a : App.state) : App.state :=
  match App.handleSendMessage_begin trim now a with
  | (None, a) => a
  | (Some f, a) =>
      let '(result, calls) := StreamConsumer.streamChatMessage resp in
      let fs := foldl (λ fs chunk, App.onChunk chunk fs) (f, a)
                  (fromCharCode <$> calls) in
      match result with
      | Normal _ => App.handleSendMessage_resolved fs.1 fs.2
      | Throw error =>
          App.handleSendMessage_rejected fs.1 (getErrorMessage error) fs.2
      end
  end.

(** What the user and the server can make the component do, each flow run
    to its end before the next event. *)
Inductive event :=
  | LoadDocuments (docs : documentsReply)
  | NewChat
  | OpenConversation (i : string)
  | DeleteConversation (i : string)
  | PromptChange (p : string)
  | SendMessage (now : Z) (resp : StreamConsumer.response)
  | FileSelect (name : string) (uploaded : completion uploadData)
      (env : nat → exchange) (now : Z) (turns : nat) (docs : documentsReply)
  | OpenDeleteModal (filename : string)
  | CloseDeleteModal
  | ConfirmDelete (deleted : completion unit) (docs : documentsReply).

Definition handle (s : state) (e : event) : state :=
  match e with
  | LoadDocuments docs => loadDocuments docs s
  | NewChat => onApp App.handleNewChat s
  | OpenConversation i => onApp (App.handleOpenConversation i) s
  | DeleteConversation i => onApp (App.handleDeleteConversation i) s
  | PromptChange p => onApp (App.setPromptValue p) s
  | SendMessage now resp => onApp (handleSendMessage now resp) s
  | FileSelect name uploaded env now turns docs =>
      handleFileSelect name uploaded env now turns docs s
  | OpenDeleteModal filename => openDeleteModal filename s
  | CloseDeleteModal => closeDeleteModal s
  | ConfirmDelete deleted docs => handleConfirmDelete deleted docs s
  end.

End Flows.

(** The component when it mounts: the list is what [loadConversations] of
    [utils/localStorage.ts] returns. *)
Definition mount (toLocaleString : Z → string) (now : Z) (w : LocalStorage.world)
  : state :=
  let '(loaded, w') := LocalStorage.loadConversations toLocaleString now w in
  {| app := {| App.conversations :=
                 match loaded with Normal l => l | Throw _ => [] end;
               App.currentConversationId := None;
               App.chatContext := [];
               App.promptValue := "";
               App.world := w' |};
     documents := []; isBackendOnline := false;
     deleteModalActive := false; targetFileToDelete := None;
     deleteModalMessage := ""; isFileUploading := false |}.

End Session.

(** *** [cleanMessagesForPayload] of [services/apiService.ts]

    The text of every part goes through two replacements and [trim].  The
    first pattern is the opening tag of a sources block, then any characters,
    as few as possible, then the closing tag of a [div]: at each place, from
    left to right, it matches from an opening tag to the first closing tag
    after it, and the search goes on behind the match.  The second pattern
    is a run of line feeds. *)

Module Payload.

Definition opening : string := "<div class='sources'>".
Definition closing : string := "</div>".

(** The rest of [s] behind the prefix [p], if [s] starts with [p]. *)
Fixpoint behind (p s : string) : option string :=
  match p with
  | EmptyString => Some s
  | String a p' =>
      match s with
      | String b s' => if bool_decide (a = b) then behind p' s' else None
      | EmptyString => None
      end
  end.

(** How many characters of [s] there are up to the end of its first closing
    tag. *)
Fixpoint to_closing (s : string) : option nat :=
  match behind closing s with
  | Some _ => Some (String.length closing)
  | None =>
      match s with
      | EmptyString => None
      | String _ r => S <$> to_closing r
      end
  end.

(** The length of the match of the first pattern at the start of [s]. *)
Definition sources (s : string) : option nat :=
  match behind opening s with
  | Some body => (λ n, String.length opening + n)%nat <$> to_closing body
  | None => None
  end.

(** [s.replace(first pattern, '')]; [skip] characters of a match are still
    to be dropped. *)
Fixpoint removeSources (skip : nat) (s : string) : string :=
  match s with
  | EmptyString => ""
  | String a r =>
      match skip with
      | S k => removeSources k r
      | O =>
          match sources s with
          | Some (S k) => removeSources k r
          | _ => String a (removeSources 0 r)
          end
      end
  end.

(** [s.replace(second pattern, ' ')]; [after] tells that a line feed comes
    just before. *)
Fixpoint joinLines (after : bool) (s : string) : string :=
  match s with
  | EmptyString => ""
  | String a r =>
      if bool_decide (a = "010"%char)
      then (if after then "" else " ") +:+ joinLines true r
      else String a (joinLines false r)
  end.

Section Clean.

(** [String.prototype.trim] *)
Variable trim : string → string.

Definition cleanText (t : string) : string :=
  trim (joinLines false (removeSources 0 t)).

Definition cleanMessagesForPayload (messages : list Message) : list Message :=
  (λ message,
     {| role := role message;
        parts := (λ part, {| text := cleanText (text part); icon := icon part |})
                   <$> parts message;
        uploadStatus := uploadStatus message |}) <$> messages.

End Clean.

End Payload.

(** ** More notions used to state the properties *)

(** The time the first [n] status requests of a session take. *)
Fixpoint total_latency (env : nat → exchange) (n : nat) : Z :=
  match n with
  | O => 0
  | S k => total_latency env k + latency (env k)
  end.

(** The wait after the turn [n] of a session, counted from 0: 2000 ms
    doubled [n] times, at most [maxInterval]. *)
Definition backoff (n : nat) : Z := Z.min (2000 * 2 ^ Z.of_nat n) maxInterval.

(** The time a session has waited in its first [n] turns. *)
Fixpoint waited (n : nat) : Z :=
  match n with
  | O => 0
  | S k => waited k + backoff k
  end.

(** The answers to the first [n] status requests. *)
Definition answers (env : nat → exchange) (n : nat) : list reply :=
  (λ i, answer (env i)) <$> seq 0 n.

(** The first [k] requests are answered with statuses that are not terminal,
    each at most [maxTimeout] after the start of the session. *)
Definition progressing (env : nat → exchange) (k : nat) : Prop :=
  ∀ i, (i < k)%nat →
    (∃ info, answer (env i) = Body info ∧ terminal info = false) ∧
    total_latency env (S i) + waited i ≤ maxTimeout.

(** The list on screen is the stored list, nothing stored counting as the
    empty list. *)
Definition in_sync (a : App.state) : Prop :=
  App.conversations a = default [] (App.persisted a).

(** The buffer of an active conversation is what is stored for it. *)
Definition shown_is_stored (a : App.state) : Prop :=
  ∀ i, App.currentConversationId a = Some i → i ≠ "" →
    App.persistedMessages i a = Some (App.chatContext a).

(** Every conversation has a message. *)
Definition all_nonempty (cs : list Conversation) : Prop :=
  Forall (λ c, messages c ≠ []) cs.

(** An endpoint that answers uploaded, then parsing at 40 percent, then done
    for ever, each after 100 ms; and one that does not know the task. *)
Definition upload_done : nat → exchange :=
  λ n, {| answer :=
            match n with
            | O => Body {| status := Uploaded; message := None; progress := Some 0 |}
            | S O => Body {| status := Processing; message := Some "parsing";
                             progress := Some 40 |}
            | _ => Body {| status := Done; message := None; progress := Some 100 |}
            end;
          latency := 100 |}.

Definition unknown_task : nat → exchange :=
  λ _, {| answer := Status404; latency := 50 |}.

(** A step that writes neither the store nor the component's list. *)
Definition keeps_conversations (a a' : App.state) : Prop :=
  LocalStorage.store (App.world a') = LocalStorage.store (App.world a) ∧
  App.conversations a' = App.conversations a.

(** The upload flow is still waiting for its poller. *)
Definition upload_pending (uploaded : completion uploadData)
    (env : nat → exchange) (now : Z) (turns : nat) : bool :=
  match uploaded with
  | Normal data =>
      match or_else (data_task_id data) (data_taskId data) with
      | Some _ =>
          match ApiService.pollUploadStatus env now turns with
          | Running _ => true
          | _ => false
          end
      | None => false
      end
  | Throw _ => false
  end.

(** The message that ends a Send flow: the answer as the last chunk callback
    got it, or the error message. *)
Definition answerMessage (fromCharCode : list Z → string) (messageOf : exn → string)
    (resp : StreamConsumer.response) : Message :=
  match StreamConsumer.streamChatMessage resp with
  | (Normal _, calls) => textMsg Model (List.last (fromCharCode <$> calls) "")
  | (Throw e, _) =>
      iconMsg Model ("오류가 발생했습니다: " +:+ Session.getErrorMessage messageOf e)
        IconError
  end.

(** What the handlers maintain on a browser with room: the list on screen is
    the stored one and holds the active conversation. *)
Definition consistent (a : App.state) : Prop :=
  roomy (LocalStorage.store (App.world a)) ∧ in_sync a ∧ active_listed a.

(** And, when no stored conversation is empty: the buffer of the active
    conversation is what is stored for it. *)
Definition faithful (a : App.state) : Prop :=
  shown_is_stored a ∧ all_nonempty (App.conversations a).

(** A browser whose store is empty and has room. *)
Definition emptyWorld : LocalStorage.world :=
  {| LocalStorage.store := emptyStorage; LocalStorage.console := [] |}.

(** [String.fromCharCode] on code units below 256. *)
Definition fromLatin1 (units : list Z) : string :=
  foldr (λ u s, String (ascii_of_N (Z.to_N u)) s) "" units.

(** The answer "Hi" in two chunks, and a request the server refuses. *)
Definition respHi : StreamConsumer.response :=
  {| StreamConsumer.ok := true;
     StreamConsumer.body :=
       Some {| StreamConsumer.chunks := [[0x48]; [0x69]];
               StreamConsumer.failure := None |} |}.


(** What the script has stored for the conversation with a given id. *)
Definition script_stored (i : string) (s : Script.state) : option (list Message) :=
  match conversations_v1 (Script.store s) with
  | Some (ArrayOf cs) => messages <$> List.find (λ c, bool_decide (id c = i)) cs
  | _ => None
  end.

(** Texts and the characters that [escapeHtml] looks for: a text without
    any of them, a text made of them only, a text in which no two of them
    are next to each other ([after] tells whether one comes just before),
    and whether a character occurs in a text. *)
Fixpoint plain (s : string) : bool :=
  match s with
  | EmptyString => true
  | String a r => negb (Helpers.special a) && plain r
  end.

Fixpoint all_special (s : string) : bool :=
  match s with
  | EmptyString => true
  | String a r => Helpers.special a && all_special r
  end.

Fixpoint isolated (after : bool) (s : string) : bool :=
  match s with
  | EmptyString => true
  | String a r =>
      if Helpers.special a then negb after && isolated true r
      else isolated false r
  end.

Fixpoint occurs (a : ascii) (s : string) : bool :=
  match s with
  | EmptyString => false
  | String b r => bool_decide (a = b) || occurs a r
  end.

(** Each character replaced by its entity, if the table has one. *)
Fixpoint escape_each (s : string) : string :=
  match s with
  | EmptyString => ""
  | String a r => default (String a "") (Helpers.map (String a "")) +:+ escape_each r
  end.

(** A text without the character that starts a tag. *)
Definition tagless (s : string) : bool := negb (occurs "<" s).

(** A [trim] takes characters away and adds none. *)
Definition trims (trim : string → string) : Prop :=
  ∀ a s, occurs a (trim s) = true → occurs a s = true.

(** A conversation with an id and a title that are not empty. *)
Definition named (c : Conversation) : Prop := id c ≠ "" ∧ title c ≠ "".

(** * Properties *)

(** ** The order of strings *)

Section StringOrder.

Lemma Ascii_compare_refl a : Ascii.compare a a = Eq.
Proof. unfold Ascii.compare. apply N.compare_refl. Qed.

Lemma Ascii_compare_Lt_trans a b c :
  Ascii.compare a b = Lt → Ascii.compare b c = Lt → Ascii.compare a c = Lt.
Proof.
  unfold Ascii.compare. rewrite !N.compare_lt_iff. lia.
Qed.

Lemma String_compare_refl s : String.compare s s = Eq.
Proof.
  induction s as [|a s IH]; simpl; [done|]. by rewrite Ascii_compare_refl.
Qed.

Lemma String_compare_Lt_trans s1 s2 s3 :
  String.compare s1 s2 = Lt → String.compare s2 s3 = Lt → String.compare s1 s3 = Lt.
Proof.
  revert s2 s3. induction s1 as [|a s1 IH]; intros [|b s2] [|c s3]; simpl; try done.
  destruct (Ascii.compare a b) eqn:Hab; try done;
  destruct (Ascii.compare b c) eqn:Hbc; try done.
  - apply Ascii.compare_eq_iff in Hab, Hbc. subst. rewrite Ascii_compare_refl. apply IH.
  - apply Ascii.compare_eq_iff in Hab. subst. by rewrite Hbc.
  - apply Ascii.compare_eq_iff in Hbc. subst. by rewrite Hab.
  - by rewrite (Ascii_compare_Lt_trans _ _ _ Hab Hbc).
Qed.

Lemma String_leb_iff s1 s2 :
  String.leb s1 s2 = true ↔ String.compare s1 s2 = Lt ∨ s1 = s2.
Proof.
  unfold String.leb. split.
  - destruct (String.compare s1 s2) eqn:H; try done; [|by left].
    right. by apply String.compare_eq_iff.
  - intros [->| ->]; [done|]. by rewrite String_compare_refl.
Qed.

Lemma String_leb_trans s1 s2 s3 :
  String.leb s1 s2 = true → String.leb s2 s3 = true → String.leb s1 s3 = true.
Proof.
  rewrite !String_leb_iff. intros [H1| ->] [H2| ->]; eauto using String_compare_Lt_trans.
Qed.

End StringOrder.

(** ** The order of keys *)

Section KeyOrder.

Lemma compare_units_refl xs : compare_units xs xs = Eq.
Proof.
  induction xs as [|x xs IH]; simpl; [done|]. by rewrite Z.compare_refl.
Qed.

Lemma compare_units_eq xs ys : compare_units xs ys = Eq → xs = ys.
Proof.
  revert ys. induction xs as [|x xs IH]; intros [|y ys]; simpl; try done.
  destruct (x ?= y) eqn:H; try done.
  apply Z.compare_eq in H. intros ?%IH. by subst.
Qed.

Lemma compare_units_antisym xs ys :
  compare_units ys xs = CompOpp (compare_units xs ys).
Proof.
  revert ys. induction xs as [|x xs IH]; intros [|y ys]; simpl; try done.
  rewrite (Z.compare_antisym x y).
  destruct (x ?= y); simpl; [apply IH|done|done].
Qed.

Lemma compare_units_Lt_trans xs ys zs :
  compare_units xs ys = Lt → compare_units ys zs = Lt → compare_units xs zs = Lt.
Proof.
  revert ys zs.
  induction xs as [|x xs IH]; intros [|y ys] [|z zs]; simpl; try done.
  destruct (x ?= y) eqn:Hxy; try done;
  destruct (y ?= z) eqn:Hyz; try done.
  - apply Z.compare_eq in Hxy, Hyz. subst. rewrite Z.compare_refl. apply IH.
  - apply Z.compare_eq in Hxy. subst. by rewrite Hyz.
  - apply Z.compare_eq in Hyz. subst. by rewrite Hxy.
  - intros _ _. rewrite Z.compare_lt_iff in Hxy, Hyz.
    assert ((x ?= z) = Lt) as -> by (apply Z.compare_lt_iff; lia). done.
Qed.

Lemma key_compare_eq a b : key_compare a b = Eq ↔ codeUnits a = codeUnits b.
Proof.
  unfold key_compare. split; [apply compare_units_eq|].
  intros ->. apply compare_units_refl.
Qed.

Lemma key_leb_iff a b :
  key_leb a b = true ↔ key_compare a b = Lt ∨ codeUnits a = codeUnits b.
Proof.
  unfold key_leb. rewrite <- key_compare_eq.
  destruct (key_compare a b); intuition congruence.
Qed.

Lemma key_leb_total a b : key_leb a b = true ∨ key_leb b a = true.
Proof.
  unfold key_leb, key_compare.
  rewrite (compare_units_antisym (codeUnits a) (codeUnits b)).
  destruct (compare_units (codeUnits a) (codeUnits b)); simpl; auto.
Qed.

Lemma key_leb_trans a b c :
  key_leb a b = true → key_leb b c = true → key_leb a c = true.
Proof.
  rewrite !key_leb_iff. unfold key_compare.
  intros [H1|E1] [H2|E2].
  - left. eauto using compare_units_Lt_trans.
  - left. by rewrite <- E2.
  - left. by rewrite E1.
  - right. congruence.
Qed.

(** On texts of ASCII characters - the ids and [createdAt] values that the
    code makes are such, strings of digits - the order of the code units is
    the order of [String.compare]. *)
Lemma process_ascii bs :
  Forall (λ b, 0 ≤ b < 128) bs →
  TextDecoder.process bs TextDecoder.idle = (bs, TextDecoder.idle).
Proof.
  induction 1 as [|b bs Hb _ IH]; [done|].
  cbn [TextDecoder.process]. unfold TextDecoder.handler, TextDecoder.lead.
  cbn [TextDecoder.bytes_needed TextDecoder.idle].
  replace (0 =? 0) with true by done.
  replace (0x00 <=? b) with true by (symmetry; apply Z.leb_le; lia).
  replace (b <=? 0x7F) with true by (symmetry; apply Z.leb_le; lia).
  cbn [andb]. fold TextDecoder.idle. by rewrite IH.
Qed.

Lemma code_units_ascii bs :
  Forall (λ b, 0 ≤ b < 128) bs → concat (TextDecoder.code_units <$> bs) = bs.
Proof.
  induction 1 as [|b bs Hb _ IH]; [done|]. cbn [fmap list_fmap concat].
  unfold TextDecoder.code_units at 1.
  replace (b <? 0x10000) with true by (symmetry; apply Z.ltb_lt; lia).
  cbn [app]. by f_equal.
Qed.

Lemma codeUnits_ascii s :
  Forall (λ c, (N_of_ascii c < 128)%N) (String.list_ascii_of_string s) →
  codeUnits s = bytesOf s.
Proof.
  intros H.
  assert (Forall (λ b, 0 ≤ b < 128) (bytesOf s)) as Hb.
  { unfold bytesOf. apply Forall_fmap. eapply Forall_impl; [exact H|].
    intros c Hc. unfold compose. cbv beta in Hc |- *. lia. }
  unfold codeUnits. rewrite (process_ascii _ Hb).
  cbn [TextDecoder.bytes_needed TextDecoder.idle].
  replace (0 =? 0) with true by done. by apply code_units_ascii.
Qed.

Lemma compare_units_bytes a b :
  compare_units (bytesOf a) (bytesOf b) = String.compare a b.
Proof.
  revert b. induction a as [|x a IH]; intros [|y b]; try done.
  cbn [String.compare]. unfold bytesOf in *.
  cbn [String.list_ascii_of_string fmap list_fmap compare_units].
  unfold Ascii.compare. rewrite N2Z.inj_compare.
  destruct (N_of_ascii x ?= N_of_ascii y)%N; [apply IH|done|done].
Qed.

Lemma key_compare_ascii a b :
  Forall (λ c, (N_of_ascii c < 128)%N) (String.list_ascii_of_string a) →
  Forall (λ c, (N_of_ascii c < 128)%N) (String.list_ascii_of_string b) →
  key_compare a b = String.compare a b.
Proof.
  intros Ha Hb. unfold key_compare.
  rewrite (codeUnits_ascii a Ha), (codeUnits_ascii b Hb).
  apply compare_units_bytes.
Qed.

(** Beyond ASCII the two orders differ: U+FF5E is one code unit, 0xFF5E,
    and U+1F600 is the surrogate pair 0xD83D 0xDE00, so the first is the
    greater key, while its UTF-8 bytes come first. *)
Lemma key_compare_surrogates :
  codeUnits "～" = [0xFF5E] ∧ codeUnits "😀" = [0xD83D; 0xDE00] ∧
  key_compare "～" "😀" = Gt ∧ String.compare "～" "😀" = Lt.
Proof. repeat split; vm_compute; reflexivity. Qed.

End KeyOrder.

Module IndexedDBFacts.
Import IndexedDB.

Lemma index_le_iff a b :
  index_le a b ↔
  key_compare (createdAt a) (createdAt b) = Lt ∨
  (codeUnits (createdAt a) = codeUnits (createdAt b) ∧ key_leb (id a) (id b) = true).
Proof.
  unfold index_le, index_leb. rewrite <- key_compare_eq.
  destruct (key_compare (createdAt a) (createdAt b)); intuition congruence.
Qed.

#[local] Instance index_le_total : Total index_le.
Proof.
  intros a b. rewrite !index_le_iff, <- !key_compare_eq. unfold key_compare.
  rewrite (compare_units_antisym (codeUnits (createdAt a)) (codeUnits (createdAt b))).
  destruct (compare_units (codeUnits (createdAt a)) (codeUnits (createdAt b)));
    simpl.
  - destruct (key_leb_total (id a) (id b)); [left|right]; right; done.
  - left. by left.
  - right. by left.
Qed.

#[local] Instance index_le_trans : Transitive index_le.
Proof.
  intros a b c. rewrite !index_le_iff. unfold key_compare.
  intros [H1|[E1 L1]] [H2|[E2 L2]].
  - left. eauto using compare_units_Lt_trans.
  - left. by rewrite <- E2.
  - left. by rewrite E1.
  - right. split; [congruence|]. eauto using key_leb_trans.
Qed.


Lemma StronglySorted_weaken {A} (R1 R2 : relation A) l :
  (∀ x y, R1 x y → R2 x y) → StronglySorted R1 l → StronglySorted R2 l.
Proof.
  intros HR. induction 1 as [|x l Hl IH Hx]; constructor; [done|].
  eapply Forall_impl; [exact Hx|]. auto.
Qed.

Lemma orderBy_reverse_sorted d :
  StronglySorted createdAt_ge (reverse (orderBy_createdAt d)).
Proof.
  apply (StronglySorted_weaken (flip index_le)).
  - intros x y. unfold flip, createdAt_ge. rewrite index_le_iff.
    intros H. apply key_leb_iff. destruct H as [?|[? _]]; [by left|by right].
  - apply Sorted_StronglySorted.
    + intros x y z. unfold flip. intros ? ?. by etrans.
    + apply Sorted_reverse. apply Sorted_merge_sort. apply _.
Qed.

Lemma orderBy_reverse_Permutation d :
  reverse (orderBy_createdAt d) ≡ₚ (snd <$> map_to_list (rows d)).
Proof.
  rewrite reverse_Permutation. apply merge_sort_Permutation.
Qed.

Lemma foldl_add_fresh cs : ∀ m n,
  NoDup (id <$> cs) →
  (∀ c, c ∈ cs → m !! id c = None) →
  ∃ m', foldl add (m, n) cs = (m', n) ∧
        map_to_list m' ≡ₚ ((λ c, (id c, c)) <$> cs) ++ map_to_list m.
Proof.
  induction cs as [|c cs IH]; intros m n Hnd Hfresh; simpl.
  - by exists m.
  - apply NoDup_cons in Hnd as [Hc Hnd].
    unfold add at 2. simpl. rewrite (Hfresh c) by left.
    destruct (IH (<[id c := c]> m) n Hnd) as (m' & -> & Hp).
    + intros c' Hc'. rewrite lookup_insert_ne.
      * apply Hfresh. by right.
      * intros E. apply Hc. rewrite E. by apply list_elem_of_fmap_2.
    + exists m'. split; [done|]. rewrite Hp.
      rewrite map_to_list_insert by (apply Hfresh; left).
      by rewrite Permutation_middle.
Qed.

End IndexedDBFacts.

(** ** Decimal strings

    Decimal strings of one length are ordered as their numbers. *)

Section DecimalStrings.

Lemma digit_compare a b :
  (a < 10)%N → (b < 10)%N →
  Ascii.compare (pretty_N_char a) (pretty_N_char b) = N.compare a b.
Proof.
  intros Ha Hb.
  assert (a = 0 ∨ a = 1 ∨ a = 2 ∨ a = 3 ∨ a = 4 ∨ a = 5 ∨ a = 6 ∨ a = 7 ∨
          a = 8 ∨ a = 9)%N as Ea by lia.
  assert (b = 0 ∨ b = 1 ∨ b = 2 ∨ b = 3 ∨ b = 4 ∨ b = 5 ∨ b = 6 ∨ b = 7 ∨
          b = 8 ∨ b = 9)%N as Eb by lia.
  repeat (destruct Ea as [->|Ea]); try subst a;
    repeat (destruct Eb as [->|Eb]); try subst b; reflexivity.
Qed.

Lemma pretty_N_go_length x : ∀ s,
  (String.length s ≤ String.length (pretty_N_go x s))%nat.
Proof.
  induction (N.lt_wf_0 x) as [x _ IH]; intros s.
  destruct (N.eq_dec x 0%N) as [->|Hx]; [by rewrite pretty_N_go_0|].
  rewrite pretty_N_go_step by lia.
  etrans; [|apply IH; apply N.div_lt; lia]. simpl. lia.
Qed.

Lemma pretty_N_go_compare x : ∀ y s t,
  String.length s = String.length t →
  String.length (pretty_N_go x s) = String.length (pretty_N_go y t) →
  String.compare (pretty_N_go x s) (pretty_N_go y t) =
    match N.compare x y with
    | Eq => String.compare s t
    | c => c
    end.
Proof.
  induction (N.lt_wf_0 x) as [x _ IH]; intros y s t Hst Hlen.
  destruct (N.eq_dec x 0%N) as [->|Hx], (N.eq_dec y 0%N) as [->|Hy].
  - by rewrite !pretty_N_go_0.
  - rewrite pretty_N_go_0, pretty_N_go_step in Hlen by lia.
    pose proof (pretty_N_go_length (y `div` 10)%N
                  (String (pretty_N_char (y `mod` 10)%N) t)) as H.
    simpl in H. lia.
  - rewrite pretty_N_go_0, pretty_N_go_step in Hlen by lia.
    pose proof (pretty_N_go_length (x `div` 10)%N
                  (String (pretty_N_char (x `mod` 10)%N) s)) as H.
    simpl in H. lia.
  - rewrite (pretty_N_go_step x), (pretty_N_go_step y) in * by lia.
    rewrite IH; [|apply N.div_lt; lia|simpl; lia|done].
    cbn [String.compare].
    rewrite digit_compare by (apply N.mod_lt; lia).
    pose proof (N.div_mod x 10%N ltac:(done)).
    pose proof (N.div_mod y 10%N ltac:(done)).
    pose proof (N.mod_lt x 10%N ltac:(done)).
    pose proof (N.mod_lt y 10%N ltac:(done)).
    clear IH Hlen.
    set (qx := (x `div` 10)%N) in *. set (rx := (x `mod` 10)%N) in *.
    set (qy := (y `div` 10)%N) in *. set (ry := (y `mod` 10)%N) in *.
    clearbody qx rx qy ry.
    destruct (N.compare_spec qx qy), (N.compare_spec rx ry),
             (N.compare_spec x y); try done; exfalso; lia.
Qed.

Lemma toString_compare (n m : Z) :
  0 < n → 0 < m →
  String.length (toString n) = String.length (toString m) →
  String.compare (toString n) (toString m) = Z.compare n m.
Proof.
  destruct n as [|p|p], m as [|q|q]; try lia. intros _ _.
  unfold toString, pretty, pretty_Z, pretty, pretty_positive, pretty, pretty_N.
  rewrite !decide_False by done. intros Hlen.
  rewrite pretty_N_go_compare by done. simpl.
  by destruct (Pos.compare p q).
Qed.

(** Decimal strings are ASCII, so IndexedDB orders them as [String.compare]
    does: for times of one length, the most recent has the greatest key. *)
Lemma pretty_N_char_ascii a : (N_of_ascii (pretty_N_char a) < 128)%N.
Proof.
  unfold pretty_N_char.
  destruct a as [|[[[[|[]|]|[[]|[]|]|]|[[|[]|]|[[]|[]|]|]|]|[[|[]|]|[[]|[]|]|]|]];
    vm_compute; reflexivity.
Qed.

Lemma pretty_N_go_ascii x : ∀ s,
  Forall (λ c, (N_of_ascii c < 128)%N) (String.list_ascii_of_string s) →
  Forall (λ c, (N_of_ascii c < 128)%N)
    (String.list_ascii_of_string (pretty_N_go x s)).
Proof.
  induction (N.lt_wf_0 x) as [x _ IH]; intros s Hs.
  destruct (N.eq_dec x 0%N) as [->|Hx]; [by rewrite pretty_N_go_0|].
  rewrite pretty_N_go_step by lia.
  apply IH; [apply N.div_lt; lia|].
  cbn [String.list_ascii_of_string]. constructor; [|done].
  apply pretty_N_char_ascii.
Qed.

Lemma toString_ascii (n : Z) :
  Forall (λ c, (N_of_ascii c < 128)%N) (String.list_ascii_of_string (toString n)).
Proof.
  unfold toString, pretty, pretty_Z, pretty, pretty_positive, pretty, pretty_N.
  destruct n as [|p|p].
  - repeat constructor.
  - rewrite decide_False by done. apply pretty_N_go_ascii. constructor.
  - rewrite decide_False by done.
    change (Forall (λ c, (N_of_ascii c < 128)%N)
              ("-"%char :: String.list_ascii_of_string (pretty_N_go (N.pos p) ""))).
    constructor; [done|]. apply pretty_N_go_ascii. constructor.
Qed.

Lemma toString_key_compare (n m : Z) :
  key_compare (toString n) (toString m) =
    String.compare (toString n) (toString m).
Proof. apply key_compare_ascii; apply toString_ascii. Qed.

Lemma createdAt_ge_times (a b : Conversation) (n m : Z) :
  createdAt a = toString n → createdAt b = toString m →
  0 < n → 0 < m →
  String.length (toString n) = String.length (toString m) →
  createdAt_ge a b ↔ m ≤ n.
Proof.
  intros Ha Hb Hn Hm Hlen. unfold createdAt_ge, key_leb. rewrite Ha, Hb.
  rewrite toString_key_compare, toString_compare by (done || lia).
  destruct (Z.compare_spec m n); split; (done || lia).
Qed.

(** A number of [k + 1] decimal digits is written with [k + 1] characters. *)
Lemma pretty_N_go_digits (k : nat) : ∀ x s,
  (10 ^ N.of_nat k ≤ x < 10 ^ N.of_nat (S k))%N →
  String.length (pretty_N_go x s) = (String.length s + S k)%nat.
Proof.
  induction k as [|k IH]; intros x s Hx.
  - change (10 ^ N.of_nat 0)%N with 1%N in Hx.
    change (10 ^ N.of_nat 1)%N with 10%N in Hx.
    rewrite pretty_N_go_step by lia.
    replace (x `div` 10)%N with 0%N by (symmetry; apply N.div_small; lia).
    rewrite pretty_N_go_0. simpl. lia.
  - rewrite pretty_N_go_step.
    2:{ assert (0 < 10 ^ N.of_nat (S k))%N
          by (apply N.neq_0_lt_0, N.pow_nonzero; lia).
        lia. }
    rewrite IH.
    + simpl. lia.
    + rewrite !Nat2N.inj_succ, !N.pow_succ_r' in Hx.
      rewrite Nat2N.inj_succ, N.pow_succ_r'.
      split.
      * apply N.div_le_lower_bound; lia.
      * apply N.Div0.div_lt_upper_bound. lia.
Qed.

(** The times from 9 September 2001 to 20 November 2286 have thirteen
    digits. *)
Lemma toString_length_13 (n : Z) :
  10 ^ 12 ≤ n < 10 ^ 13 → String.length (toString n) = 13%nat.
Proof.
  intros Hn. destruct n as [|p|p]; try lia.
  unfold toString, pretty, pretty_Z, pretty, pretty_positive, pretty, pretty_N.
  rewrite decide_False by done.
  rewrite (pretty_N_go_digits 12); [done|].
  change (10 ^ N.of_nat 12)%N with (Z.to_N (10 ^ 12)).
  change (10 ^ N.of_nat 13)%N with (Z.to_N (10 ^ 13)). lia.
Qed.

End DecimalStrings.

(** ** The conversation store on localStorage *)

Module LocalStorageFacts.
Import LocalStorage.

Section Facts.

Variable toLocaleString : Z → string.

Lemma saveConversations_accepted cs w :
  accepts (store w) cs = true →
  saveConversations cs w =
    (Normal (),
     {| store := {| conversations_v1 := Some (ArrayOf cs);
                    chat_history_v1 := chat_history_v1 (store w);
                    migration_done := migration_done (store w);
                    accepts := accepts (store w);
                    accepts_flag := accepts_flag (store w) |};
        console := console w |}).
Proof.
  intros H. unfold saveConversations, setItem_conversations. by rewrite H.
Qed.

Lemma saveConversations_refused cs w :
  accepts (store w) cs = false →
  saveConversations cs w =
    (Normal (), warn "Conversations 저장 실패" QuotaExceededError w).
Proof.
  intros H. unfold saveConversations, setItem_conversations. by rewrite H.
Qed.

(** A list under the conversations key is returned as it is, whatever the
    legacy key holds, and nothing is written. *)
Lemma loadConversations_current now w cs :
  conversations_v1 (store w) = Some (ArrayOf cs) →
  loadConversations toLocaleString now w = (Normal cs, w).
Proof.
  intros H. unfold loadConversations, loadConversations_try. by rewrite H.
Qed.

Lemma loadConversations_migrates now w msgs :
  let c := migratedConversation ("대화 " +:+ toLocaleString now) now msgs in
  conversations_v1 (store w) = None →
  chat_history_v1 (store w) = Some (ArrayOf msgs) →
  accepts (store w) [c] = true →
  loadConversations toLocaleString now w =
    (Normal [c],
     {| store := {| conversations_v1 := Some (ArrayOf [c]);
                    chat_history_v1 := None;
                    migration_done := migration_done (store w);
                    accepts := accepts (store w);
                    accepts_flag := accepts_flag (store w) |};
        console := console w |}).
Proof.
  intros c Hc Ho Ha. unfold loadConversations, loadConversations_try.
  rewrite Hc, Ho. cbn [truthy JSON_parse orEmpty].
  fold (migratedConversation ("대화 " +:+ toLocaleString now) now msgs). fold c.
  rewrite (saveConversations_accepted _ _ Ha). reflexivity.
Qed.

(** A legacy item that is the JSON text of null (or of another falsy value
    that is no array) is migrated as an empty history: no user message is
    found, so the title is the fallback. *)
Lemma loadConversations_migrates_falsy now w :
  let c := migratedConversation ("대화 " +:+ toLocaleString now) now [] in
  conversations_v1 (store w) = None →
  chat_history_v1 (store w) = Some FalsyText →
  accepts (store w) [c] = true →
  title c = "대화 " +:+ toLocaleString now ∧
  loadConversations toLocaleString now w =
    (Normal [c],
     {| store := {| conversations_v1 := Some (ArrayOf [c]);
                    chat_history_v1 := None;
                    migration_done := migration_done (store w);
                    accepts := accepts (store w);
                    accepts_flag := accepts_flag (store w) |};
        console := console w |}).
Proof.
  intros c Hc Ho Ha. split; [done|].
  unfold loadConversations, loadConversations_try.
  rewrite Hc, Ho. cbn [truthy JSON_parse orEmpty].
  fold (migratedConversation ("대화 " +:+ toLocaleString now) now []). fold c.
  rewrite (saveConversations_accepted _ _ Ha). reflexivity.
Qed.

(** A legacy item that is the JSON text of an object, or of another truthy
    value without [find], is not migrated: the try block throws, the load
    warns and returns the empty list, and the store stays as it is. *)
Lemma loadConversations_legacy_object now w :
  conversations_v1 (store w) = None →
  chat_history_v1 (store w) = Some ObjectText →
  loadConversations toLocaleString now w =
    (Normal [], warn "Conversations 로드 실패" TypeError w).
Proof.
  intros Hc Ho. unfold loadConversations, loadConversations_try.
  by rewrite Hc, Ho.
Qed.


(** C6.  Round trip: when the browser accepts the write of a list of
    conversations, loading after saving returns that very list - the same
    records with the same fields, none dropped and none duplicated, so in
    particular a list set-equal to the one saved - and loading writes
    nothing. *)
Theorem save_load_round_trip now (C : list Conversation) (w : world) :
  accepts (store w) C = true →
  let w1 := (saveConversations C w).2 in
  loadConversations toLocaleString now w1 = (Normal C, w1).
Proof.
  intros Ha w1.
  apply loadConversations_current. subst w1.
  by rewrite (saveConversations_accepted _ _ Ha).
Qed.

End Facts.

(** Two conversations saved on an empty store, oldest first, and loaded. *)
Lemma save_load_round_trip_witness :
  let w := {| store := emptyStorage; console := [] |} in
  loadConversations (λ _, "") 0 (saveConversations [older; newer] w).2
    = (Normal [older; newer], (saveConversations [older; newer] w).2).
Proof.
  intros w.
  apply (save_load_round_trip (λ _, "") 0 [older; newer] w). reflexivity.
Defined.

End LocalStorageFacts.

(** ** The storage functions of the static script *)

Module ScriptFacts.
Import Script.

Section Facts.

Variable dateToLocaleString : string → string.

Lemma script_saveConversations_accepted s :
  accepts (store s) (conversations s) = true →
  saveConversations s =
    put {| conversations_v1 := Some (ArrayOf (conversations s));
           chat_history_v1 := chat_history_v1 (store s);
           migration_done := migration_done (store s);
           accepts := accepts (store s);
           accepts_flag := accepts_flag (store s) |} s.
Proof.
  intros H. unfold saveConversations, setItem_conversations. by rewrite H.
Qed.

(** With a list under the conversations key the script takes it as its
    list and touches nothing else. *)
Lemma script_loadConversations_current now s cs :
  conversations_v1 (store s) = Some (ArrayOf cs) →
  loadConversations dateToLocaleString now s = set_conversations cs s.
Proof.
  intros H. unfold loadConversations, loadConversations_try. by rewrite H.
Qed.

Lemma script_loadConversations_migrates now s msgs :
  let c := migratedConversation
             ("대화 " +:+ dateToLocaleString (toString now)) now msgs in
  conversations_v1 (store s) = None →
  chat_history_v1 (store s) = Some (ArrayOf msgs) →
  accepts (store s) [c] = true →
  loadConversations dateToLocaleString now s =
    {| chatContext := chatContext s;
       conversations := [c];
       currentConversationId := currentConversationId s;
       store := {| conversations_v1 := Some (ArrayOf [c]);
                   chat_history_v1 := None;
                   migration_done := migration_done (store s);
                   accepts := accepts (store s);
                   accepts_flag := accepts_flag (store s) |};
       console := console s |}.
Proof.
  intros c Hc Ho Ha. unfold loadConversations, loadConversations_try.
  rewrite Hc, Ho. cbn [truthy JSON_parse orEmpty].
  fold (migratedConversation
          ("대화 " +:+ dateToLocaleString (toString now)) now msgs). fold c.
  rewrite script_saveConversations_accepted by done. reflexivity.
Qed.

End Facts.

End ScriptFacts.

(** ** Migration of the legacy record *)

(** *** The title of the migrated conversation *)

Section Title.

Lemma firstUser_first pre m post :
  Forall (λ x, role x ≠ User) pre → role m = User →
  firstUser (pre ++ m :: post) = Some m.
Proof.
  intros Hpre Hm. unfold firstUser.
  induction Hpre as [|x pre Hx _ IH]; cbn [app List.find].
  - by rewrite bool_decide_eq_true_2.
  - by rewrite bool_decide_eq_false_2.
Qed.

Lemma firstUser_none msgs :
  Forall (λ x, role x ≠ User) msgs → firstUser msgs = None.
Proof.
  unfold firstUser. induction 1 as [|x msgs Hx _ IH]; cbn [List.find]; [done|].
  by rewrite bool_decide_eq_false_2.
Qed.

(** The first text part of the first user message, when it is not empty. *)
Lemma firstUserText_first pre m post p ps :
  Forall (λ x, role x ≠ User) pre → role m = User →
  parts m = p :: ps → text p ≠ "" →
  firstUserText (pre ++ m :: post) = Some (text p).
Proof.
  intros Hpre Hm Hp Ht. unfold firstUserText.
  rewrite (firstUser_first pre m post Hpre Hm), Hp.
  by rewrite bool_decide_eq_false_2.
Qed.

(** No user message, or a first user message without a part, or with a first
    part whose text is empty. *)
Lemma firstUserText_none msgs :
  Forall (λ x, role x ≠ User) msgs ∨
  (∃ pre m post,
     msgs = pre ++ m :: post ∧ Forall (λ x, role x ≠ User) pre ∧ role m = User ∧
     (parts m = [] ∨ ∃ p ps, parts m = p :: ps ∧ text p = "")) →
  firstUserText msgs = None.
Proof.
  unfold firstUserText.
  intros [H|(pre & m & post & -> & Hpre & Hm & Hp)].
  - by rewrite firstUser_none.
  - rewrite (firstUser_first pre m post Hpre Hm).
    destruct Hp as [->|(p & ps & -> & Ht)]; [done|].
    by rewrite bool_decide_eq_true_2.
Qed.

End Title.

Module MigrationFacts.

(** C4.  Migration happens once.  From a store that holds only a legacy
    record (an array of messages under the legacy key, nothing under the
    conversations key) and accepts the write, the first load returns a list
    of one conversation made of the legacy messages: its id and createdAt
    are the decimal time, its messages the legacy messages, and its title is
    the text of the first part of the first message of role user, when that
    message has a first part and its text is not empty; when there is no
    user message, or the first one has no part or an empty first text, the
    title is the generated fallback, the word for conversation followed by
    the time in the browser's format.  The first load leaves that list under
    the conversations key and removes the legacy key; the second load, at
    whatever time, returns the same list and changes nothing.  And a load
    that finds a list under the conversations key, be it empty, returns it
    and leaves the store as it is whatever the legacy key holds.  This holds
    for [loadConversations] of [utils/localStorage.ts], and for the one of
    the static script, which keeps the list in its module variable. *)
Theorem migration_runs_once
    (toLocaleString : Z → string) (dateToLocaleString : string → string)
    (now now' : Z) (msgs : list Message)
    (w : LocalStorage.world) (s : Script.state) :
  let c := migratedConversation ("대화 " +:+ toLocaleString now) now msgs in
  let c' := migratedConversation
              ("대화 " +:+ dateToLocaleString (toString now)) now msgs in
  conversations_v1 (LocalStorage.store w) = None →
  chat_history_v1 (LocalStorage.store w) = Some (ArrayOf msgs) →
  accepts (LocalStorage.store w) [c] = true →
  conversations_v1 (Script.store s) = None →
  chat_history_v1 (Script.store s) = Some (ArrayOf msgs) →
  accepts (Script.store s) [c'] = true →
  (* the migrated conversation *)
  (id c = toString now ∧ createdAt c = toString now ∧ messages c = msgs ∧
   id c' = toString now ∧ createdAt c' = toString now ∧ messages c' = msgs) ∧
  (∀ pre m post p ps,
     msgs = pre ++ m :: post →
     Forall (λ x, role x ≠ User) pre → role m = User →
     parts m = p :: ps → text p ≠ "" →
     title c = text p ∧ title c' = text p) ∧
  (Forall (λ x, role x ≠ User) msgs ∨
   (∃ pre m post,
      msgs = pre ++ m :: post ∧
      Forall (λ x, role x ≠ User) pre ∧ role m = User ∧
      (parts m = [] ∨ ∃ p ps, parts m = p :: ps ∧ text p = "")) →
   title c = "대화 " +:+ toLocaleString now ∧
   title c' = "대화 " +:+ dateToLocaleString (toString now)) ∧
  (* utils/localStorage.ts *)
  (∃ w1,
     LocalStorage.loadConversations toLocaleString now w = (Normal [c], w1) ∧
     conversations_v1 (LocalStorage.store w1) = Some (ArrayOf [c]) ∧
     chat_history_v1 (LocalStorage.store w1) = None ∧
     LocalStorage.loadConversations toLocaleString now' w1 = (Normal [c], w1)) ∧
  (∀ t w0 cs,
     conversations_v1 (LocalStorage.store w0) = Some (ArrayOf cs) →
     LocalStorage.loadConversations toLocaleString t w0 = (Normal cs, w0)) ∧
  (* the static script *)
  (let s1 := Script.loadConversations dateToLocaleString now s in
   Script.conversations s1 = [c'] ∧
   conversations_v1 (Script.store s1) = Some (ArrayOf [c']) ∧
   chat_history_v1 (Script.store s1) = None ∧
   Script.loadConversations dateToLocaleString now' s1 = s1) ∧
  (∀ t s0 cs,
     conversations_v1 (Script.store s0) = Some (ArrayOf cs) →
     Script.loadConversations dateToLocaleString t s0 =
       Script.set_conversations cs s0).
Proof.
  intros c c' Hc Ho Ha Hc' Ho' Ha'.
  split; [done|]. split; [|split]; [| |split; [|split; [|split]]].
  - intros pre m post p ps -> Hpre Hm Hp Ht. subst c c'.
    unfold migratedConversation. cbn [title].
    by rewrite (firstUserText_first pre m post p ps).
  - intros H. subst c c'. unfold migratedConversation. cbn [title].
    by rewrite (firstUserText_none msgs H).
  - eexists. split;
      [by apply (LocalStorageFacts.loadConversations_migrates toLocaleString now w msgs)|].
    split; [done|]. split; [done|].
    by apply LocalStorageFacts.loadConversations_current.
  - intros t w0 cs H. by apply LocalStorageFacts.loadConversations_current.
  - cbv zeta.
    rewrite (ScriptFacts.script_loadConversations_migrates _ now s msgs) by done.
    split; [done|]. split; [done|]. split; [done|].
    by rewrite (ScriptFacts.script_loadConversations_current _ _ _ [c']).
  - intros t s0 cs H. by apply ScriptFacts.script_loadConversations_current.
Qed.

(** A legacy history that starts with a greeting of the model, migrated at
    the time 1700000000000 by both versions: the title is the first question
    of the user. *)
Lemma migration_runs_once_witness :
  let msgs := [textMsg Model "welcome"; textMsg User "what is a container";
               textMsg Model "a process"; textMsg User "thanks"] in
  let ls := {| conversations_v1 := None; chat_history_v1 := Some (ArrayOf msgs);
               migration_done := None; accepts := λ _, true;
               accepts_flag := true |} in
  let w := {| LocalStorage.store := ls; LocalStorage.console := [] |} in
  let s := {| Script.chatContext := []; Script.conversations := [];
              Script.currentConversationId := None; Script.store := ls;
              Script.console := [] |} in
  let c := {| id := "1700000000000"; title := "what is a container";
              messages := msgs; createdAt := "1700000000000" |} in
  ∃ w1,
    LocalStorage.loadConversations (λ _, "") 1700000000000 w = (Normal [c], w1) ∧
    LocalStorage.loadConversations (λ _, "") 1700000000001 w1 = (Normal [c], w1) ∧
    Script.conversations (Script.loadConversations (λ _, "") 1700000000000 s) = [c].
Proof.
  intros msgs ls w s c.
  destruct (migration_runs_once (λ _, "") (λ _, "") 1700000000000 1700000000001
              msgs w s)
    as (_ & _ & _ & (w1 & H1 & _ & _ & H2) & _ & (H3 & _) & _).
  - reflexivity.
  - reflexivity.
  - reflexivity.
  - reflexivity.
  - reflexivity.
  - reflexivity.
  - exists w1. split; [exact H1|]. split; [exact H2 | exact H3].
Defined.

End MigrationFacts.

(** ** The order of a loaded list, and failures of the store *)

Module StoreFacts.

Section Facts.

Variable toLocaleString : Z → string.

Lemma indexedDB_load_sorted now (w : IndexedDB.world) :
  ∃ l, (IndexedDB.loadConversations toLocaleString now w).1 = Normal l ∧
       StronglySorted createdAt_ge l.
Proof.
  unfold IndexedDB.loadConversations, IndexedDB.orderBy_createdAt_reverse_toArray.
  destruct (IndexedDB.opened _).
  - eexists. split; [done|]. apply IndexedDBFacts.orderBy_reverse_sorted.
  - exists []. split; [done|]. constructor.
Qed.

Lemma indexedDB_migrated_skip now (w : IndexedDB.world) :
  IndexedDB.migrated (IndexedDB.store w) = true →
  IndexedDB.migrateFromLocalStorage toLocaleString now w = w.
Proof. intros H. unfold IndexedDB.migrateFromLocalStorage. by rewrite H. Qed.

Lemma indexedDB_save_load now cs (w : IndexedDB.world) :
  IndexedDB.migrated (IndexedDB.store w) = true →
  IndexedDB.opened (IndexedDB.db w) = true →
  NoDup (id <$> cs) →
  ∃ w1 l,
    IndexedDB.saveConversations toLocaleString now cs w = (Normal (), w1) ∧
    (IndexedDB.loadConversations toLocaleString now w1).1 = Normal l ∧
    l ≡ₚ cs ∧ StronglySorted createdAt_ge l.
Proof.
  intros Hm Ho Hnd.
  unfold IndexedDB.saveConversations.
  rewrite indexedDB_migrated_skip by done.
  unfold IndexedDB.clear. rewrite Ho.
  unfold IndexedDB.bulkAdd. cbn [IndexedDB.opened IndexedDB.rows].
  destruct (IndexedDBFacts.foldl_add_fresh cs ∅ 0%nat Hnd) as (m' & -> & Hp).
  { intros c _. apply lookup_empty. }
  rewrite bool_decide_eq_true_2 by done.
  eexists _, _. split; [done|].
  unfold IndexedDB.loadConversations.
  rewrite indexedDB_migrated_skip by done.
  unfold IndexedDB.orderBy_createdAt_reverse_toArray. cbn.
  split; [done|]. split.
  - rewrite IndexedDBFacts.orderBy_reverse_Permutation. cbn.
    rewrite Hp, map_to_list_empty, app_nil_r, <- list_fmap_compose.
    clear. induction cs; simpl; [done|]. by f_equiv.
  - apply IndexedDBFacts.orderBy_reverse_sorted.
Qed.

(** C5, as the code has it.  [loadConversations] of [utils/localStorage.ts]
    returns the stored list in the order it was written, without sorting it.
    The one of [utils/indexedDBStorage.ts] returns, from every state, a list
    in descending order of [createdAt], the values compared as IndexedDB
    compares keys that are strings, by their UTF-16 code units; and on a
    database that opens and is migrated, after saving conversations of
    distinct ids in any order it returns exactly those conversations, most
    recent first.  In that order a conversation created at a later time
    comes before one created earlier, for times that are positive and have
    the same number of decimal digits; and a [createdAt] of U+FF5E, one code
    unit, comes before one of U+1F600, a surrogate pair, although its UTF-8
    bytes are the smaller. *)
Theorem load_order now (cs : list Conversation)
    (w : LocalStorage.world) (w' : IndexedDB.world) :
  conversations_v1 (LocalStorage.store w) = Some (ArrayOf cs) →
  IndexedDB.migrated (IndexedDB.store w') = true →
  IndexedDB.opened (IndexedDB.db w') = true →
  NoDup (id <$> cs) →
  LocalStorage.loadConversations toLocaleString now w = (Normal cs, w) ∧
  (∀ t w0, ∃ l,
     (IndexedDB.loadConversations toLocaleString t w0).1 = Normal l ∧
     StronglySorted createdAt_ge l) ∧
  (∃ w1 l,
     IndexedDB.saveConversations toLocaleString now cs w' = (Normal (), w1) ∧
     (IndexedDB.loadConversations toLocaleString now w1).1 = Normal l ∧
     l ≡ₚ cs ∧ StronglySorted createdAt_ge l) ∧
  (* the order *)
  (∀ (a b : Conversation) (n m : Z),
     createdAt a = toString n → createdAt b = toString m →
     0 < n → 0 < m →
     String.length (toString n) = String.length (toString m) →
     (createdAt_ge a b ↔ m ≤ n)) ∧
  (∀ a b : Conversation,
     createdAt a = "～" → createdAt b = "😀" →
     createdAt_ge a b ∧ ¬ createdAt_ge b a).
Proof.
  intros Hc Hm Ho Hnd. split; [|split; [|split; [|split]]].
  - by apply LocalStorageFacts.loadConversations_current.
  - intros t w0. apply indexedDB_load_sorted.
  - by apply indexedDB_save_load.
  - apply createdAt_ge_times.
  - intros a b Ha Hb. unfold createdAt_ge. rewrite Ha, Hb.
    split; [vm_compute; reflexivity|]. vm_compute. discriminate.
Qed.

End Facts.

Lemma load_order_witness :
  let w := (LocalStorage.saveConversations [older; newer]
              {| LocalStorage.store := emptyStorage; LocalStorage.console := [] |}).2 in
  let w' := {| IndexedDB.store :=
                 {| conversations_v1 := None; chat_history_v1 := None;
                    migration_done := Some "true"; accepts := λ _, true;
                    accepts_flag := true |};
               IndexedDB.db := {| IndexedDB.rows := ∅; IndexedDB.opened := true |};
               IndexedDB.console := [] |} in
  LocalStorage.loadConversations (λ _, "") 0 w = (Normal [older; newer], w) ∧
  ∃ w1,
    IndexedDB.saveConversations (λ _, "") 0 [older; newer] w' = (Normal (), w1) ∧
    (IndexedDB.loadConversations (λ _, "") 0 w1).1 = Normal [newer; older] ∧
    StronglySorted createdAt_ge [newer; older].
Proof.
  intros w w'.
  destruct (load_order (λ _, "") 0 [older; newer] w w')
    as (H1 & _ & (w1 & l & Hs & Hl & _ & Hsorted) & _).
  - reflexivity.
  - reflexivity.
  - reflexivity.
  - apply (bool_decide_unpack _). by vm_compute.
  - split; [exact H1|]. exists w1. split; [exact Hs|].
    assert ((IndexedDB.loadConversations (λ _, "") 0
               (IndexedDB.saveConversations (λ _, "") 0 [older; newer] w').2).1
            = Normal [newer; older]) as E by (vm_compute; reflexivity).
    rewrite Hs in E. cbn [snd] in E. rewrite Hl in E. injection E as ->.
    split; [exact Hl | exact Hsorted].
Defined.

(** C5, as stated, fails on [utils/localStorage.ts]: two conversations saved
    oldest first are loaded oldest first, which is not the descending order
    of [createdAt]. *)
Lemma load_order_counterexample :
  let w := (LocalStorage.saveConversations [older; newer]
              {| LocalStorage.store := emptyStorage; LocalStorage.console := [] |}).2 in
  ∃ l, (LocalStorage.loadConversations (λ _, "") 0 w).1 = Normal l ∧
       ¬ StronglySorted createdAt_ge l.
Proof.
  exists [older; newer]. split; [reflexivity|].
  intros H. apply StronglySorted_inv in H as [_ H].
  apply Forall_inv in H. vm_compute in H. discriminate.
Qed.

(** The order is that of the code units also beyond ASCII: of two
    conversations created at U+1F600 and at U+FF5E, saved in this order, the
    second is loaded first, its code unit 0xFF5E being above the surrogate
    0xD83D. *)
Lemma indexedDB_load_code_units :
  let a := {| id := "a"; title := "first"; messages := []; createdAt := "😀" |} in
  let b := {| id := "b"; title := "second"; messages := []; createdAt := "～" |} in
  let w' := {| IndexedDB.store :=
                 {| conversations_v1 := None; chat_history_v1 := None;
                    migration_done := Some "true"; accepts := λ _, true;
                    accepts_flag := true |};
               IndexedDB.db := {| IndexedDB.rows := ∅; IndexedDB.opened := true |};
               IndexedDB.console := [] |} in
  ∃ w1,
    IndexedDB.saveConversations (λ _, "") 0 [a; b] w' = (Normal (), w1) ∧
    (IndexedDB.loadConversations (λ _, "") 0 w1).1 = Normal [b; a].
Proof.
  intros a b w'. eexists. split; [vm_compute; reflexivity|].
  vm_compute. reflexivity.
Qed.

Section Failures.

Variable toLocaleString : Z → string.



End Failures.



(** What the amended C9 leaves out: when the write of the migrated list is
    refused, [loadConversations] still removes the legacy record, so the
    legacy history is in the store no more, in neither form. *)
Lemma migration_loses_history_when_refused :
  let msgs := [textMsg User "hello"; textMsg Model "hi"] in
  let w := {| LocalStorage.store :=
                {| conversations_v1 := None;
                   chat_history_v1 := Some (ArrayOf msgs);
                   migration_done := None; accepts := λ _, false;
                   accepts_flag := false |};
              LocalStorage.console := [] |} in
  let w1 := (LocalStorage.loadConversations (λ _, "") 1700000000000 w).2 in
  conversations_v1 (LocalStorage.store w1) = None ∧
  chat_history_v1 (LocalStorage.store w1) = None ∧
  (LocalStorage.loadConversations (λ _, "") 1700000000001 w1).1 = Normal [].
Proof. repeat split. Qed.

(** And on IndexedDB a save that fails after its [clear] has lost what was
    stored: saving a list with one id twice keeps only its first record. *)
Lemma indexedDB_save_not_atomic :
  let w := {| IndexedDB.store :=
                {| conversations_v1 := None; chat_history_v1 := None;
                   migration_done := Some "true"; accepts := λ _, true;
                   accepts_flag := true |};
              IndexedDB.db := {| IndexedDB.rows := {[ id older := older ]};
                                 IndexedDB.opened := true |};
              IndexedDB.console := [] |} in
  let r := IndexedDB.saveConversations (λ _, "") 0 [newer; newer] w in
  r.1 = Throw ConstraintError ∧
  IndexedDB.rows (IndexedDB.db r.2) = {[ id newer := newer ]}.
Proof.
  cbv zeta. unfold IndexedDB.saveConversations, IndexedDB.migrateFromLocalStorage.
  cbn [IndexedDB.migrated IndexedDB.store migration_done bool_decide negb
       IndexedDB.db IndexedDB.clear IndexedDB.opened IndexedDB.bulkAdd
       IndexedDB.rows foldl].
  rewrite bool_decide_eq_false_2 by discriminate.
  cbn [negb IndexedDB.db IndexedDB.clear IndexedDB.opened IndexedDB.bulkAdd
       IndexedDB.rows foldl].
  unfold IndexedDB.add at 2. cbn [fst snd]. rewrite lookup_empty.
  unfold IndexedDB.add. cbn [fst snd]. rewrite lookup_insert_eq.
  split; reflexivity.
Qed.

End StoreFacts.

(** ** The task poller *)

Module PollerFacts.

Lemma run_end {S} (step : S → outcome S) n : ∀ s,
  run step (Datatypes.S n) s =
    match run step n s with
    | Running s' => step s'
    | o => o
    end.
Proof.
  induction n as [|n IH]; intros s.
  - simpl. by destruct (step s).
  - change (run step (Datatypes.S (Datatypes.S n)) s)
      with (match step s with
            | Running s' => run step (Datatypes.S n) s'
            | o => o
            end).
    destruct (step s) as [s'| |] eqn:E; simpl; rewrite ?E; try done.
    rewrite <- IH. reflexivity.
Qed.

Lemma run_stable {S} (step : S → outcome S) n m s :
  (n ≤ m)%nat →
  (∀ s', run step n s ≠ Running s') →
  run step m s = run step n s.
Proof.
  intros Hle Hfin. induction Hle as [|m Hle IH]; [done|].
  rewrite run_end, IH. destruct (run step n s); [by destruct (Hfin s0)|done..].
Qed.

Section ReactClient.
Import ApiService.

Variable env : nat → exchange.
Variable now : Z.
Hypothesis Henv : never_terminal env.

Lemma step_looping n s :
  looping now n s →
  (∃ s', step env s = Running s' ∧ looping now (S n) s' ∧
         clock s + latency (env n) - now ≤ maxTimeout) ∨
  (∃ s', step env s = Thrown (Error "Polling timeout") s' ∧ timed_out env now s').
Proof.
  intros (Hs & Hr & Hi & Hc & Hd).
  destruct (Henv n) as (Hl & info & Ha & Ht).
  unfold step. rewrite Hr, Ha. cbn [requests delivered interval start clock].
  rewrite Ht.
  destruct (Z.ltb_spec maxTimeout (clock s + latency (env n) - start s)) as [Hto|Hto].
  - right. unfold handler. rewrite bool_decide_eq_false_2 by done.
    eexists. split; [done|]. exists (delivered s), info.
    cbn. rewrite <- app_assoc. repeat split; try done.
    + apply Forall_app. split; [done|]. by repeat constructor.
    + lia.
    + replace (n - 0)%nat with n by lia. done.
  - left. eexists. split; [done|]. unfold looping, maxInterval. cbn.
    rewrite Hs in Hto. split; [|done].
    split; [done|]. split; [done|]. split; [lia|]. split; [lia|].
    apply Forall_app. split; [done|]. by repeat constructor.
Qed.

Lemma run_looping n :
  (∃ s, pollUploadStatus env now n = Running s ∧ looping now n s) ∨
  (∃ s, pollUploadStatus env now n = Thrown (Error "Polling timeout") s ∧ timed_out env now s).
Proof.
  unfold pollUploadStatus. induction n as [|n IH].
  - left. eexists. split; [done|]. unfold looping, init. cbn.
    repeat split; try done; lia.
  - rewrite run_end. destruct IH as [(s & -> & Hl)|(s & -> & Ht)].
    + destruct (step_looping n s Hl) as [(s' & -> & Hl' & _)|(s' & -> & Ht)];
        [left|right]; eauto.
    + right. eauto.
Qed.

(** On an endpoint that never gives a terminal status the React client's
    poller ends: it rejects with the timeout error, having delivered the
    answers received and then, once, the timeout status built from the last
    of them, more than twenty minutes after it started. *)
Lemma react_poller_times_out :
  ∃ turns s,
    pollUploadStatus env now turns = Thrown (Error "Polling timeout") s ∧
    timed_out env now s.
Proof.
  exists 602%nat.
  destruct (run_looping 601) as [(s & Hr & Hl)|(s & Hr & Ht)].
  - unfold pollUploadStatus in *. rewrite run_end, Hr.
    destruct (step_looping 601 s Hl) as [(s' & _ & _ & Hc)|(s' & -> & Ht)].
    + destruct Hl as (_ & _ & _ & Hc' & _). destruct (Henv 601%nat) as [? _].
      unfold maxTimeout in Hc. lia.
    + eauto.
  - exists s. split; [|done]. unfold pollUploadStatus in *.
    rewrite (run_stable _ 601 602); [done|lia|]. intros s'. by rewrite Hr.
Qed.

End ReactClient.

Section StaticScript.
Import Script.

Variable env : nat → exchange.
Variable now : Z.





(** On an endpoint that never gives a terminal status the script's poller
    never resolves and never rejects: the timeout error it throws is caught
    by its own handler as the first failure in a row, and polling goes on. *)
Lemma script_poller_never_ends :
  never_terminal env →
  ∀ turns, ∃ s, pollUploadStatus env now turns = Running s.
Proof.
  intros Henv turns. unfold pollUploadStatus.
  induction turns as [|n [s IH]]; [by eexists|].
  rewrite run_end, IH.
  destruct (Henv (requests s)) as (_ & info & Ha & Ht).
  unfold step. rewrite Ha, Ht. cbn.
  destruct (_ <? _); [|by eexists].
  unfold handler. cbn. by eexists.
Qed.

End StaticScript.






Lemma stuck_never_terminal : never_terminal stuck.
Proof. intros n. split; [done|]. by exists stuckInfo. Qed.

(** The poller of the React client does time out.  On an endpoint that
    never gives a terminal status the session ends by rejecting with the
    timeout error; the timeout status, built from the last answer, is the
    last status delivered and the only terminal one; and the clock is then
    more than twenty minutes past the start. *)
Lemma react_poller_timeout (env : nat → exchange) (now : Z) :
  never_terminal env →
  ∃ turns s infos info,
    ApiService.pollUploadStatus env now turns = Thrown (Error "Polling timeout") s ∧
    ApiService.delivered s = infos ++ [info; timeoutInfo info] ∧
    Forall (λ i, terminal i = false) (infos ++ [info]) ∧
    timeoutInfo info =
      {| status := Failed; message := Some "타임아웃";
         progress := Some (progress_or_0 info) |} ∧
    maxTimeout < ApiService.clock s - now.
Proof.
  intros Henv.
  destruct (react_poller_times_out env now Henv)
    as (turns & s & Hr & infos & info & Hd & Hf & _ & _ & Hs & Hc).
  exists turns, s, infos, info. rewrite Hs in Hc. done.
Qed.

(** C8 fails on the script's poller, whose handler catches the timeout error
    as a failed request.  With an endpoint that answers "processing" for ever
    the session never ends, whatever the number of turns; after 250 turns it
    is still polling, more than twenty minutes past its start, and has
    delivered the timeout status nine times. *)
Theorem script_poller_timeout_is_retried :
  (∀ turns, ∃ s, Script.pollUploadStatus stuck 0 turns = Running s) ∧
  (∃ s, Script.pollUploadStatus stuck 0 250 = Running s ∧
        maxTimeout < Script.clock s - Script.start s ∧
        length (filter (λ i, i = timeoutInfo stuckInfo) (Script.delivered s))
          = 9%nat).
Proof.
  split.
  - apply script_poller_never_ends, stuck_never_terminal.
  - eexists. split; [vm_compute; reflexivity|]. split; vm_compute; reflexivity.
Qed.

End PollerFacts.

(** ** The stream consumer *)

Module StreamFacts.
Import TextDecoder.

(** *** Bit operations as arithmetic *)

Lemma land_low_bits b k :
  0 ≤ k → Z.land b (Z.ones k) = b mod 2 ^ k.
Proof. apply Z.land_ones. Qed.

Lemma lor_shiftl_6 a b :
  0 ≤ b < 64 → Z.lor (Z.shiftl a 6) b = a * 64 + b.
Proof.
  intros Hb.
  assert (Z.land (Z.shiftl a 6) b = 0) as Hdisjoint.
  { apply Z.bits_inj'. intros n Hn. rewrite Z.land_spec, Z.bits_0.
    destruct (Z.lt_ge_cases n 6) as [Hlt|Hge].
    - by rewrite Z.shiftl_spec_low.
    - destruct (Z.eq_dec b 0) as [->|Hnz].
      + by rewrite Z.bits_0, andb_false_r.
      + rewrite (Z.bits_above_log2 b n), andb_false_r; [done|lia|].
        apply Z.lt_le_trans with 6; [|done].
        apply Z.log2_lt_pow2; [lia|]. simpl. lia. }
  pose proof (Z.add_lor_land (Z.shiftl a 6) b) as H.
  rewrite Hdisjoint, Z.add_0_r in H. rewrite H.
  rewrite Z.shiftl_mul_pow2 by lia. reflexivity.
Qed.

(** A continuation byte [128 + r] adds the six bits [r] to the code point. *)
Lemma continuation_bits cp r :
  0 ≤ r < 64 →
  Z.lor (Z.shiftl cp 6) (Z.land (128 + r) 0x3F) = cp * 64 + r.
Proof.
  intros Hr. change 0x3F with (Z.ones 6).
  rewrite land_low_bits by lia. change (2 ^ 6) with 64.
  replace ((128 + r) mod 64) with r.
  - by apply lor_shiftl_6.
  - apply (Z.mod_unique _ _ 2); lia.
Qed.

(** *** The handler on the bytes of one character *)

Lemma lead_1 b : 0 ≤ b ≤ 0x7F → lead b = ([b], idle).
Proof.
  intros Hb. unfold lead.
  rewrite (proj2 (Z.leb_le 0 b)), (proj2 (Z.leb_le b 0x7F)) by lia. done.
Qed.

Lemma lead_2 q : 2 ≤ q ≤ 31 → lead (0xC0 + q) = ([], expect 1 q 0x80 0xBF).
Proof.
  intros Hq. unfold lead.
  rewrite (proj2 (Z.leb_gt (0xC0 + q) 0x7F)), andb_false_r by lia.
  rewrite (proj2 (Z.leb_le 0xC2 (0xC0 + q))), (proj2 (Z.leb_le (0xC0 + q) 0xDF)) by lia.
  cbn [andb]. do 2 f_equal. change 0x1F with (Z.ones 5).
  rewrite land_low_bits by lia. symmetry. apply (Z.mod_unique _ _ 6); lia.
Qed.

Lemma lead_3 q : 0 ≤ q ≤ 15 →
  lead (0xE0 + q) =
    ([], expect 2 q (if q =? 0 then 0xA0 else 0x80) (if q =? 13 then 0x9F else 0xBF)).
Proof.
  intros Hq. unfold lead.
  rewrite (proj2 (Z.leb_gt (0xE0 + q) 0x7F)), andb_false_r by lia.
  rewrite (proj2 (Z.leb_gt (0xE0 + q) 0xDF)), andb_false_r by lia.
  rewrite (proj2 (Z.leb_le 0xE0 (0xE0 + q))), (proj2 (Z.leb_le (0xE0 + q) 0xEF)) by lia.
  cbn [andb].
  replace (0xE0 + q =? 0xE0) with (q =? 0) by (destruct (Z.eqb_spec q 0); lia).
  replace (0xE0 + q =? 0xED) with (q =? 13) by (destruct (Z.eqb_spec q 13); lia).
  do 2 f_equal. change 0xF with (Z.ones 4).
  rewrite land_low_bits by lia. symmetry. apply (Z.mod_unique _ _ 14); lia.
Qed.

Lemma lead_4 q : 0 ≤ q ≤ 4 →
  lead (0xF0 + q) =
    ([], expect 3 q (if q =? 0 then 0x90 else 0x80) (if q =? 4 then 0x8F else 0xBF)).
Proof.
  intros Hq. unfold lead.
  rewrite (proj2 (Z.leb_gt (0xF0 + q) 0x7F)), andb_false_r by lia.
  rewrite (proj2 (Z.leb_gt (0xF0 + q) 0xDF)), andb_false_r by lia.
  rewrite (proj2 (Z.leb_gt (0xF0 + q) 0xEF)), andb_false_r by lia.
  rewrite (proj2 (Z.leb_le 0xF0 (0xF0 + q))), (proj2 (Z.leb_le (0xF0 + q) 0xF4)) by lia.
  cbn [andb].
  replace (0xF0 + q =? 0xF0) with (q =? 0) by (destruct (Z.eqb_spec q 0); lia).
  replace (0xF0 + q =? 0xF4) with (q =? 4) by (destruct (Z.eqb_spec q 4); lia).
  do 2 f_equal. change 0x7 with (Z.ones 3).
  rewrite land_low_bits by lia. symmetry. apply (Z.mod_unique _ _ 30); lia.
Qed.

(** A continuation byte within the boundaries: the last one of a character
    emits it, an earlier one is recorded. *)
Lemma handler_continue d r :
  bytes_needed d ≠ 0 →
  0 ≤ r < 64 →
  lower_boundary d ≤ 0x80 + r ≤ upper_boundary d →
  handler (0x80 + r) d =
    if bytes_seen d + 1 =? bytes_needed d
    then ([code_point d * 64 + r], idle)
    else ([], {| code_point := code_point d * 64 + r;
                 bytes_seen := bytes_seen d + 1;
                 bytes_needed := bytes_needed d;
                 lower_boundary := 0x80; upper_boundary := 0xBF |}).
Proof.
  intros Hn Hr Hb. unfold handler.
  rewrite (proj2 (Z.eqb_neq _ _) Hn).
  rewrite (proj2 (Z.leb_le (lower_boundary d) (0x80 + r))),
          (proj2 (Z.leb_le (0x80 + r) (upper_boundary d))) by lia.
  cbn [andb negb]. change 0x80 with 128 at 1 2 3. rewrite continuation_bits by done.
  done.
Qed.


Ltac div_mod_lia := Z.div_mod_to_equations; lia.

(** The bytes of one scalar value, from the idle state: they yield that
    value and leave the decoder idle, and no proper prefix of them yields
    anything. *)
Lemma process_character c :
  scalar c →
  process (utf8 c) idle = ([c], idle) ∧
  ∀ n, (n < length (utf8 c))%nat → (process (take n (utf8 c)) idle).1 = [].
Proof.
  intros [Hc Hs]. unfold utf8.
  destruct (Z.ltb_spec c 0x80) as [H1|H1];
    [|destruct (Z.ltb_spec c 0x800) as [H2|H2];
      [|destruct (Z.ltb_spec c 0x10000) as [H3|H3]]].
  - split.
    + cbn [process]. unfold handler. cbn [bytes_needed idle Z.eqb].
      rewrite lead_1 by lia. done.
    + intros [|n] Hn; [done|]. simpl in Hn. lia.
  - assert (2 ≤ c / 64 ≤ 31) as Hq by div_mod_lia.
    assert (0 ≤ c mod 64 < 64) as Hr by div_mod_lia.
    assert (c / 64 * 64 + c mod 64 = c) as Hsum by div_mod_lia.
    assert (handler (0xC0 + c / 64) idle = ([], expect 1 (c / 64) 0x80 0xBF)) as E1.
    { unfold handler. cbn [bytes_needed idle Z.eqb]. by apply lead_2. }
    split.
    + cbn [process]. rewrite E1.
      rewrite handler_continue by (cbn; first [done|lia]).
      cbn. by rewrite Hsum.
    + intros [|[|n]] Hn; [done| |simpl in Hn; lia].
      cbn [take process]. by rewrite E1.
  - set (q1 := c / 4096). set (q2 := (c / 64) mod 64). set (r := c mod 64).
    assert (0 ≤ q1 ≤ 15) as Hq1 by (subst q1; div_mod_lia).
    assert (0 ≤ q2 < 64) as Hq2 by (subst q2; div_mod_lia).
    assert (0 ≤ r < 64) as Hr by (subst r; div_mod_lia).
    assert ((q1 * 64 + q2) * 64 + r = c) as Hsum by (subst q1 q2 r; div_mod_lia).
    assert (handler (0xE0 + q1) idle =
              ([], expect 2 q1 (if q1 =? 0 then 0xA0 else 0x80)
                     (if q1 =? 13 then 0x9F else 0xBF))) as E1.
    { unfold handler. cbn [bytes_needed idle Z.eqb]. by apply lead_3. }
    assert (handler (0x80 + q2)
              (expect 2 q1 (if q1 =? 0 then 0xA0 else 0x80)
                 (if q1 =? 13 then 0x9F else 0xBF)) =
            ([], {| code_point := q1 * 64 + q2; bytes_seen := 1; bytes_needed := 2;
                    lower_boundary := 0x80; upper_boundary := 0xBF |})) as E2.
    { rewrite handler_continue; [done|done|done|]. cbn.
      destruct (Z.eqb_spec q1 0), (Z.eqb_spec q1 13); lia. }
    split.
    + cbn [process]. rewrite E1, E2.
      rewrite handler_continue by (cbn; first [done|lia]).
      cbn. by rewrite Hsum.
    + intros [|[|[|n]]] Hn; [done| | |simpl in Hn; lia].
      * cbn [take process]. by rewrite E1.
      * cbn [take process]. by rewrite E1, E2.
  - set (q0 := c / 262144). set (q1 := (c / 4096) mod 64).
    set (q2 := (c / 64) mod 64). set (r := c mod 64).
    assert (0 ≤ q0 ≤ 4) as Hq0 by (subst q0; div_mod_lia).
    assert (0 ≤ q1 < 64) as Hq1 by (subst q1; div_mod_lia).
    assert (0 ≤ q2 < 64) as Hq2 by (subst q2; div_mod_lia).
    assert (0 ≤ r < 64) as Hr by (subst r; div_mod_lia).
    assert (((q0 * 64 + q1) * 64 + q2) * 64 + r = c) as Hsum
      by (subst q0 q1 q2 r; div_mod_lia).
    assert (handler (0xF0 + q0) idle =
              ([], expect 3 q0 (if q0 =? 0 then 0x90 else 0x80)
                     (if q0 =? 4 then 0x8F else 0xBF))) as E1.
    { unfold handler. cbn [bytes_needed idle Z.eqb]. by apply lead_4. }
    assert (handler (0x80 + q1)
              (expect 3 q0 (if q0 =? 0 then 0x90 else 0x80)
                 (if q0 =? 4 then 0x8F else 0xBF)) =
            ([], {| code_point := q0 * 64 + q1; bytes_seen := 1; bytes_needed := 3;
                    lower_boundary := 0x80; upper_boundary := 0xBF |})) as E2.
    { rewrite handler_continue; [done|done|done|]. cbn.
      destruct (Z.eqb_spec q0 0), (Z.eqb_spec q0 4); lia. }
    assert (handler (0x80 + q2)
              {| code_point := q0 * 64 + q1; bytes_seen := 1; bytes_needed := 3;
                 lower_boundary := 0x80; upper_boundary := 0xBF |} =
            ([], {| code_point := (q0 * 64 + q1) * 64 + q2; bytes_seen := 2;
                    bytes_needed := 3;
                    lower_boundary := 0x80; upper_boundary := 0xBF |})) as E3.
    { rewrite handler_continue; [done|done|done|]. cbn. lia. }
    split.
    + cbn [process]. rewrite E1, E2, E3.
      rewrite handler_continue by (cbn; first [done|lia]).
      cbn. by rewrite Hsum.
    + intros [|[|[|[|n]]]] Hn; [done| | | |simpl in Hn; lia].
      * cbn [take process]. by rewrite E1.
      * cbn [take process]. by rewrite E1, E2.
      * cbn [take process]. by rewrite E1, E2, E3.
Qed.


(** *** Runs of bytes *)

Lemma process_app b1 b2 d :
  process (b1 ++ b2) d =
    ((process b1 d).1 ++ (process b2 (process b1 d).2).1,
     (process b2 (process b1 d).2).2).
Proof.
  revert d. induction b1 as [|b b1 IH]; intros d; simpl.
  - by destruct (process b2 d).
  - destruct (handler b d) as [o d1]. rewrite IH.
    destruct (process b1 d1) as [o1 d2]; simpl.
    destruct (process b2 d2) as [o2 d3]; simpl. by rewrite app_assoc.
Qed.

Lemma process_encoded s :
  Forall scalar s → process (utf8_encode s) idle = (s, idle).
Proof.
  induction 1 as [|c s Hc Hs IH]; [done|].
  unfold utf8_encode in *. rewrite fmap_cons, concat_cons, process_app.
  destruct (process_character c Hc) as [-> _]. simpl. by rewrite IH.
Qed.

(** The first [n] bytes of an encoded text yield its characters that lie
    wholly within them. *)
Lemma process_prefix s : ∀ n,
  Forall scalar s →
  (process (take n (utf8_encode s)) idle).1 = take (whole s n) s.
Proof.
  induction s as [|c s IH]; intros n Hs.
  - unfold utf8_encode. simpl. by rewrite take_nil.
  - apply Forall_cons in Hs as [Hc Hs].
    destruct (process_character c Hc) as [Hfull Hpart].
    unfold utf8_encode in *. rewrite fmap_cons, concat_cons. cbn [whole].
    destruct (Nat.leb_spec (length (utf8 c)) n) as [Hle|Hlt].
    + rewrite take_app_ge by done. rewrite process_app, Hfull. simpl.
      by rewrite IH.
    + rewrite take_app_le by lia. by apply Hpart.
Qed.

(** *** Serializing *)

Lemma serialize_seen items : serialize items true = (utf16 items, true).
Proof.
  induction items as [|c items IH]; [done|].
  cbn [serialize]. rewrite IH. done.
Qed.

Lemma serialize_fresh items :
  serialize items false = (utf16 (strip_BOM items), negb (bool_decide (items = []))).
Proof.
  destruct items as [|c items]; [done|].
  cbn [serialize strip_BOM]. rewrite serialize_seen. cbn [negb andb].
  destruct (c =? 0xFEFF); done.
Qed.

Lemma serialize_app xs ys b :
  serialize (xs ++ ys) b =
    ((serialize xs b).1 ++ (serialize ys (serialize xs b).2).1,
     (serialize ys (serialize xs b).2).2).
Proof.
  revert b. induction xs as [|x xs IH]; intros b.
  - simpl. by destruct (serialize ys b).
  - cbn [app serialize]. rewrite (IH true).
    destruct (serialize xs true) as [o1 b1]; simpl.
    destruct (serialize ys b1) as [o2 b2] eqn:E2; simpl.
    destruct (negb b && (x =? 0xFEFF)); simpl; rewrite ?E2; simpl; [done|].
    by rewrite app_assoc.
Qed.

(** *** The read loop *)

Import StreamConsumer.

(** After the chunks [cs] the decoder is where the bytes received so far
    leave it, and the accumulated text is the serialization of all that they
    yielded. *)
Lemma readAll_state cs :
  let r := readAll cs in
  let p := process (concat cs) idle in
  TextDecoder.decoder (decoder r) = p.2 ∧
  BOM_seen (decoder r) = (serialize p.1 false).2 ∧
  accumulatedText r = (serialize p.1 false).1.
Proof.
  induction cs as [|c cs IH] using rev_ind; [done|].
  unfold readAll in *. rewrite foldl_snoc, concat_app. cbn [concat].
  rewrite app_nil_r, process_app. cbv zeta in IH.
  destruct (foldl read _ cs) as [[u b] a cl]. cbn in IH.
  destruct IH as (-> & -> & ->). unfold read, decode.
  cbn [decoder TextDecoder.decoder BOM_seen accumulatedText].
  destruct (process (concat cs) idle) as [o1 d1]; cbn [fst snd].
  destruct (process c d1) as [o2 d2]; cbn [fst snd].
  rewrite serialize_app.
  destruct (serialize o1 false) as [t1 b1]; cbn [fst snd].
  destruct (serialize o2 b1) as [t2 b2]; cbn [fst snd]. done.
Qed.

Lemma readAll_calls cs :
  calls (readAll cs) =
    (λ i, accumulatedText (readAll (take i cs))) <$> seq 1 (length cs).
Proof.
  induction cs as [|c cs IH] using rev_ind; [done|].
  rewrite length_app, Nat.add_comm. cbn [length].
  rewrite seq_S, fmap_app. cbn [fmap list_fmap].
  rewrite firstn_all2 by (rewrite length_app; simpl; lia).
  assert (calls (readAll (cs ++ [c])) =
          calls (readAll cs) ++ [accumulatedText (readAll (cs ++ [c]))]) as ->.
  { unfold readAll. rewrite foldl_snoc. unfold read.
    by destruct (decode c _). }
  rewrite IH. f_equal.
  apply list_fmap_ext. intros i x Hx.
  apply lookup_seq in Hx as [-> Hi]. by rewrite take_app_le by lia.
Qed.


Lemma concat_take_prefix {A} (l : list (list A)) i :
  concat (take i l) = take (length (concat (take i l))) (concat l).
Proof.
  rewrite <- (take_drop i l) at 3. rewrite concat_app.
  by rewrite take_app_length.
Qed.

Lemma strip_BOM_none s : head s ≠ Some 0xFEFF → strip_BOM s = s.
Proof.
  destruct s as [|c s]; [done|]. simpl. intros H.
  destruct (Z.eqb_spec c 0xFEFF) as [->|]; [by destruct H|done].
Qed.

Lemma readAll_encoded s cs :
  Forall scalar s →
  concat cs = utf8_encode s →
  accumulatedText (readAll cs) = utf16 (strip_BOM s) ∧
  calls (readAll cs) =
    (λ i, utf16 (strip_BOM (take (whole s (length (concat (take i cs)))) s)))
      <$> seq 1 (length cs).
Proof.
  intros Hs Hcs. split.
  - destruct (readAll_state cs) as (_ & _ & ->).
    by rewrite Hcs, process_encoded, serialize_fresh.
  - rewrite readAll_calls. apply list_fmap_ext. intros _ i _.
    destruct (readAll_state (take i cs)) as (_ & _ & ->).
    rewrite serialize_fresh. cbn [fst].
    pose proof (concat_take_prefix cs i) as E.
    remember (length (concat (take i cs))) as n.
    by rewrite E, Hcs, process_prefix.
Qed.

(** C7, as the code has it.  Let the response body be the UTF-8 encoding of
    a text, delivered in chunks that split it anywhere, also within a
    character.  After each chunk the callback gets the whole text decoded so
    far: the characters that lie wholly within the bytes received, as one
    string from the start.  The text returned is the original text, except
    that a byte order mark U+FEFF at its very start is dropped, as the
    decoder does for every stream; so for a text that does not start with
    U+FEFF the returned text is the original one, at every way of splitting.
    The read loop of the script's [sendMessage] does the same. *)
Theorem stream_decoding (s : list Z) (chunks : list (list Z)) :
  Forall scalar s →
  concat chunks = utf8_encode s →
  let resp := {| ok := true;
                 body := Some {| chunks := chunks; failure := None |} |} in
  let snapshots :=
    (λ i, utf16 (strip_BOM (take (whole s (length (concat (take i chunks)))) s)))
      <$> seq 1 (length chunks) in
  streamChatMessage resp = (Normal (utf16 (strip_BOM s)), snapshots) ∧
  sendMessage_read chunks = (utf16 (strip_BOM s), snapshots) ∧
  (head s ≠ Some 0xFEFF → (streamChatMessage resp).1 = Normal (utf16 s)).
Proof.
  intros Hs Hcs resp snapshots.
  destruct (readAll_encoded s chunks Hs Hcs) as [Ha Hc].
  assert (streamChatMessage resp = (Normal (utf16 (strip_BOM s)), snapshots)) as E.
  { unfold streamChatMessage, resp. cbn [ok body StreamConsumer.chunks failure negb].
    by rewrite Ha, Hc. }
  split; [done|]. split.
  - unfold sendMessage_read. by rewrite Ha, Hc.
  - intros Hb. rewrite E. cbn. by rewrite strip_BOM_none.
Qed.

(** The greeting of two Hangul syllables, three bytes each, in chunks that
    cut both. *)
Lemma stream_decoding_witness :
  streamChatMessage
    {| ok := true;
       body := Some {| chunks := [[0xEC; 0x95]; [0x88; 0xEB; 0x85]; [0x95]];
                       failure := None |} |}
  = (Normal [0xC548; 0xB155], [[]; [0xC548]; [0xC548; 0xB155]]).
Proof.
  destruct (stream_decoding [0xC548; 0xB155]
              [[0xEC; 0x95]; [0x88; 0xEB; 0x85]; [0x95]]) as (H & _ & _).
  - repeat constructor; unfold scalar; lia.
  - reflexivity.
  - exact H.
Defined.

(** C7, as stated, fails for a text that starts with U+FEFF: the text
    returned lacks it, whether the encoding is cut inside it or not. *)
Lemma stream_decoding_counterexample :
  let s := [0xFEFF; 0x41] in
  Forall scalar s ∧
  concat [[0xEF; 0xBB]; [0xBF; 0x41]] = utf8_encode s ∧
  (streamChatMessage
     {| ok := true;
        body := Some {| chunks := [[0xEF; 0xBB]; [0xBF; 0x41]];
                        failure := None |} |}).1 = Normal [0x41] ∧
  utf16 s = [0xFEFF; 0x41] ∧
  (streamChatMessage
     {| ok := true;
        body := Some {| chunks := [[0xEF; 0xBB]; [0xBF; 0x41]];
                        failure := None |} |}).1 ≠ Normal (utf16 s).
Proof.
  split; [repeat constructor; unfold scalar; lia|].
  split; [reflexivity|]. split; [reflexivity|]. split; [reflexivity|].
  vm_compute. discriminate.
Qed.

End StreamFacts.

(** ** The Send flow of the React client *)

Module AppFacts.
Import App.

Lemma find_withMessages i ms cs c :
  List.find (λ c, bool_decide (id c = i)) cs = Some c →
  List.find (λ c, bool_decide (id c = i)) (withMessages i ms cs) =
    Some {| id := id c; title := title c; messages := ms; createdAt := createdAt c |}.
Proof.
  induction cs as [|c0 cs IH]; [done|]. simpl.
  destruct (bool_decide (id c0 = i)) eqn:E.
  - intros [= ->]. simpl. by rewrite E.
  - intros H. rewrite E. by apply IH.
Qed.

Lemma persisted_saveConversations cs s :
  accepts (LocalStorage.store (world s)) cs = true →
  persisted (saveConversations cs s) = Some cs.
Proof.
  intros H. unfold persisted, saveConversations. cbn [world].
  by rewrite (LocalStorageFacts.saveConversations_accepted _ _ H).
Qed.

Lemma accepts_saveConversations cs s :
  accepts (LocalStorage.store (world (saveConversations cs s))) =
  accepts (LocalStorage.store (world s)).
Proof.
  unfold saveConversations, LocalStorage.saveConversations, setItem_conversations.
  cbn [world]. by destruct (accepts _ cs).
Qed.

(** *** The active conversation stays in the list *)

Lemma find_filter_other i j (cs : list Conversation) c :
  j ≠ i →
  List.find (λ c, bool_decide (id c = j)) cs = Some c →
  List.find (λ c, bool_decide (id c = j))
    (List.filter (λ c, negb (bool_decide (id c = i))) cs) = Some c.
Proof.
  intros Hne. induction cs as [|c0 cs IH]; [done|]. simpl.
  destruct (bool_decide (id c0 = j)) eqn:Ej.
  - intros [= ->]. apply bool_decide_eq_true in Ej.
    rewrite bool_decide_eq_false_2 by congruence. simpl.
    by rewrite bool_decide_eq_true_2.
  - intros H. destruct (negb (bool_decide (id c0 = i))); [|by apply IH].
    simpl. rewrite Ej. by apply IH.
Qed.

Lemma active_listed_start p : active_listed (startWith p).
Proof. intros i Hi. discriminate. Qed.

Lemma active_listed_handleNewChat s : active_listed (handleNewChat s).
Proof. intros i Hi. discriminate. Qed.

Lemma active_listed_handleOpenConversation i s :
  active_listed s → active_listed (handleOpenConversation i s).
Proof.
  intros Hs. unfold handleOpenConversation.
  destruct (List.find _ (conversations s)) as [c|] eqn:E; [|done].
  intros j [= <-] _. by exists c.
Qed.

Lemma active_listed_handleDeleteConversation i s :
  active_listed s → active_listed (handleDeleteConversation i s).
Proof.
  intros Hs. unfold handleDeleteConversation.
  destruct (List.find _ (conversations s)) as [c|] eqn:E; [|done].
  case_bool_decide as Hi; [intros j Hj; discriminate|].
  intros j Hj Hne. cbn in Hj.
  destruct (Hs j Hj Hne) as [c' Hc']. exists c'. cbn.
  apply find_filter_other; [|done]. intros ->. by rewrite Hj in Hi.
Qed.

Section Send.

Variable trim : string → string.

(** What the first part of [handleSendMessage] leaves, for a prompt that is
    not blank: the flow's context is the buffer plus the user message, the
    buffer is that context plus the loading message, and the flow's list,
    which holds a conversation with the flow's id, is the component's list. *)
Lemma handleSendMessage_begin_spec now s :
  trim (promptValue s) ≠ "" →
  active_listed s →
  ∃ f s1,
    handleSendMessage_begin trim now s = (Some f, s1) ∧
    newContext f = chatContext s ++ [textMsg User (trim (promptValue s))] ∧
    accumulatedText f = "" ∧
    currentConversationId s1 = Some (convId f) ∧
    chatContext s1 = newContext f ++ [loadingMsg] ∧
    conversations s1 = updatedConversations f ∧
    (∃ c, List.find (λ c, bool_decide (id c = convId f)) (updatedConversations f)
            = Some c ∧ messages c = newContext f) ∧
    s1 = saveConversations (updatedConversations f)
           {| conversations := updatedConversations f;
              currentConversationId := Some (convId f);
              chatContext := newContext f ++ [loadingMsg];
              promptValue := "";
              world := world s |}.
Proof.
  intros Ht Hinv. unfold handleSendMessage_begin.
  rewrite bool_decide_eq_false_2 by done.
  cbn [setPromptValue setChatContext currentConversationId chatContext
       conversations].
  destruct (falsy (currentConversationId s)) eqn:Hf.
  - eexists _, _. split; [done|]. cbn.
    rewrite bool_decide_eq_true_2 by done.
    repeat split; try done. eexists. split; done.
  - destruct (currentConversationId s) as [i|] eqn:Hi; [|done].
    cbn [falsy default] in *. apply bool_decide_eq_false in Hf.
    destruct (Hinv i Hi Hf) as [c Hc'].
    eexists _, _. split; [done|]. cbn.
    repeat split; try done.
    + eexists. split; [by apply find_withMessages|done].
    + unfold setConversations, setChatContext, setPromptValue. cbn.
      by rewrite Hi.
Qed.

(** The chunk callbacks write the buffer and nothing else. *)
Lemma onChunks_spec snapshots f s :
  let fs := onChunks snapshots (f, s) in
  convId fs.1 = convId f ∧ newContext fs.1 = newContext f ∧
  updatedConversations fs.1 = updatedConversations f ∧
  accumulatedText fs.1 = List.last snapshots (accumulatedText f) ∧
  world fs.2 = world s ∧ conversations fs.2 = conversations s ∧
  currentConversationId fs.2 = currentConversationId s ∧
  promptValue fs.2 = promptValue s ∧
  chatContext fs.2 =
    match snapshots with
    | [] => chatContext s
    | _ => newContext f ++ [textMsg Model (List.last snapshots (accumulatedText f))]
    end.
Proof.
  unfold onChunks. revert f s.
  induction snapshots as [|chunk snapshots IH] using rev_ind; intros f s; [done|].
  rewrite foldl_snoc, last_last. cbv zeta in IH.
  destruct (IH f s) as (H1 & H2 & H3 & _ & H5 & H6 & H7 & H8 & _).
  destruct (foldl _ (f, s) snapshots) as [f' s']. cbn in *.
  rewrite H1, H2, H3, H5, H6, H7, H8.
  repeat split; try done. by destruct snapshots.
Qed.

(** The end of a flow, from any state: the buffer and the component's list
    are set from the flow's own context and list, and that list is saved. *)
Lemma handleSendMessage_end_spec f s (reply : Message) :
  let final := newContext f ++ [reply] in
  let s' := saveConversations (withMessages (convId f) final (updatedConversations f))
              (setConversations
                 (withMessages (convId f) final (updatedConversations f))
                 (setChatContext final s)) in
  chatContext s' = final ∧
  conversations s' = withMessages (convId f) final (updatedConversations f) ∧
  currentConversationId s' = currentConversationId s ∧
  (roomy (LocalStorage.store (world s)) →
   persisted s' = Some (withMessages (convId f) final (updatedConversations f)) ∧
   ∀ c, List.find (λ c, bool_decide (id c = convId f)) (updatedConversations f)
          = Some c →
        persistedMessages (convId f) s' = Some final).
Proof.
  intros final s'. split; [done|]. split; [done|]. split; [done|].
  intros Hroom.
  assert (persisted s' =
          Some (withMessages (convId f) final (updatedConversations f))) as Hp.
  { apply persisted_saveConversations. apply Hroom. }
  split; [done|]. intros c Hc. unfold persistedMessages. rewrite Hp.
  by rewrite (find_withMessages _ _ _ _ Hc).
Qed.

Lemma active_listed_handleSendMessage now s snapshots msg :
  trim (promptValue s) ≠ "" →
  active_listed s →
  ∃ f s1,
    handleSendMessage_begin trim now s = (Some f, s1) ∧
    active_listed s1 ∧
    let fs := onChunks snapshots (f, s1) in
    active_listed (handleSendMessage_resolved fs.1 fs.2) ∧
    active_listed (handleSendMessage_rejected fs.1 msg fs.2).
Proof.
  intros Ht Hinv.
  destruct (handleSendMessage_begin_spec now s Ht Hinv)
    as (f & s1 & Hb & Hn & Ha & Hi & Hc & Hl & (c & Hf & Hm) & Hs1).
  exists f, s1. split; [done|]. split.
  { intros j Hj _. rewrite Hi in Hj. injection Hj as <-. rewrite Hl. by exists c. }
  destruct (onChunks_spec snapshots f s1) as (E1 & E2 & E3 & _ & E5 & _ & E7 & _).
  cbv zeta. set (fs := onChunks snapshots (f, s1)) in *.
  split.
  - intros j Hj _. cbn in Hj. rewrite E7, Hi in Hj. injection Hj as <-.
    eexists. cbn. rewrite E1, E3. by apply find_withMessages.
  - intros j Hj _. cbn in Hj. rewrite E7, Hi in Hj. injection Hj as <-.
    eexists. cbn. rewrite E1, E3. by apply find_withMessages.
Qed.


(** C1, as the code has it.  A Send flow never looks at the active id again.
    Its chunk callback writes the buffer - the flow's context and the text so
    far - and neither the component's list nor the store.  Its end, when the
    stream has resolved or rejected, sets the buffer to the flow's context
    and the reply, sets the component's list to the flow's own list with the
    messages of the flow's conversation replaced, and saves that list,
    whatever state the session is in by then and whatever its active id; so
    with room in the browser a conversation that is in the flow's list is in
    the stored list afterwards, with the flow's messages. *)
Theorem send_flow_ignores_active_id (f : flow) (s : state) (c : Conversation)
    (chunk msg : string) :
  List.find (λ c, bool_decide (id c = convId f)) (updatedConversations f) = Some c →
  roomy (LocalStorage.store (world s)) →
  (let fs := onChunk chunk (f, s) in
   world fs.2 = world s ∧ conversations fs.2 = conversations s ∧
   currentConversationId fs.2 = currentConversationId s ∧
   chatContext fs.2 = newContext f ++ [textMsg Model chunk]) ∧
  (let final := newContext f ++ [textMsg Model (accumulatedText f)] in
   let s' := handleSendMessage_resolved f s in
   chatContext s' = final ∧
   conversations s' = withMessages (convId f) final (updatedConversations f) ∧
   currentConversationId s' = currentConversationId s ∧
   persisted s' = Some (conversations s') ∧
   persistedMessages (convId f) s' = Some final) ∧
  (let final :=
     newContext f ++ [iconMsg Model ("오류가 발생했습니다: " +:+ msg) IconError] in
   let s' := handleSendMessage_rejected f msg s in
   chatContext s' = final ∧
   conversations s' = withMessages (convId f) final (updatedConversations f) ∧
   currentConversationId s' = currentConversationId s ∧
   persisted s' = Some (conversations s') ∧
   persistedMessages (convId f) s' = Some final).
Proof.
  intros Hf Hroom. split; [done|]. split.
  - destruct (handleSendMessage_end_spec f s (textMsg Model (accumulatedText f)))
      as (H1 & H2 & H3 & H4).
    destruct (H4 Hroom) as [H5 H6]. cbv zeta.
    split; [exact H1|]. split; [exact H2|]. split; [exact H3|].
    split; [exact H5|exact (H6 c Hf)].
  - destruct (handleSendMessage_end_spec f s
                (iconMsg Model ("오류가 발생했습니다: " +:+ msg) IconError))
      as (H1 & H2 & H3 & H4).
    destruct (H4 Hroom) as [H5 H6]. cbv zeta.
    split; [exact H1|]. split; [exact H2|]. split; [exact H3|].
    split; [exact H5|exact (H6 c Hf)].
Qed.

End Send.

Lemma roomy_emptyStorage : roomy emptyStorage.
Proof. by intros cs. Qed.



Lemma send_flow_ignores_active_id_witness :
  let s := handleNewChat
             (handleSendMessage_begin (λ p, p) 1700000000000 (startWith "hello")).2 in
  let s' := handleSendMessage_resolved (onChunk "Hi" (firstFlow, s)).1 s in
  currentConversationId s' = None ∧
  persistedMessages "1700000000000" s'
    = Some [textMsg User "hello"; textMsg Model "Hi"].
Proof.
  intros s s'.
  destruct (send_flow_ignores_active_id (onChunk "Hi" (firstFlow, s)).1 s
              {| id := "1700000000000"; title := "hello";
                 messages := [textMsg User "hello"];
                 createdAt := "1700000000000" |} "" "")
    as (_ & (_ & _ & H3 & _ & H5) & _).
  - reflexivity.
  - intros cs. reflexivity.
  - split; [exact H3 | exact H5].
Defined.

(** C1, as stated, fails.  A question is sent in a fresh session and, while
    the answer streams, its conversation is deleted: the stored list is
    empty and no conversation is active.  The next chunk fills the buffer
    all the same, and the end of the stream stores the conversation again. *)
Lemma stale_send_counterexample :
  let begun := handleSendMessage_begin (λ p, p) 1700000000000 (startWith "hello") in
  let deleted := handleDeleteConversation "1700000000000" begun.2 in
  let chunked := onChunk "Hi" (firstFlow, deleted) in
  let ended := handleSendMessage_resolved chunked.1 chunked.2 in
  begun.1 = Some firstFlow ∧
  persisted deleted = Some [] ∧
  currentConversationId deleted = None ∧ chatContext deleted = [] ∧
  currentConversationId chunked.2 = None ∧
  chatContext chunked.2 = [textMsg User "hello"; textMsg Model "Hi"] ∧
  currentConversationId ended = None ∧
  persisted ended =
    Some [ {| id := "1700000000000"; title := "hello";
              messages := [textMsg User "hello"; textMsg Model "Hi"];
              createdAt := "1700000000000" |} ] ∧
  persisted ended ≠ persisted deleted ∧ chatContext chunked.2 ≠ [].
Proof.
  cbv zeta.
  assert (handleSendMessage_begin (λ p, p) 1700000000000 (startWith "hello")
          = (Some firstFlow,
             {| conversations := updatedConversations firstFlow;
                currentConversationId := Some "1700000000000";
                chatContext := [textMsg User "hello"; textMsg Model ""];
                promptValue := "";
                world :=
                  {| LocalStorage.store :=
                       {| conversations_v1 :=
                            Some (ArrayOf (updatedConversations firstFlow));
                          chat_history_v1 := None; migration_done := None;
                          accepts := λ _, true; accepts_flag := true |};
                     LocalStorage.console := [] |} |})) as ->.
  { vm_compute. reflexivity. }
  repeat split; discriminate.
Qed.

End AppFacts.

(** ** Ids and creation times *)

Module IdFacts.

(** *** The conversations the program creates *)

Section Created.

Variable trim : string → string.
Variable toLocaleString : Z → string.

Lemma app_send_mints now (s : App.state) :
  trim (App.promptValue s) ≠ "" →
  falsy (App.currentConversationId s) = true →
  ∃ f s1 c,
    App.handleSendMessage_begin trim now s = (Some f, s1) ∧
    App.conversations s1 = c :: App.conversations s ∧
    App.currentConversationId s1 = Some (id c) ∧
    id c = toString now ∧ createdAt c = id c.
Proof.
  intros Ht Hf. unfold App.handleSendMessage_begin.
  rewrite bool_decide_eq_false_2 by done.
  cbn [App.setPromptValue App.setChatContext App.currentConversationId
       App.chatContext App.conversations].
  rewrite Hf. eexists _, _, _. split; [done|]. done.
Qed.

Lemma script_send_mints now text (s : Script.state) :
  text ≠ "" →
  falsy (Script.currentConversationId s) = true →
  ∃ c,
    Script.conversations (Script.sendMessage_begin now text s)
      = c :: Script.conversations s ∧
    Script.currentConversationId (Script.sendMessage_begin now text s)
      = Some (id c) ∧
    id c = toString now ∧ createdAt c = id c.
Proof.
  intros Ht Hf. unfold Script.sendMessage_begin.
  rewrite bool_decide_eq_false_2 by done. rewrite Hf.
  eexists. unfold Script.saveConversations.
  destruct (setItem_conversations _ _); done.
Qed.

Lemma migration_mints now (w : LocalStorage.world) msgs :
  conversations_v1 (LocalStorage.store w) = None →
  chat_history_v1 (LocalStorage.store w) = Some (ArrayOf msgs) →
  ∃ c,
    (LocalStorage.loadConversations toLocaleString now w).1 = Normal [c] ∧
    messages c = msgs ∧ id c = toString now ∧ createdAt c = id c.
Proof.
  intros Hc Ho. unfold LocalStorage.loadConversations, LocalStorage.loadConversations_try.
  rewrite Hc, Ho. cbn [truthy JSON_parse orEmpty].
  destruct (LocalStorage.saveConversations _ w) as [r w1].
  eexists. split; [done|]. done.
Qed.

(** C10, as the code has it.  A conversation that [handleSendMessage]
    creates when no conversation is active, that the script's [sendMessage]
    creates in the same case, or that [loadConversations] makes of a legacy
    record, has for [id] the decimal string of the time of creation in
    milliseconds and for [createdAt] the same string.  For two times that are
    positive and have as many decimal digits as each other - as any two times
    of thirteen digits, from September 2001 to November 2286 - these strings
    are in the order of the times; so far as that goes, descending
    [createdAt] and descending numeric id are one order. *)
Theorem created_id_is_createdAt (now now' : Z) (text : string) (msgs : list Message)
    (s : App.state) (sc : Script.state) (w : LocalStorage.world) :
  trim (App.promptValue s) ≠ "" →
  falsy (App.currentConversationId s) = true →
  text ≠ "" →
  falsy (Script.currentConversationId sc) = true →
  conversations_v1 (LocalStorage.store w) = None →
  chat_history_v1 (LocalStorage.store w) = Some (ArrayOf msgs) →
  (∃ f s1 c,
     App.handleSendMessage_begin trim now s = (Some f, s1) ∧
     App.conversations s1 = c :: App.conversations s ∧
     id c = toString now ∧ createdAt c = id c) ∧
  (∃ c,
     Script.conversations (Script.sendMessage_begin now text sc)
       = c :: Script.conversations sc ∧
     id c = toString now ∧ createdAt c = id c) ∧
  (∃ c,
     (LocalStorage.loadConversations toLocaleString now w).1 = Normal [c] ∧
     id c = toString now ∧ createdAt c = id c) ∧
  (0 < now → 0 < now' →
   String.length (toString now) = String.length (toString now') →
   String.compare (toString now) (toString now') = Z.compare now now') ∧
  (10 ^ 12 ≤ now < 10 ^ 13 → 10 ^ 12 ≤ now' < 10 ^ 13 →
   String.compare (toString now) (toString now') = Z.compare now now').
Proof.
  intros Ht Hf Ht' Hf' Hc Ho. split; [|split; [|split; [|split]]].
  - destruct (app_send_mints now s Ht Hf) as (f & s1 & c & H1 & H2 & _ & H3 & H4).
    by exists f, s1, c.
  - destruct (script_send_mints now text sc Ht' Hf') as (c & H1 & _ & H2 & H3).
    by exists c.
  - destruct (migration_mints now w msgs Hc Ho) as (c & H1 & _ & H2 & H3).
    by exists c.
  - apply toString_compare.
  - intros Hn Hn'. apply toString_compare; [lia|lia|].
    by rewrite !toString_length_13.
Qed.

End Created.

(** Two questions, each the first of its session, a millisecond apart. *)
Lemma created_id_is_createdAt_witness :
  (∃ f s1 c,
     App.handleSendMessage_begin (λ p, p) 1700000000000 (startWith "hello")
       = (Some f, s1) ∧
     App.conversations s1 = [c] ∧
     id c = toString 1700000000000 ∧ createdAt c = id c) ∧
  String.compare (toString 1700000000000) (toString 1700000000001) = Lt.
Proof.
  destruct (created_id_is_createdAt (λ p, p) (λ _, "")
              1700000000000 1700000000001 "hello" [textMsg User "hi"]
              (startWith "hello")
              {| Script.chatContext := []; Script.conversations := [];
                 Script.currentConversationId := None;
                 Script.store := emptyStorage; Script.console := [] |}
              {| LocalStorage.store :=
                   {| conversations_v1 := None;
                      chat_history_v1 := Some (ArrayOf [textMsg User "hi"]);
                      migration_done := None; accepts := λ _, true;
                      accepts_flag := true |};
                 LocalStorage.console := [] |})
    as (H1 & _ & _ & _ & H5).
  - discriminate.
  - reflexivity.
  - discriminate.
  - reflexivity.
  - reflexivity.
  - reflexivity.
  - split; [exact H1|]. rewrite H5; [reflexivity|lia|lia].
Defined.

(** C10, as stated, fails in its last part for creation times with different
    numbers of digits: of the conversations created at the times 999 and 1000
    the first has the greater [createdAt], as strings are ordered, and the
    smaller id, as a number. *)
Lemma created_order_counterexample :
  ∃ f1 s1 c1 f2 s2 c2,
    App.handleSendMessage_begin (λ p, p) 999 (startWith "hello") = (Some f1, s1) ∧
    App.conversations s1 = [c1] ∧
    App.handleSendMessage_begin (λ p, p) 1000 (startWith "hello") = (Some f2, s2) ∧
    App.conversations s2 = [c2] ∧
    id c1 = toString 999 ∧ id c2 = toString 1000 ∧
    String.compare (createdAt c1) (createdAt c2) = Gt ∧
    Z.compare 999 1000 = Lt ∧
    String.compare (createdAt c1) (createdAt c2) ≠ Z.compare 999 1000.
Proof.
  eexists _, _, _, _, _, _.
  split; [vm_compute; reflexivity|]. split; [reflexivity|].
  split; [vm_compute; reflexivity|]. split; [reflexivity|].
  split; [vm_compute; reflexivity|]. split; [vm_compute; reflexivity|].
  split; [vm_compute; reflexivity|]. split; [reflexivity|].
  vm_compute. discriminate.
Qed.

End IdFacts.

(** ** The task poller: its schedule and what it delivers *)

Module PollerSchedule.

Lemma backoff_S n : backoff (S n) = Z.min (backoff n * 2) maxInterval.
Proof.
  unfold backoff, maxInterval. rewrite Nat2Z.inj_succ, Z.pow_succ_r by lia.
  assert (0 < 2 ^ Z.of_nat n) by (apply Z.pow_pos_nonneg; lia). lia.
Qed.

Lemma backoff_bounds n : 2000 ≤ backoff n ≤ 5000.
Proof.
  unfold backoff, maxInterval.
  assert (0 < 2 ^ Z.of_nat n) by (apply Z.pow_pos_nonneg; lia). lia.
Qed.

Lemma run_Running_inv {S} (step : S → outcome S) n s s' :
  run step (Datatypes.S n) s = Running s' →
  ∃ s1, run step n s = Running s1 ∧ step s1 = Running s'.
Proof.
  rewrite PollerFacts.run_end. destruct (run step n s) as [s1| |]; [|done..].
  intros H. by exists s1.
Qed.

Lemma answers_S env n : answers env (S n) = answers env n ++ [answer (env n)].
Proof. unfold answers. by rewrite seq_S, fmap_app. Qed.

Ltac react_fields :=
  cbn [ApiService.interval ApiService.requests ApiService.start ApiService.clock
       ApiService.delivered total_latency waited].

Ltac script_fields :=
  cbn [Script.interval Script.requests Script.start Script.clock
       Script.consecutiveFailures Script.delivered total_latency waited].

Section Session.

Variable env : nat → exchange.
Variable now : Z.

Lemma react_schedule n s :
  ApiService.pollUploadStatus env now n = Running s →
  ApiService.interval s = backoff n ∧ ApiService.requests s = n ∧
  ApiService.start s = now ∧
  ApiService.clock s = now + total_latency env n + waited n.
Proof.
  unfold ApiService.pollUploadStatus. revert s.
  induction n as [|n IH]; intros s.
  - intros [= <-]. cbn. unfold backoff, maxInterval. cbn. lia.
  - intros H. apply run_Running_inv in H as (s1 & H1 & Hs).
    destruct (IH s1 H1) as (Hi & Hr & Hst & Hc).
    unfold ApiService.step in Hs. rewrite Hr in Hs.
    unfold ApiService.handler in Hs.
    destruct (answer (env n)) as [info| |e]; cbn in Hs.
    + destruct (terminal info); [done|].
      destruct (_ <? _); [done|]. injection Hs as <-.
      cbn [ApiService.interval ApiService.requests ApiService.start
           ApiService.clock total_latency waited].
      rewrite backoff_S, Hi, Hst, Hc. repeat split; lia.
    + done.
    + by case_bool_decide.
Qed.

Lemma script_schedule n s :
  Script.pollUploadStatus env now n = Running s →
  Script.interval s = backoff n ∧ Script.requests s = n ∧
  Script.start s = now ∧
  Script.clock s = now + total_latency env n + waited n.
Proof.
  unfold Script.pollUploadStatus. revert s.
  induction n as [|n IH]; intros s.
  - intros [= <-]. cbn. unfold backoff, maxInterval. cbn. lia.
  - intros H. apply run_Running_inv in H as (s1 & H1 & Hs).
    destruct (IH s1 H1) as (Hi & Hr & Hst & Hc).
    pose proof (backoff_bounds n) as Hb.
    unfold Script.step in Hs. rewrite Hr in Hs.
    unfold Script.handler in Hs.
    destruct (answer (env n)) as [info| |e]; cbn in Hs.
    + destruct (terminal info); [done|].
      destruct (_ <? _).
      * injection Hs as <-. script_fields.
        rewrite backoff_S, Hi, Hst, Hc. unfold maxInterval.
        repeat split; lia.
      * injection Hs as <-. script_fields.
        rewrite backoff_S, Hi, Hst, Hc. repeat split; lia.
    + done.
    + destruct (5 <=? _); [done|]. injection Hs as <-. script_fields.
      rewrite backoff_S, Hi, Hst, Hc. unfold maxInterval.
      repeat split; lia.
Qed.

(** X1.  The backoff schedule holds in every session, whatever the endpoint
    answers.  While a poller is at the head of its loop after n turns it has
    sent n requests, the wait of the turn to come is 2000 ms doubled n times
    and capped at 5000 ms - so 2000, 4000, 5000, 5000, ... and always between
    2000 and 5000 - and the clock stands at the start plus the time the n
    requests took plus the n waits so far.  This is so for the poller of the
    React client and for the one of the script, whose waits after a failed
    request follow the same schedule. *)
Theorem poller_backoff_schedule n :
  (∀ s, ApiService.pollUploadStatus env now n = Running s →
     ApiService.requests s = n ∧
     ApiService.interval s = Z.min (2000 * 2 ^ Z.of_nat n) 5000 ∧
     2000 ≤ ApiService.interval s ≤ 5000 ∧
     ApiService.clock s = now + total_latency env n + waited n) ∧
  (∀ s, Script.pollUploadStatus env now n = Running s →
     Script.requests s = n ∧
     Script.interval s = Z.min (2000 * 2 ^ Z.of_nat n) 5000 ∧
     2000 ≤ Script.interval s ≤ 5000 ∧
     Script.clock s = now + total_latency env n + waited n).
Proof.
  pose proof (backoff_bounds n) as Hb. split; intros s Hs.
  - destruct (react_schedule n s Hs) as (Hi & Hr & _ & Hc).
    rewrite Hi. done.
  - destruct (script_schedule n s Hs) as (Hi & Hr & _ & Hc).
    rewrite Hi. done.
Qed.

Lemma progressing_S k : progressing env (S k) → progressing env k.
Proof. intros H i Hi. apply H. lia. Qed.

Lemma react_progressing k :
  progressing env k →
  ∃ s, ApiService.pollUploadStatus env now k = Running s ∧
       Body <$> ApiService.delivered s = answers env k.
Proof.
  induction k as [|k IH]; intros Hp.
  - eexists. split; [done|]. done.
  - destruct (IH (progressing_S k Hp)) as (s & Hs & Hd).
    destruct (react_schedule k s Hs) as (_ & Hr & Hst & Hc).
    destruct (Hp k) as [(info & Ha & Ht) Htime]; [lia|].
    unfold ApiService.pollUploadStatus in *. rewrite PollerFacts.run_end, Hs.
    unfold ApiService.step. rewrite Hr, Ha. react_fields. rewrite Ht.
    destruct (Z.ltb_spec maxTimeout
                (ApiService.clock s + latency (env k) - ApiService.start s))
      as [Hto|Hto].
    { rewrite Hc, Hst in Hto. cbn [total_latency] in Htime. lia. }
    eexists. split; [done|]. cbn [ApiService.delivered].
    by rewrite fmap_app, Hd, answers_S, Ha.
Qed.

Lemma script_progressing k :
  progressing env k →
  ∃ s, Script.pollUploadStatus env now k = Running s ∧
       Body <$> Script.delivered s = answers env k.
Proof.
  induction k as [|k IH]; intros Hp.
  - eexists. split; [done|]. done.
  - destruct (IH (progressing_S k Hp)) as (s & Hs & Hd).
    destruct (script_schedule k s Hs) as (_ & Hr & Hst & Hc).
    destruct (Hp k) as [(info & Ha & Ht) Htime]; [lia|].
    unfold Script.pollUploadStatus in *. rewrite PollerFacts.run_end, Hs.
    unfold Script.step. rewrite Hr, Ha. script_fields. rewrite Ht.
    destruct (Z.ltb_spec maxTimeout
                (Script.clock s + latency (env k) - Script.start s))
      as [Hto|Hto].
    { rewrite Hc, Hst in Hto. cbn [total_latency] in Htime. lia. }
    eexists. split; [done|]. cbn [Script.delivered].
    by rewrite fmap_app, Hd, answers_S, Ha.
Qed.

(** X2.  Statuses are delivered in the order they arrive, each once, and the
    first terminal one ends the session.  When the first k answers are
    statuses that are not terminal, each within twenty minutes of the start,
    and the next answer is a status that is done or failed, the poller
    resolves with that status at turn k + 1, whatever the number of turns it
    is given beyond that; the callback has then been called k + 1 times, with
    exactly the k + 1 statuses received, in order; k + 1 requests were sent
    and the poller has waited k times.  This holds for the poller of the
    React client and for the one of the script. *)
Theorem poller_delivers_in_order (k turns : nat) (info : UploadStatusInfo) :
  progressing env k →
  answer (env k) = Body info →
  terminal info = true →
  (k < turns)%nat →
  (∃ s, ApiService.pollUploadStatus env now turns = Returned info s ∧
        Body <$> ApiService.delivered s = answers env (S k) ∧
        ApiService.requests s = S k ∧
        ApiService.clock s = now + total_latency env (S k) + waited k) ∧
  (∃ s, Script.pollUploadStatus env now turns = Returned info s ∧
        Body <$> Script.delivered s = answers env (S k) ∧
        Script.requests s = S k ∧
        Script.clock s = now + total_latency env (S k) + waited k).
Proof.
  intros Hp Ha Ht Hturns. split.
  - destruct (react_progressing k Hp) as (s & Hs & Hd).
    destruct (react_schedule k s Hs) as (_ & Hr & Hst & Hc).
    assert (∃ s', ApiService.pollUploadStatus env now (S k) = Returned info s' ∧
              Body <$> ApiService.delivered s' = answers env (S k) ∧
              ApiService.requests s' = S k ∧
              ApiService.clock s' = now + total_latency env (S k) + waited k)
      as (s' & Hs' & H').
    { unfold ApiService.pollUploadStatus in *. rewrite PollerFacts.run_end, Hs.
      unfold ApiService.step. rewrite Hr, Ha. react_fields. rewrite Ht.
      eexists. split; [done|].
      cbn [ApiService.delivered ApiService.requests ApiService.clock total_latency].
      rewrite fmap_app, Hd, answers_S, Ha, Hc. repeat split; lia. }
    exists s'. split; [|done]. unfold ApiService.pollUploadStatus in *.
    rewrite (PollerFacts.run_stable _ (S k) turns); [done|lia|].
    intros s0. by rewrite Hs'.
  - destruct (script_progressing k Hp) as (s & Hs & Hd).
    destruct (script_schedule k s Hs) as (_ & Hr & Hst & Hc).
    assert (∃ s', Script.pollUploadStatus env now (S k) = Returned info s' ∧
              Body <$> Script.delivered s' = answers env (S k) ∧
              Script.requests s' = S k ∧
              Script.clock s' = now + total_latency env (S k) + waited k)
      as (s' & Hs' & H').
    { unfold Script.pollUploadStatus in *. rewrite PollerFacts.run_end, Hs.
      unfold Script.step. rewrite Hr, Ha. script_fields. rewrite Ht.
      eexists. split; [done|].
      cbn [Script.delivered Script.requests Script.clock total_latency].
      rewrite fmap_app, Hd, answers_S, Ha, Hc. repeat split; lia. }
    exists s'. split; [|done]. unfold Script.pollUploadStatus in *.
    rewrite (PollerFacts.run_stable _ (S k) turns); [done|lia|].
    intros s0. by rewrite Hs'.
Qed.

(** X3.  A 404 from the status endpoint ends a session at once, at any point
    of it.  A poller that is at the head of its loop after k turns and gets
    a 404 on its next request delivers the not-found status - failed, with
    the message that the task was not found and progress 0 - as its last
    callback and resolves without waiting: the clock moves by the time of
    that request only.  The React client's poller resolves with the status it
    delivered; the script's resolves with a record that has the status
    failed and neither message nor progress. *)
Theorem poller_not_found (k turns : nat) :
  answer (env k) = Status404 →
  (k < turns)%nat →
  (∀ s, ApiService.pollUploadStatus env now k = Running s →
     ∃ s', ApiService.pollUploadStatus env now turns = Returned notFoundInfo s' ∧
           ApiService.delivered s' = ApiService.delivered s ++ [notFoundInfo] ∧
           ApiService.requests s' = S k ∧
           ApiService.clock s' = ApiService.clock s + latency (env k)) ∧
  (∀ s, Script.pollUploadStatus env now k = Running s →
     ∃ s', Script.pollUploadStatus env now turns
             = Returned {| status := Failed; message := None; progress := None |} s' ∧
           Script.delivered s' = Script.delivered s ++ [notFoundInfo] ∧
           Script.requests s' = S k ∧
           Script.clock s' = Script.clock s + latency (env k)).
Proof.
  intros Ha Hturns. split; intros s Hs.
  - destruct (react_schedule k s Hs) as (_ & Hr & _).
    assert (ApiService.pollUploadStatus env now (S k) =
            Returned notFoundInfo
              {| ApiService.interval := ApiService.interval s;
                 ApiService.start := ApiService.start s;
                 ApiService.clock := ApiService.clock s + latency (env k);
                 ApiService.requests := S k;
                 ApiService.delivered := ApiService.delivered s ++ [notFoundInfo] |})
      as H1.
    { unfold ApiService.pollUploadStatus in *. rewrite PollerFacts.run_end, Hs.
      unfold ApiService.step. rewrite Hr, Ha. unfold ApiService.handler.
      by rewrite bool_decide_eq_true_2 by done. }
    eexists. split.
    { unfold ApiService.pollUploadStatus in *.
      rewrite (PollerFacts.run_stable _ (S k) turns); [exact H1|lia|].
      intros s0. by rewrite H1. }
    done.
  - destruct (script_schedule k s Hs) as (_ & Hr & _).
    assert (Script.pollUploadStatus env now (S k) =
            Returned {| status := Failed; message := None; progress := None |}
              {| Script.interval := Script.interval s;
                 Script.start := Script.start s;
                 Script.clock := Script.clock s + latency (env k);
                 Script.requests := S k;
                 Script.consecutiveFailures := Script.consecutiveFailures s;
                 Script.delivered := Script.delivered s ++ [notFoundInfo] |})
      as H1.
    { unfold Script.pollUploadStatus in *. rewrite PollerFacts.run_end, Hs.
      unfold Script.step. by rewrite Hr, Ha. }
    eexists. split.
    { unfold Script.pollUploadStatus in *.
      rewrite (PollerFacts.run_stable _ (S k) turns); [exact H1|lia|].
      intros s0. by rewrite H1. }
    done.
Qed.

(** X4.  The poller of the React client delivers at most one terminal
    status, and as its last callback.  In every session, whatever the
    endpoint answers and however long it takes: while the poller is polling
    it has delivered no terminal status; when it has resolved, the status it
    resolved with is terminal and is the last one delivered, after statuses
    that are not terminal; when it has rejected, either nothing terminal was
    delivered - the error of a failed request, thrown again - or the error is
    the timeout and the last status delivered is the timeout status, built
    from the answer before it, after statuses that are not terminal. *)
Theorem react_poller_terminal_last (turns : nat) :
  match ApiService.pollUploadStatus env now turns with
  | Running s => Forall (λ i, terminal i = false) (ApiService.delivered s)
  | Returned info s =>
      terminal info = true ∧
      ∃ l, ApiService.delivered s = l ++ [info] ∧
           Forall (λ i, terminal i = false) l
  | Thrown e s =>
      Forall (λ i, terminal i = false) (ApiService.delivered s) ∨
      (e = Error "Polling timeout" ∧
       ∃ l i, ApiService.delivered s = l ++ [i; timeoutInfo i] ∧
              Forall (λ i, terminal i = false) (l ++ [i]))
  end.
Proof.
  unfold ApiService.pollUploadStatus. induction turns as [|n IH]; [by constructor|].
  rewrite PollerFacts.run_end.
  destruct (run (ApiService.step env) n (ApiService.init now)) as [s| |]; [|done..].
  unfold ApiService.step, ApiService.handler.
  destruct (answer (env (ApiService.requests s))) as [info| |e].
  - cbn. destruct (terminal info) eqn:Ht.
    + split; [done|]. by exists (ApiService.delivered s).
    + destruct (_ <? _).
      * rewrite bool_decide_eq_false_2 by done. right. split; [done|].
        exists (ApiService.delivered s), info. cbn. rewrite <- app_assoc.
        split; [done|]. apply Forall_app. split; [done|]. by repeat constructor.
      * cbn. apply Forall_app. split; [done|]. by repeat constructor.
  - rewrite bool_decide_eq_true_2 by done. cbn. split; [done|].
    by exists (ApiService.delivered s).
  - case_bool_decide.
    + cbn. split; [done|]. by exists (ApiService.delivered s).
    + by left.
Qed.

(** X5.  The script's poller gives up at the fifth failure in a row, not
    before and not later.  In every session, whatever the endpoint answers:
    while the poller is polling its count of failures in a row is between 0
    and 4; when it has rejected the count is 5 and the last status delivered
    is the network-failure status; and when it has resolved, the status it
    resolved with is terminal and has the status of the last one delivered. *)
Theorem script_poller_gives_up_at_five (turns : nat) :
  match Script.pollUploadStatus env now turns with
  | Running s => 0 ≤ Script.consecutiveFailures s ≤ 4
  | Returned info s =>
      0 ≤ Script.consecutiveFailures s ≤ 4 ∧ terminal info = true ∧
      ∃ l last, Script.delivered s = l ++ [last] ∧ status last = status info
  | Thrown e s =>
      Script.consecutiveFailures s = 5 ∧
      ∃ l, Script.delivered s = l ++ [Script.networkInfo]
  end.
Proof.
  unfold Script.pollUploadStatus. induction turns as [|n IH]; [done|].
  rewrite PollerFacts.run_end.
  destruct (run (Script.step env) n (Script.init now)) as [s| |]; [|done..].
  unfold Script.step, Script.handler.
  destruct (answer (env (Script.requests s))) as [info| |e].
  - script_fields. destruct (terminal info) eqn:Ht.
    + split; [done|]. split; [done|]. by exists (Script.delivered s), info.
    + destruct (_ <? _); [|done]. script_fields. done.
  - script_fields. split; [done|]. split; [done|].
    by exists (Script.delivered s), notFoundInfo.
  - script_fields.
    destruct (Z.leb_spec 5 (Script.consecutiveFailures s + 1)).
    + script_fields. split; [lia|]. by eexists.
    + script_fields. lia.
Qed.

End Session.

(** An endpoint that answers uploaded, then parsing at 40 percent, then
    done, each after 100 ms; and one that does not know the task. *)
Lemma poller_delivers_in_order_witness :
  ∃ s, ApiService.pollUploadStatus upload_done 0 3
       = Returned {| status := Done; message := None; progress := Some 100 |} s ∧
       ApiService.clock s = 6300.
Proof.
  destruct (poller_delivers_in_order upload_done 0 2 3
              {| status := Done; message := None; progress := Some 100 |})
    as [(s & Hs & _ & _ & Hc) _].
  - intros i Hi. destruct i as [|[|i]]; [| |lia].
    + split; [eexists; split; reflexivity|]. vm_compute. discriminate.
    + split; [eexists; split; reflexivity|]. vm_compute. discriminate.
  - reflexivity.
  - reflexivity.
  - lia.
  - exists s. split; [exact Hs|]. rewrite Hc. vm_compute. reflexivity.
Defined.

Lemma poller_backoff_schedule_witness :
  ∃ s, ApiService.pollUploadStatus stuck 0 3 = Running s ∧
       ApiService.interval s = Z.min (2000 * 2 ^ Z.of_nat 3) 5000 ∧
       ApiService.clock s = 0 + total_latency stuck 3 + waited 3.
Proof.
  assert (ApiService.pollUploadStatus stuck 0 3 =
          Running {| ApiService.interval := 5000; ApiService.start := 0;
                     ApiService.clock := 11000; ApiService.requests := 3;
                     ApiService.delivered := [stuckInfo; stuckInfo; stuckInfo] |})
    as E by (vm_compute; reflexivity).
  destruct (poller_backoff_schedule stuck 0 3) as [H _].
  destruct (H _ E) as (_ & Hi & _ & Hc).
  eexists. split; [exact E|]. split; [exact Hi|exact Hc].
Defined.

Lemma poller_not_found_witness :
  ∃ s, Script.pollUploadStatus unknown_task 0 1
       = Returned {| status := Failed; message := None; progress := None |} s ∧
       Script.delivered s = [notFoundInfo].
Proof.
  destruct (poller_not_found unknown_task 0 0 1) as [_ H].
  - reflexivity.
  - lia.
  - destruct (H _ eq_refl) as (s & Hs & Hd & _).
    exists s. split; [exact Hs|exact Hd].
Defined.

End PollerSchedule.

(** ** The stream consumer on arbitrary bytes *)

Module StreamMore.
Import TextDecoder StreamConsumer.

Lemma readAll_snoc cs c :
  accumulatedText (readAll (cs ++ [c])) =
    accumulatedText (readAll cs) ++ (decode c (decoder (readAll cs))).1.
Proof.
  unfold readAll. rewrite foldl_snoc. unfold read.
  by destruct (decode c _).
Qed.

Lemma calls_lookup cs i a :
  calls (readAll cs) !! i = Some a →
  (i < length cs)%nat ∧ a = accumulatedText (readAll (take (S i) cs)).
Proof.
  rewrite StreamFacts.readAll_calls, list_lookup_fmap.
  destruct (seq 1 (length cs) !! i) as [j|] eqn:E; [|done].
  apply lookup_seq in E as [-> Hi]. by intros [= <-].
Qed.

Lemma calls_last cs : List.last (calls (readAll cs)) [] = accumulatedText (readAll cs).
Proof.
  induction cs as [|c cs _] using rev_ind; [done|].
  unfold readAll. rewrite foldl_snoc. unfold read.
  destruct (decode c _). cbn [calls accumulatedText]. by rewrite last_last.
Qed.

(** X6.  The text that [streamChatMessage] returns depends on the bytes of
    the body only, not on how the network cuts them into chunks - for every
    sequence of bytes, well-formed UTF-8 or not.  Two bodies with the same
    bytes give the same text, and so does the read loop of the script; in
    particular the text is the one that the whole body in one chunk gives. *)
Theorem stream_split_independent (cs cs' : list (list Z)) :
  concat cs = concat cs' →
  (streamChatMessage
     {| ok := true; body := Some {| chunks := cs; failure := None |} |}).1 =
  (streamChatMessage
     {| ok := true; body := Some {| chunks := cs'; failure := None |} |}).1 ∧
  (sendMessage_read cs).1 = (sendMessage_read cs').1 ∧
  (streamChatMessage
     {| ok := true; body := Some {| chunks := cs; failure := None |} |}).1 =
  (streamChatMessage
     {| ok := true;
        body := Some {| chunks := [concat cs]; failure := None |} |}).1.
Proof.
  intros H.
  assert (∀ xs ys, concat xs = concat ys →
            accumulatedText (readAll xs) = accumulatedText (readAll ys)) as E.
  { intros xs ys Hc.
    destruct (StreamFacts.readAll_state xs) as (_ & _ & ->).
    destruct (StreamFacts.readAll_state ys) as (_ & _ & ->).
    by rewrite Hc. }
  unfold streamChatMessage, sendMessage_read. cbn [ok body chunks failure negb fst].
  rewrite (E cs cs' H). split; [done|]. split; [done|].
  f_equal. apply E. cbn. by rewrite app_nil_r.
Qed.

(** X7.  The callback of [streamChatMessage] gets cumulative snapshots.  For
    every body, whatever its bytes and whether or not a read fails in the
    end: the callback is called once per chunk read; each snapshot is a
    prefix of the next one, so text that was shown is never taken back; and
    when the stream ends without failure the text returned is the last
    snapshot (the empty text when there was no chunk), while a failed read
    rejects with its error after the callbacks for the chunks read. *)
Theorem stream_snapshots_cumulative (cs : list (list Z)) (fl : option exn) :
  let run := streamChatMessage
               {| ok := true; body := Some {| chunks := cs; failure := fl |} |} in
  length run.2 = length cs ∧
  (∀ i a b, run.2 !! i = Some a → run.2 !! S i = Some b → a `prefix_of` b) ∧
  run.1 = match fl with
          | None => Normal (List.last run.2 [])
          | Some e => Throw e
          end.
Proof.
  assert ((streamChatMessage
             {| ok := true; body := Some {| chunks := cs; failure := fl |} |}).2
          = calls (readAll cs)) as E.
  { unfold streamChatMessage. cbn. by destruct fl. }
  cbv zeta. rewrite E. split; [|split].
  - by rewrite StreamFacts.readAll_calls, length_fmap, length_seq.
  - intros i a b Ha Hb.
    apply calls_lookup in Ha as [Hi ->]. apply calls_lookup in Hb as [Hj ->].
    destruct (lookup_lt_is_Some_2 cs (S i) Hj) as [c Hc].
    rewrite (take_S_r cs (S i) c Hc), readAll_snoc. by eexists.
  - unfold streamChatMessage. cbn. destruct fl; [done|].
    cbn. by rewrite calls_last.
Qed.

(** X8.  A stream that ends inside a character.  When the body is the UTF-8
    encoding of a text followed by the first bytes, not all, of the encoding
    of one more character, [streamChatMessage] returns the text (without a
    leading byte order mark): the decoder is never flushed, so the bytes of
    the unfinished character are dropped without a replacement character and
    without an error. *)
Theorem stream_truncated (s : list Z) (c : Z) (n : nat) (cs : list (list Z)) :
  Forall scalar s →
  scalar c →
  (n < length (utf8 c))%nat →
  concat cs = utf8_encode s ++ take n (utf8 c) →
  streamChatMessage
    {| ok := true; body := Some {| chunks := cs; failure := None |} |}
  = (Normal (utf16 (strip_BOM s)), calls (readAll cs)).
Proof.
  intros Hs Hc Hn Hcs. unfold streamChatMessage.
  cbn [ok body chunks failure negb]. f_equal. f_equal.
  destruct (StreamFacts.readAll_state cs) as (_ & _ & ->).
  rewrite Hcs, StreamFacts.process_app, StreamFacts.process_encoded by done.
  cbn [fst snd].
  destruct (StreamFacts.process_character c Hc) as [_ Hp].
  rewrite (Hp n Hn), app_nil_r. by rewrite StreamFacts.serialize_fresh.
Qed.

(** Two bodies with the bytes of two Hangul syllables, cut differently. *)
Lemma stream_split_independent_witness :
  (streamChatMessage
     {| ok := true;
        body := Some {| chunks := [[0xEC; 0x95]; [0x88; 0xEB; 0x85]; [0x95]];
                        failure := None |} |}).1 =
  (streamChatMessage
     {| ok := true;
        body := Some {| chunks := [[0xEC; 0x95; 0x88; 0xEB]; [0x85; 0x95]];
                        failure := None |} |}).1.
Proof.
  destruct (stream_split_independent
              [[0xEC; 0x95]; [0x88; 0xEB; 0x85]; [0x95]]
              [[0xEC; 0x95; 0x88; 0xEB]; [0x85; 0x95]]) as [H _].
  - reflexivity.
  - exact H.
Defined.

(** The first syllable and two of the three bytes of the second. *)
Lemma stream_truncated_witness :
  (streamChatMessage
     {| ok := true;
        body := Some {| chunks := [[0xEC; 0x95]; [0x88; 0xEB; 0x85]];
                        failure := None |} |}).1 = Normal [0xC548].
Proof.
  rewrite (stream_truncated [0xC548] 0xB155 2 [[0xEC; 0x95]; [0x88; 0xEB; 0x85]]).
  - reflexivity.
  - repeat constructor; unfold scalar; lia.
  - unfold scalar; lia.
  - vm_compute. lia.
  - reflexivity.
Defined.

End StreamMore.

(** ** Whole flows of the React client *)

Module SessionFacts.
Import App.

Lemma persisted_same_store a a' :
  LocalStorage.store (world a') = LocalStorage.store (world a) →
  persisted a' = persisted a.
Proof. unfold persisted. by intros ->. Qed.

Lemma roomy_saveConversations cs a :
  roomy (LocalStorage.store (world a)) →
  roomy (LocalStorage.store (world (saveConversations cs a))).
Proof. intros H l. rewrite AppFacts.accepts_saveConversations. apply H. Qed.

Lemma keeps_refl a : keeps_conversations a a.
Proof. by split. Qed.

Lemma keeps_trans a b c :
  keeps_conversations a b → keeps_conversations b c → keeps_conversations a c.
Proof. intros [H1 H2] [H3 H4]. split; congruence. Qed.

Lemma keeps_setChatContext ms a : keeps_conversations a (setChatContext ms a).
Proof. by split. Qed.

Lemma keeps_handleNewChat a : keeps_conversations a (handleNewChat a).
Proof. by split. Qed.

(** The progress callbacks of an upload write the buffer only, each over the
    one before. *)
Lemma foldl_onUpdate (ctx : list Message) (infos : list UploadStatusInfo) :
  ∀ s : Session.state,
  foldl (λ s info,
           Session.onApp (setChatContext (ctx ++ [Session.progressMsg info])) s)
    s infos =
  match infos with
  | [] => s
  | i :: l =>
      Session.onApp
        (setChatContext (ctx ++ [Session.progressMsg (List.last l i)])) s
  end.
Proof.
  induction infos as [|i l IH] using rev_ind; intros s; [done|].
  rewrite foldl_snoc, IH.
  destruct l as [|j l]; [done|]. cbn [app]. by rewrite last_last.
Qed.

Lemma loadDocuments_frame docs s :
  let s' := Session.loadDocuments docs s in
  keeps_conversations (Session.app s) (Session.app s') ∧
  currentConversationId (Session.app s') = currentConversationId (Session.app s) ∧
  chatContext (Session.app s') = chatContext (Session.app s) ∧
  promptValue (Session.app s') = promptValue (Session.app s) ∧
  Session.isFileUploading s' = Session.isFileUploading s.
Proof. destruct docs as [[[|d ds]|]|e]; done. Qed.

Lemma leaveConversation_frame s :
  let s' := Session.leaveConversation s in
  keeps_conversations (Session.app s) (Session.app s') ∧
  currentConversationId (Session.app s') =
    (if (0 <? length (chatContext (Session.app s)))%nat then None
     else currentConversationId (Session.app s)) ∧
  Session.isFileUploading s' = Session.isFileUploading s.
Proof.
  unfold Session.leaveConversation.
  by destruct (0 <? length (chatContext (Session.app s)))%nat.
Qed.

Lemma persisted_in_sync a i c :
  in_sync a →
  List.find (λ c, bool_decide (id c = i)) (conversations a) = Some c →
  persistedMessages i a = Some (messages c).
Proof.
  unfold in_sync, persistedMessages. intros Hs Hf.
  destruct (persisted a) as [l|]; cbn in Hs.
  - rewrite <- Hs, Hf. done.
  - by rewrite Hs in Hf.
Qed.

Lemma in_sync_persistedMessages a i ms :
  in_sync a →
  persistedMessages i a = Some ms →
  ∃ c, List.find (λ c, bool_decide (id c = i)) (conversations a) = Some c ∧
       messages c = ms.
Proof.
  unfold in_sync, persistedMessages. intros Hs Hp.
  destruct (persisted a) as [l|]; [|done]. cbn in Hs. rewrite Hs.
  destruct (List.find _ l) as [c|]; [|done]. injection Hp as <-. by exists c.
Qed.

Lemma withMessages_nonempty i ms cs :
  ms ≠ [] → all_nonempty cs → all_nonempty (withMessages i ms cs).
Proof.
  intros Hm Hcs. unfold all_nonempty, withMessages.
  induction Hcs as [|c cs Hc _ IH]; [constructor|].
  cbn. constructor; [|done]. by case_bool_decide.
Qed.

Lemma withMessages_fresh i ms cs :
  Forall (λ c, id c ≠ i) cs → withMessages i ms cs = cs.
Proof.
  induction 1 as [|c cs Hc _ IH]; [done|]. cbn.
  rewrite bool_decide_eq_false_2 by done. by f_equal.
Qed.

Lemma withMessages_twice i ms ms' cs :
  withMessages i ms' (withMessages i ms cs) = withMessages i ms' cs.
Proof.
  unfold withMessages. rewrite List.map_map. apply List.map_ext. intros c.
  destruct (bool_decide (id c = i)) eqn:H; cbn; by rewrite H.
Qed.

Lemma withMessages_lookup i ms cs k c :
  cs !! k = Some c →
  withMessages i ms cs !! k =
    Some (if bool_decide (id c = i)
          then {| id := id c; title := title c; messages := ms;
                  createdAt := createdAt c |}
          else c).
Proof.
  intros H. unfold withMessages.
  change (List.map ?f cs) with (f <$> cs). by rewrite list_lookup_fmap, H.
Qed.

Lemma all_nonempty_filter (P : Conversation → bool) cs :
  all_nonempty cs → all_nonempty (List.filter P cs).
Proof.
  unfold all_nonempty. rewrite !Forall_forall. intros H c Hc.
  apply H. apply list_elem_of_In. apply list_elem_of_In in Hc.
  by apply filter_In in Hc as [? _].
Qed.

(** An idle session: with an empty buffer no conversation is active. *)
Lemma faithful_idle a i :
  consistent a → faithful a → chatContext a = [] →
  currentConversationId a = Some i → i ≠ "" → False.
Proof.
  intros (_ & Hs & _) [Hsh Hne] Hctx Hi Hn.
  specialize (Hsh i Hi Hn). rewrite Hctx in Hsh.
  destruct (in_sync_persistedMessages a i [] Hs Hsh) as (c & Hc & Hm).
  apply find_some in Hc as [Hc _]. apply list_elem_of_In in Hc.
  unfold all_nonempty in Hne. rewrite Forall_forall in Hne.
  by apply (Hne c Hc).
Qed.

Lemma consistent_keeps a a' :
  keeps_conversations a a' →
  currentConversationId a' = currentConversationId a ∨
  currentConversationId a' = None →
  consistent a → consistent a'.
Proof.
  intros [Hst Hcs] Hcur (Hr & Hs & Ha). split; [|split].
  - by rewrite Hst.
  - unfold in_sync. by rewrite Hcs, (persisted_same_store a a' Hst).
  - intros i Hi Hn. rewrite Hcs. destruct Hcur as [E|E]; rewrite E in Hi; [|done].
    by apply Ha.
Qed.

Lemma faithful_keeps a a' :
  keeps_conversations a a' →
  currentConversationId a' = None ∨
  (currentConversationId a' = currentConversationId a ∧
   (chatContext a' = chatContext a ∨ chatContext a = [])) →
  consistent a → faithful a → faithful a'.
Proof.
  intros [Hst Hcs] Hcur Hc [Hsh Hne]. split; [|by rewrite Hcs].
  intros i Hi Hn. destruct Hcur as [E|[E [E'|E']]].
  - by rewrite E in Hi.
  - unfold persistedMessages. rewrite (persisted_same_store a a' Hst), E'.
    apply Hsh; [by rewrite <- E|done].
  - rewrite E in Hi. by destruct (faithful_idle a i).
Qed.

Section Flows.

Variable trim : string → string.
Variable fromCharCode : list Z → string.
Variable messageOf : exn → string.

(** What every upload flow leaves. *)
Lemma handleFileSelect_spec name uploaded env now turns docs s :
  let s' := Session.handleFileSelect messageOf name uploaded env now turns docs s in
  keeps_conversations (Session.app s) (Session.app s') ∧
  currentConversationId (Session.app s') =
    (if (0 <? length (chatContext (Session.app s)))%nat then None
     else currentConversationId (Session.app s)) ∧
  Session.isFileUploading s' = upload_pending uploaded env now turns ∧
  ∃ rest, chatContext (Session.app s') =
            textMsg User ("파일 업로드: " +:+ name) :: rest ∧
          (length rest ≤ 1)%nat ∧
          (upload_pending uploaded env now turns = false → length rest = 1%nat).
Proof.
  cbv zeta. unfold Session.handleFileSelect, upload_pending.
  cbv zeta. unfold Session.leaveConversation.
  destruct s as [[cs cur ctx pv w] ds on dm tf dmsg up].
  cbn [Session.app chatContext currentConversationId].
  destruct uploaded as [data|err];
    [destruct (or_else (data_task_id data) (data_taskId data)) as [taskId|];
     [destruct (ApiService.pollUploadStatus env now turns) as [p|finalStatus p|err p];
      rewrite foldl_onUpdate;
      [destruct (ApiService.delivered p) as [|i l]
      |destruct (ApiService.delivered p) as [|i l];
       (case_bool_decide; [destruct docs as [[[|d ds']|]|e]|])
      |destruct (ApiService.delivered p) as [|i l]]
     |destruct docs as [[[|d ds']|]|e]]|];
    destruct (0 <? length ctx)%nat;
    (split; [done|]); (split; [done|]); (split; [done|]);
    (eexists; split; [reflexivity|]; split; [cbn; lia|done]).
Qed.


(** What a confirmed deletion of a document leaves. *)
Lemma handleConfirmDelete_spec deleted docs s :
  let s' := Session.handleConfirmDelete messageOf deleted docs s in
  match or_else (Session.targetFileToDelete s) None with
  | None => s' = s
  | Some filename =>
      keeps_conversations (Session.app s) (Session.app s') ∧
      currentConversationId (Session.app s') =
        (if (0 <? length (chatContext (Session.app s)))%nat then None
         else currentConversationId (Session.app s)) ∧
      Session.isFileUploading s' = Session.isFileUploading s ∧
      Session.targetFileToDelete s' = None ∧
      Session.deleteModalActive s' = false ∧
      ∃ reply, chatContext (Session.app s') =
                 [textMsg User ("문서 삭제 요청: " +:+ filename); reply]
  end.
Proof.
  cbv zeta. unfold Session.handleConfirmDelete.
  destruct (or_else (Session.targetFileToDelete s) None) as [filename|]; [|done].
  unfold Session.leaveConversation.
  destruct s as [[cs cur ctx pv w] ds on dm tf dmsg up].
  cbn [Session.app chatContext currentConversationId Session.closeDeleteModal
       Session.setDeleteModal Session.isFileUploading].
  destruct deleted as [[]|err]; [destruct docs as [[[|d ds']|]|e]|];
    destruct (0 <? length ctx)%nat;
    (split; [done|]); (split; [done|]); (split; [done|]); (split; [done|]);
    (split; [done|]); eexists; reflexivity.
Qed.

Lemma handleSendMessage_blank now resp a :
  trim (promptValue a) = "" →
  Session.handleSendMessage trim fromCharCode messageOf now resp a = a.
Proof.
  intros H. unfold Session.handleSendMessage, handleSendMessage_begin.
  by rewrite H.
Qed.

(** A whole Send flow, for a prompt that is not blank. *)
Lemma handleSendMessage_summary now resp a :
  trim (promptValue a) ≠ "" →
  active_listed a →
  let text := trim (promptValue a) in
  let ctx := chatContext a ++ [textMsg User text] in
  let final := ctx ++ [answerMessage fromCharCode messageOf resp] in
  ∃ i upd,
    (if falsy (currentConversationId a)
     then i = toString now ∧
          upd = {| id := i; title := text; messages := ctx; createdAt := i |}
                  :: conversations a
     else currentConversationId a = Some i ∧
          upd = withMessages i ctx (conversations a)) ∧
    (∃ c, List.find (λ c, bool_decide (id c = i)) upd = Some c) ∧
    Session.handleSendMessage trim fromCharCode messageOf now resp a =
      saveConversations (withMessages i final upd)
        {| conversations := withMessages i final upd;
           currentConversationId := Some i;
           chatContext := final;
           promptValue := "";
           world := world (saveConversations upd a) |}.
Proof.
  intros Ht Hinv text ctx final.
  assert (∃ i upd,
    (if falsy (currentConversationId a)
     then i = toString now ∧
          upd = {| id := i; title := text; messages := ctx; createdAt := i |}
                  :: conversations a
     else currentConversationId a = Some i ∧
          upd = withMessages i ctx (conversations a)) ∧
    (∃ c, List.find (λ c, bool_decide (id c = i)) upd = Some c) ∧
    handleSendMessage_begin trim now a =
      (Some {| convId := i; newContext := ctx; updatedConversations := upd;
               accumulatedText := "" |},
       saveConversations upd
         {| conversations := upd; currentConversationId := Some i;
            chatContext := ctx ++ [loadingMsg]; promptValue := "";
            world := world a |})) as (i & upd & Hcase & Hfind & Hb).
  { unfold handleSendMessage_begin. rewrite bool_decide_eq_false_2 by done.
    cbn [setPromptValue setChatContext currentConversationId chatContext
         conversations].
    destruct (falsy (currentConversationId a)) eqn:Hf.
    - eexists _, _. split; [done|]. split; [|done].
      eexists. cbn. by rewrite bool_decide_eq_true_2.
    - destruct (currentConversationId a) as [j|] eqn:Hj; [|done].
      cbn [falsy default] in *. apply bool_decide_eq_false in Hf.
      destruct (Hinv j Hj Hf) as [c Hc].
      exists j, (withMessages j ctx (conversations a)).
      split; [done|]. split.
      + eexists. by apply AppFacts.find_withMessages.
      + unfold setConversations. cbn. by rewrite Hj. }
  exists i, upd. split; [done|]. split; [done|].
  unfold Session.handleSendMessage. rewrite Hb.
  unfold final, answerMessage.
  destruct (StreamConsumer.streamChatMessage resp) as [result calls].
  change (foldl (λ fs chunk, onChunk chunk fs) ?x ?l) with (onChunks l x).
  match goal with |- context [onChunks ?l (?f, ?s)] =>
    destruct (AppFacts.onChunks_spec l f s) as (E1 & E2 & E3 & E4 & E5 & E6 & E7 & E8 & _);
    destruct (onChunks l (f, s)) as [f' s'] end.
  cbn [fst snd convId newContext updatedConversations accumulatedText] in *.
  destruct f' as [i' ctx' upd' acc']. destruct s' as [cs' cur' buf' pv' w'].
  cbn in E1, E2, E3, E4, E5, E6, E7, E8. subst.
  destruct result as [t|e]; reflexivity.
Qed.

(** *** What each handler maintains *)

Lemma consistent_handleOpenConversation i a :
  consistent a → consistent (handleOpenConversation i a).
Proof.
  intros (Hr & Hs & Ha). split; [|split].
  - unfold handleOpenConversation. by destruct (List.find _ _).
  - unfold handleOpenConversation. by destruct (List.find _ _).
  - by apply AppFacts.active_listed_handleOpenConversation.
Qed.

Lemma faithful_handleOpenConversation i a :
  consistent a → faithful a → faithful (handleOpenConversation i a).
Proof.
  intros (Hr & Hs & Ha) [Hsh Hne]. unfold handleOpenConversation.
  destruct (List.find _ (conversations a)) as [conv|] eqn:E; [|done].
  split; [|done]. intros j [= <-] Hn.
  exact (persisted_in_sync a i conv Hs E).
Qed.

Lemma handleDeleteConversation_found i a c :
  List.find (λ c, bool_decide (id c = i)) (conversations a) = Some c →
  roomy (LocalStorage.store (world a)) →
  let l := List.filter (λ c, negb (bool_decide (id c = i))) (conversations a) in
  let a' := handleDeleteConversation i a in
  conversations a' = l ∧ persisted a' = Some l ∧
  roomy (LocalStorage.store (world a')) ∧
  promptValue a' = promptValue a ∧
  (currentConversationId a = Some i →
   currentConversationId a' = None ∧ chatContext a' = []) ∧
  (currentConversationId a ≠ Some i →
   currentConversationId a' = currentConversationId a ∧
   chatContext a' = chatContext a).
Proof.
  intros Hf Hr l a'. subst a'. unfold handleDeleteConversation. rewrite Hf.
  fold l.
  assert (persisted (saveConversations l (setConversations l a)) = Some l) as Hp.
  { apply AppFacts.persisted_saveConversations. apply Hr. }
  assert (roomy (LocalStorage.store
                   (world (saveConversations l (setConversations l a))))) as Hr'.
  { by apply roomy_saveConversations. }
  case_bool_decide as Hi.
  - split; [done|]. split; [exact Hp|]. split; [exact Hr'|]. split; [done|].
    split; done.
  - split; [done|]. split; [exact Hp|]. split; [exact Hr'|]. split; [done|].
    split; done.
Qed.

Lemma consistent_handleDeleteConversation i a :
  consistent a → consistent (handleDeleteConversation i a).
Proof.
  intros (Hr & Hs & Ha).
  destruct (List.find (λ c, bool_decide (id c = i)) (conversations a))
    as [c|] eqn:E.
  - destruct (handleDeleteConversation_found i a c E Hr)
      as (H1 & H2 & H3 & _). cbv zeta in *.
    split; [done|]. split.
    + unfold in_sync. by rewrite H1, H2.
    + by apply AppFacts.active_listed_handleDeleteConversation.
  - unfold handleDeleteConversation. by rewrite E.
Qed.

Lemma faithful_handleDeleteConversation i a :
  consistent a → faithful a → faithful (handleDeleteConversation i a).
Proof.
  intros (Hr & Hs & Ha) [Hsh Hne].
  destruct (List.find (λ c, bool_decide (id c = i)) (conversations a))
    as [c|] eqn:E.
  - destruct (handleDeleteConversation_found i a c E Hr)
      as (H1 & H2 & _ & _ & H4 & H5). cbv zeta in *.
    split; [|rewrite H1; by apply all_nonempty_filter].
    intros j Hj Hn.
    destruct (decide (currentConversationId a = Some i)) as [Hi|Hi].
    { destruct (H4 Hi) as [H6 _]. by rewrite H6 in Hj. }
    destruct (H5 Hi) as [H6 H7]. rewrite H6 in Hj. rewrite H7.
    destruct (in_sync_persistedMessages a j _ Hs (Hsh j Hj Hn)) as (c' & Hc' & <-).
    unfold persistedMessages. rewrite H2.
    rewrite (AppFacts.find_filter_other i j _ c'); [done| |done].
    intros ->. by rewrite Hj in Hi.
  - unfold handleDeleteConversation. by rewrite E.
Qed.

Lemma handleSendMessage_maintains now resp a :
  consistent a →
  let a' := Session.handleSendMessage trim fromCharCode messageOf now resp a in
  consistent a' ∧ (faithful a → faithful a').
Proof.
  intros (Hr & Hs & Ha) a'. subst a'.
  destruct (decide (trim (promptValue a) = "")) as [Hb|Hb].
  { rewrite handleSendMessage_blank by done. done. }
  destruct (handleSendMessage_summary now resp a Hb Ha)
    as (i & upd & Hcase & [c Hc] & ->).
  set (ctx := chatContext a ++ [textMsg User (trim (promptValue a))]) in *.
  set (final := ctx ++ [answerMessage fromCharCode messageOf resp]) in *.
  set (l := withMessages i final upd).
  set (r := {| conversations := l; currentConversationId := Some i;
               chatContext := final; promptValue := "";
               world := world (saveConversations upd a) |}).
  assert (roomy (LocalStorage.store (world r))) as Hr1.
  { by apply roomy_saveConversations. }
  assert (persisted (saveConversations l r) = Some l) as Hp.
  { apply AppFacts.persisted_saveConversations. apply Hr1. }
  assert (List.find (λ c, bool_decide (id c = i)) l =
          Some {| id := id c; title := title c; messages := final;
                  createdAt := createdAt c |}) as Hl.
  { by apply AppFacts.find_withMessages. }
  split.
  - split; [by apply roomy_saveConversations|]. split.
    + unfold in_sync. by rewrite Hp.
    + intros j [= <-] _. eexists. exact Hl.
  - intros [Hsh Hne]. split.
    + intros j [= <-] _. unfold persistedMessages. rewrite Hp. cbn. by rewrite Hl.
    + cbn. apply withMessages_nonempty.
      { subst final. by destruct ctx. }
      destruct (falsy (currentConversationId a)).
      * destruct Hcase as [_ ->]. constructor; [|done].
        cbn. subst ctx. by destruct (chatContext a).
      * destruct Hcase as [_ ->]. apply withMessages_nonempty; [|done].
        subst ctx. by destruct (chatContext a).
Qed.

Lemma handle_maintains s e :
  consistent (Session.app s) →
  let s' := Session.handle trim fromCharCode messageOf s e in
  consistent (Session.app s') ∧
  (faithful (Session.app s) → faithful (Session.app s')).
Proof.
  intros Hc. destruct e; cbn [Session.handle]; cbv zeta.
  - destruct (loadDocuments_frame docs s) as (K & C & X & _). cbv zeta in *.
    split; [by apply (consistent_keeps (Session.app s)); auto|].
    apply faithful_keeps; auto.
  - split.
    + apply (consistent_keeps (Session.app s)); [|by right|done].
      apply keeps_handleNewChat.
    + apply faithful_keeps; [apply keeps_handleNewChat|by left|done].
  - split; [by apply consistent_handleOpenConversation|].
    by apply faithful_handleOpenConversation.
  - split; [by apply consistent_handleDeleteConversation|].
    by apply faithful_handleDeleteConversation.
  - split; [by apply (consistent_keeps (Session.app s)); auto|].
    apply faithful_keeps; auto. done.
  - by apply handleSendMessage_maintains.
  - destruct (handleFileSelect_spec name uploaded env now turns docs s)
      as (K & C & _). cbv zeta in *.
    split.
    + apply (consistent_keeps (Session.app s)); [done| |done].
      rewrite C. destruct (0 <? _)%nat; auto.
    + apply faithful_keeps; [done| |done]. rewrite C.
      destruct (chatContext (Session.app s)); cbn; auto.
  - split; [done|done].
  - split; [done|done].
  - pose proof (handleConfirmDelete_spec deleted docs s) as H. cbv zeta in H.
    destruct (or_else (Session.targetFileToDelete s) None) as [filename|].
    + destruct H as (K & C & _). split.
      * apply (consistent_keeps (Session.app s)); [done| |done].
        rewrite C. destruct (0 <? _)%nat; auto.
      * apply faithful_keeps; [done| |done]. rewrite C.
        destruct (chatContext (Session.app s)); cbn; auto.
    + rewrite H. done.
Qed.

Lemma session_maintains events : ∀ s,
  consistent (Session.app s) →
  let s' := foldl (Session.handle trim fromCharCode messageOf) s events in
  consistent (Session.app s') ∧
  (faithful (Session.app s) → faithful (Session.app s')).
Proof.
  induction events as [|e events IH]; intros s Hc; [done|].
  cbn [foldl]. destruct (handle_maintains s e Hc) as [Hc' Hf'].
  destruct (IH _ Hc') as [Hc'' Hf'']. split; [done|]. auto.
Qed.

End Flows.

(** The component mounts in a consistent state, with no conversation
    active. *)
Lemma mount_consistent toLocaleString now w :
  roomy (LocalStorage.store w) →
  let a := Session.app (Session.mount toLocaleString now w) in
  consistent a ∧ currentConversationId a = None ∧ chatContext a = [].
Proof.
  intros Hr. unfold Session.mount, LocalStorage.loadConversations,
    LocalStorage.loadConversations_try, LocalStorage.saveConversations,
    setItem_conversations.
  destruct w as [[cv ch md acc af] con]. cbn in Hr.
  assert (∀ cs, acc cs = true) as Hacc by apply Hr.
  cbn [LocalStorage.store conversations_v1 chat_history_v1 accepts].
  destruct cv as [[| | | |l]|], ch as [[| | | |msgs]|];
    cbn [truthy JSON_parse orEmpty]; rewrite ?Hacc; cbn;
    (split; [|done]); (split; [done|]); (split; [done|]);
    intros i Hi; discriminate.
Qed.

(** *** Sessions *)

Section Sessions.

Variable toLocaleString : Z → string.
Variable trim : string → string.
Variable fromCharCode : list Z → string.
Variable messageOf : exn → string.

(** X9.  The list on screen is the stored list, throughout a session.  Let
    the component mount on a browser that has room for every write, and let
    any sequence of events follow, each handled to its end before the next:
    new chat, opening and deleting conversations, typing, sending with any
    response of the server, uploads with any answers, deleting documents.
    Then the component's list of conversations equals the list stored under
    the conversations key (the empty list when no list is stored), and the
    active conversation, when there is one, is in that list. *)
Theorem session_store_in_sync (now : Z) (w : LocalStorage.world)
    (events : list Session.event) :
  roomy (LocalStorage.store w) →
  let s := foldl (Session.handle trim fromCharCode messageOf)
             (Session.mount toLocaleString now w) events in
  conversations (Session.app s) = default [] (persisted (Session.app s)) ∧
  active_listed (Session.app s).
Proof.
  intros Hr s.
  destruct (mount_consistent toLocaleString now w Hr) as [Hc _].
  destruct (session_maintains trim fromCharCode messageOf events _ Hc)
    as [(_ & Hs & Ha) _].
  split; [exact Hs|exact Ha].
Qed.



(** X12.  Deleting a document never writes the conversations.  With a
    document chosen in the modal, [handleConfirmDelete] closes the modal,
    leaves the conversation that was active when the buffer was not empty,
    and ends with a buffer of two messages, the request and its outcome,
    whatever the server answers; the store and the component's list of
    conversations stay as they are.  With no document chosen it does
    nothing. *)
Theorem document_deletion_keeps_store (deleted : completion unit)
    (docs : documentsReply) (s : Session.state) :
  let s' := Session.handleConfirmDelete messageOf deleted docs s in
  match Session.targetFileToDelete s with
  | None => s' = s
  | Some filename =>
      if bool_decide (filename = "") then s' = s
      else
        LocalStorage.store (world (Session.app s')) =
          LocalStorage.store (world (Session.app s)) ∧
        conversations (Session.app s') = conversations (Session.app s) ∧
        currentConversationId (Session.app s') =
          (if (0 <? length (chatContext (Session.app s)))%nat then None
           else currentConversationId (Session.app s)) ∧
        Session.targetFileToDelete s' = None ∧
        Session.deleteModalActive s' = false ∧
        ∃ reply, chatContext (Session.app s') =
                   [textMsg User ("문서 삭제 요청: " +:+ filename); reply]
  end.
Proof.
  pose proof (handleConfirmDelete_spec messageOf deleted docs s) as H.
  cbv zeta in *. destruct (Session.targetFileToDelete s) as [filename|]; [|done].
  cbn [or_else] in H. case_bool_decide; [done|].
  destruct H as ([K1 K2] & C & _ & T & M & R). done.
Qed.

Lemma answerMessage_decoded (text : list Z) (cs : list (list Z)) :
  Forall scalar text →
  concat cs = utf8_encode text →
  cs ≠ [] →
  answerMessage fromCharCode messageOf
    {| StreamConsumer.ok := true;
       StreamConsumer.body :=
         Some {| StreamConsumer.chunks := cs; StreamConsumer.failure := None |} |}
  = textMsg Model (fromCharCode (utf16 (strip_BOM text))).
Proof.
  intros Ht Hcs Hne.
  destruct (StreamFacts.readAll_encoded text cs Ht Hcs) as [Ha _].
  unfold answerMessage, StreamConsumer.streamChatMessage.
  cbn [StreamConsumer.ok StreamConsumer.body StreamConsumer.chunks
       StreamConsumer.failure negb].
  f_equal. rewrite <- Ha. clear Ha Hcs.
  destruct cs as [|c cs _] using rev_ind; [done|].
  unfold StreamConsumer.readAll. rewrite foldl_snoc.
  unfold StreamConsumer.read at 1 3. destruct (TextDecoder.decode c _).
  cbn [StreamConsumer.calls StreamConsumer.accumulatedText].
  rewrite fmap_app. cbn [fmap list_fmap]. by rewrite last_last.
Qed.

Lemma new_conversation_stored now resp a :
  trim (promptValue a) ≠ "" →
  falsy (currentConversationId a) = true →
  Forall (λ c, id c ≠ toString now) (conversations a) →
  roomy (LocalStorage.store (world a)) →
  let text := trim (promptValue a) in
  let final := chatContext a ++
                 [textMsg User text; answerMessage fromCharCode messageOf resp] in
  let conv := {| id := toString now; title := text; messages := final;
                 createdAt := toString now |} in
  let a' := Session.handleSendMessage trim fromCharCode messageOf now resp a in
  conversations a' = conv :: conversations a ∧
  persisted a' = Some (conv :: conversations a) ∧
  currentConversationId a' = Some (toString now) ∧
  chatContext a' = final ∧ promptValue a' = "".
Proof.
  intros Ht Hf Hfresh Hr text final conv a'.
  assert (active_listed a) as Ha.
  { intros i Hi Hn. rewrite Hi in Hf. cbn in Hf.
    by apply bool_decide_eq_true in Hf. }
  destruct (handleSendMessage_summary trim fromCharCode messageOf now resp a Ht Ha)
    as (i & upd & Hcase & _ & E).
  rewrite Hf in Hcase. destruct Hcase as [-> ->]. subst a'. rewrite E.
  assert (withMessages (toString now)
            ((chatContext a ++ [textMsg User (trim (promptValue a))]) ++
             [answerMessage fromCharCode messageOf resp])
            ({| id := toString now; title := trim (promptValue a);
                messages := chatContext a ++ [textMsg User (trim (promptValue a))];
                createdAt := toString now |} :: conversations a)
          = conv :: conversations a) as ->.
  { cbn. rewrite bool_decide_eq_true_2 by done.
    fold (withMessages (toString now)
            ((chatContext a ++ [textMsg User (trim (promptValue a))]) ++
             [answerMessage fromCharCode messageOf resp]) (conversations a)).
    rewrite withMessages_fresh by done. subst conv final text.
    by rewrite <- app_assoc. }
  split; [done|]. split.
  { apply AppFacts.persisted_saveConversations. cbn [world].
    rewrite AppFacts.accepts_saveConversations. apply Hr. }
  split; [done|]. split; [|done]. cbn. subst final text. by rewrite <- app_assoc.
Qed.

(** X13.  A question asked with no conversation active, from the request to
    the store.  Let the prompt not be blank, let no stored conversation have
    the time in milliseconds as its id, and let the browser have room.  When
    the body of the response is the UTF-8 encoding of a text, cut into
    chunks anywhere, the Send flow ends with one new conversation at the
    head of the list on screen and of the stored list: its id and its
    creation time are the time as digits, its title is the trimmed prompt,
    and its messages are the buffer as it was, the question and the decoded
    answer; the buffer holds the same messages, the conversation is active
    and the prompt is empty.  When instead a read of the body fails, after
    any number of chunks, the last message is the error message, with the
    error icon: the text received so far is neither shown nor stored. *)
Theorem send_end_to_end (now : Z) (a : state) (text : list Z)
    (cs : list (list Z)) (fl : option exn) :
  trim (promptValue a) ≠ "" →
  falsy (currentConversationId a) = true →
  Forall (λ c, id c ≠ toString now) (conversations a) →
  roomy (LocalStorage.store (world a)) →
  Forall scalar text →
  concat cs = utf8_encode text →
  cs ≠ [] →
  let question := trim (promptValue a) in
  let reply :=
    match fl with
    | None => textMsg Model (fromCharCode (utf16 (strip_BOM text)))
    | Some e =>
        iconMsg Model
          ("오류가 발생했습니다: " +:+ Session.getErrorMessage messageOf e) IconError
    end in
  let conv := {| id := toString now; title := question;
                 messages := chatContext a ++ [textMsg User question; reply];
                 createdAt := toString now |} in
  let a' := Session.handleSendMessage trim fromCharCode messageOf now
              {| StreamConsumer.ok := true;
                 StreamConsumer.body :=
                   Some {| StreamConsumer.chunks := cs;
                           StreamConsumer.failure := fl |} |} a in
  conversations a' = conv :: conversations a ∧
  persisted a' = Some (conv :: conversations a) ∧
  currentConversationId a' = Some (toString now) ∧
  chatContext a' = chatContext a ++ [textMsg User question; reply] ∧
  promptValue a' = "".
Proof.
  intros Ht Hf Hfresh Hr Hs Hcs Hne question reply conv a'.
  pose proof (new_conversation_stored now
                {| StreamConsumer.ok := true;
                   StreamConsumer.body :=
                     Some {| StreamConsumer.chunks := cs;
                             StreamConsumer.failure := fl |} |} a Ht Hf Hfresh Hr)
    as H. cbv zeta in H.
  assert (answerMessage fromCharCode messageOf
            {| StreamConsumer.ok := true;
               StreamConsumer.body :=
                 Some {| StreamConsumer.chunks := cs;
                         StreamConsumer.failure := fl |} |} = reply) as E.
  { subst reply. destruct fl as [e|].
    - reflexivity.
    - by apply answerMessage_decoded. }
  rewrite E in H. exact H.
Qed.

(** X14.  A question asked in an active conversation changes that
    conversation only.  Let the prompt not be blank, let the active
    conversation be in the list and the browser have room.  After the Send
    flow, whatever the response, the list on screen is the stored list; it
    has the same conversations as before at the same places, with the same
    ids, titles and creation times; the messages of the conversations with
    the active id are the buffer as it was, the question and the final
    message, and the messages of every other conversation are untouched. *)
Theorem send_updates_active_conversation (now : Z) (resp : StreamConsumer.response)
    (a : state) (i : string) (c : Conversation) :
  trim (promptValue a) ≠ "" →
  currentConversationId a = Some i → i ≠ "" →
  List.find (λ c, bool_decide (id c = i)) (conversations a) = Some c →
  roomy (LocalStorage.store (world a)) →
  let a' := Session.handleSendMessage trim fromCharCode messageOf now resp a in
  ∃ reply,
    chatContext a' =
      chatContext a ++ [textMsg User (trim (promptValue a)); reply] ∧
    currentConversationId a' = Some i ∧
    persisted a' = Some (conversations a') ∧
    length (conversations a') = length (conversations a) ∧
    ∀ k c, conversations a !! k = Some c →
      conversations a' !! k =
        Some (if bool_decide (id c = i)
              then {| id := id c; title := title c;
                      messages := chatContext a';
                      createdAt := createdAt c |}
              else c).
Proof.
  intros Ht Hi Hn Hc Hr a'.
  assert (active_listed a) as Ha.
  { intros j Hj _. rewrite Hi in Hj. injection Hj as <-. by exists c. }
  destruct (handleSendMessage_summary trim fromCharCode messageOf now resp a Ht Ha)
    as (j & upd & Hcase & _ & E).
  rewrite Hi in Hcase. cbn [falsy] in Hcase.
  rewrite bool_decide_eq_false_2 in Hcase by done.
  destruct Hcase as [[= <-] ->]. subst a'. rewrite E.
  rewrite withMessages_twice.
  exists (answerMessage fromCharCode messageOf resp).
  split; [cbn; by rewrite <- app_assoc|]. split; [done|]. split.
  { apply AppFacts.persisted_saveConversations. cbn [world].
    rewrite AppFacts.accepts_saveConversations. apply Hr. }
  split; [cbn; unfold withMessages; by rewrite length_map|].
  intros k c' Hk. cbn. by apply withMessages_lookup.
Qed.

(** X15.  An upload is stored with the next question.  After an upload flow
    that has ended, in a session where the buffer was not empty or no
    conversation was active, the buffer holds the upload message and its
    outcome and no conversation is active.  A question sent next creates a
    conversation whose stored messages begin with those two messages,
    followed by the question and the final message of the Send flow: the
    messages of the upload, which the upload flow itself never stores, are
    stored with the first question after it. *)
Theorem upload_is_stored_with_next_question (name : string)
    (uploaded : completion uploadData) (env : nat → exchange) (now : Z)
    (turns : nat) (docs : documentsReply) (s : Session.state)
    (p : string) (now' : Z) (resp : StreamConsumer.response) :
  upload_pending uploaded env now turns = false →
  chatContext (Session.app s) ≠ [] ∨
    falsy (currentConversationId (Session.app s)) = true →
  roomy (LocalStorage.store (world (Session.app s))) →
  Forall (λ c, id c ≠ toString now') (conversations (Session.app s)) →
  trim p ≠ "" →
  let s1 := Session.handleFileSelect messageOf name uploaded env now turns docs s in
  let s2 := Session.handle trim fromCharCode messageOf
              (Session.handle trim fromCharCode messageOf s1
                 (Session.PromptChange p))
              (Session.SendMessage now' resp) in
  ∃ outcome reply,
    chatContext (Session.app s1) =
      [textMsg User ("파일 업로드: " +:+ name); outcome] ∧
    falsy (currentConversationId (Session.app s1)) = true ∧
    persisted (Session.app s1) = persisted (Session.app s) ∧
    persisted (Session.app s2) =
      Some ({| id := toString now'; title := trim p;
               messages := [textMsg User ("파일 업로드: " +:+ name); outcome;
                            textMsg User (trim p); reply];
               createdAt := toString now' |} :: conversations (Session.app s)).
Proof.
  intros Hp Hidle Hr Hfresh Ht s1 s2.
  destruct (handleFileSelect_spec messageOf name uploaded env now turns docs s)
    as ([K1 K2] & C & _ & rest & Hctx & _ & Hlen). fold s1 in K1, K2, C, Hctx.
  specialize (Hlen Hp). destruct rest as [|outcome [|? ?]]; [done| |done].
  assert (falsy (currentConversationId (Session.app s1)) = true) as Hf.
  { rewrite C. destruct Hidle as [H|H].
    - by destruct (chatContext (Session.app s)).
    - by destruct (0 <? _)%nat. }
  exists outcome, (answerMessage fromCharCode messageOf resp).
  split; [done|]. split; [done|]. split; [by apply persisted_same_store|].
  subst s2. cbn [Session.handle Session.app Session.onApp].
  destruct (new_conversation_stored now' resp (setPromptValue p (Session.app s1)))
    as (_ & H & _).
  - done.
  - done.
  - cbn. by rewrite K2.
  - cbn. by rewrite K1.
  - cbv zeta in H. rewrite H. cbn. by rewrite Hctx, K2.
Qed.

Lemma ids_withMessages i ms cs : id <$> withMessages i ms cs = id <$> cs.
Proof.
  unfold withMessages. change (List.map ?f cs) with (f <$> cs).
  rewrite <- list_fmap_compose. apply list_fmap_ext. intros _ c _. cbn.
  by case_bool_decide.
Qed.

Lemma ids_filter_NoDup (P : Conversation → bool) cs :
  NoDup (id <$> cs) → NoDup (id <$> List.filter P cs).
Proof.
  induction cs as [|c cs IH]; [done|]. cbn. rewrite NoDup_cons.
  intros [Hc Hcs]. destruct (P c); [|by apply IH].
  cbn. rewrite NoDup_cons. split; [|by apply IH].
  intros Hin. apply Hc. apply list_elem_of_fmap in Hin as (c' & -> & Hc').
  apply list_elem_of_fmap. exists c'. split; [done|].
  apply list_elem_of_In. apply list_elem_of_In in Hc'.
  by apply filter_In in Hc' as [? _].
Qed.

Lemma NoDup_List_filter {A} (P : A → bool) (l : list A) :
  NoDup l → NoDup (List.filter P l).
Proof.
  induction 1 as [|x l Hx Hl IH]; cbn; [constructor|].
  destruct (P x); [|done]. constructor; [|done].
  intros Hin. apply Hx. apply list_elem_of_In. apply list_elem_of_In in Hin.
  by apply filter_In in Hin as [? _].
Qed.

Lemma ids_filter i cs :
  id <$> List.filter (λ c, negb (bool_decide (id c = i))) cs =
  List.filter (λ j, negb (bool_decide (j = i))) (id <$> cs).
Proof.
  induction cs as [|c cs IH]; [done|]. cbn.
  destruct (bool_decide (id c = i)); cbn; by rewrite IH.
Qed.

Lemma ids_filter_absent i cs :
  List.find (λ c, bool_decide (id c = i)) cs = None →
  List.filter (λ j, negb (bool_decide (j = i))) (id <$> cs) = id <$> cs.
Proof.
  induction cs as [|c cs IH]; [done|]. cbn.
  destruct (bool_decide (id c = i)); [done|]. cbn. intros H. by rewrite IH.
Qed.

(** X16.  How the ids of the conversations change, and that they stay
    distinct.  In a session whose active conversation is in the list, the
    ids of the list on screen after an event are: for a Send with a prompt
    that is not blank and no conversation active, the time in milliseconds,
    as decimal digits, put in front of the ids there were; for any other
    Send, the ids there were; for the deletion of a conversation, the ids
    there were without every occurrence of the deleted id; for every other
    event, the ids there were.  So the ids stay pairwise distinct when they
    were, provided that a Send that adds an id does so at a time whose digits
    are not yet the id of a conversation. *)
Theorem conversation_ids_stay_distinct (s : Session.state) (e : Session.event) :
  active_listed (Session.app s) →
  let ids := id <$> conversations (Session.app s) in
  let ids' := id <$> conversations
                       (Session.app (Session.handle trim fromCharCode messageOf s e)) in
  ids' =
    match e with
    | Session.SendMessage now _ =>
        if bool_decide (trim (promptValue (Session.app s)) = "") then ids
        else if falsy (currentConversationId (Session.app s))
             then toString now :: ids
             else ids
    | Session.DeleteConversation i =>
        List.filter (λ j, negb (bool_decide (j = i))) ids
    | _ => ids
    end ∧
  (NoDup ids →
   (∀ now resp,
      e = Session.SendMessage now resp →
      trim (promptValue (Session.app s)) ≠ "" →
      falsy (currentConversationId (Session.app s)) = true →
      toString now ∉ ids) →
   NoDup ids').
Proof.
  intros Ha ids ids'.
  assert (ids' =
    match e with
    | Session.SendMessage now _ =>
        if bool_decide (trim (promptValue (Session.app s)) = "") then ids
        else if falsy (currentConversationId (Session.app s))
             then toString now :: ids
             else ids
    | Session.DeleteConversation i =>
        List.filter (λ j, negb (bool_decide (j = i))) ids
    | _ => ids
    end) as Hids.
  { subst ids ids'. destruct e; cbn [Session.handle].
    - by destruct (loadDocuments_frame docs s) as ([_ ->] & _).
    - done.
    - cbn. unfold handleOpenConversation. by destruct (List.find _ _).
    - cbn [Session.app Session.onApp]. unfold handleDeleteConversation.
      destruct (List.find _ _) eqn:E.
      + destruct (bool_decide (currentConversationId (Session.app s) = Some i));
          cbn; apply ids_filter.
      + symmetry. by apply ids_filter_absent.
    - done.
    - cbn [Session.app Session.onApp].
      case_bool_decide as Hb.
      { by rewrite handleSendMessage_blank. }
      destruct (handleSendMessage_summary trim fromCharCode messageOf now resp
                  (Session.app s) Hb Ha) as (i & upd & Hcase & _ & ->).
      cbn. rewrite ids_withMessages.
      destruct (falsy (currentConversationId (Session.app s))).
      + by destruct Hcase as [-> ->].
      + destruct Hcase as [_ ->]. by rewrite ids_withMessages.
    - by destruct (handleFileSelect_spec messageOf name uploaded env now turns
                     docs s) as ([_ ->] & _).
    - done.
    - done.
    - pose proof (handleConfirmDelete_spec messageOf deleted docs s) as H.
      cbv zeta in H.
      destruct (or_else (Session.targetFileToDelete s) None) as [filename|].
      + by destruct H as ([_ ->] & _).
      + by rewrite H. }
  split; [exact Hids|].
  intros Hnd Hfresh. rewrite Hids. destruct e; try done.
  - by apply NoDup_List_filter.
  - case_bool_decide as Hb; [done|].
    destruct (falsy (currentConversationId (Session.app s))) eqn:Hf; [|done].
    apply NoDup_cons. split; [|done]. by apply (Hfresh now resp).
Qed.

End Sessions.

(** X17.  Deleting a conversation removes every record with its id, on screen
    and in the store.  On a browser with room, [handleDeleteConversation]
    with an id that is in the list leaves the other conversations, in their
    order, as the list on screen and as the stored list; no conversation
    with that id is left and nothing is stored for it; the buffer and the
    active id are emptied when, and only when, that conversation was the
    active one.  With an id that is not in the list it changes nothing, so
    deleting twice is deleting once. *)
Theorem delete_conversation_removes_everywhere (i : string) (a : state) :
  roomy (LocalStorage.store (world a)) →
  let l := List.filter (λ c, negb (bool_decide (id c = i))) (conversations a) in
  let a' := handleDeleteConversation i a in
  (List.find (λ c, bool_decide (id c = i)) (conversations a) = None → a' = a) ∧
  (List.find (λ c, bool_decide (id c = i)) (conversations a) ≠ None →
     conversations a' = l ∧ persisted a' = Some l ∧
     Forall (λ c, id c ≠ i) l ∧ persistedMessages i a' = None ∧
     (currentConversationId a = Some i →
      currentConversationId a' = None ∧ chatContext a' = []) ∧
     (currentConversationId a ≠ Some i →
      currentConversationId a' = currentConversationId a ∧
      chatContext a' = chatContext a)) ∧
  handleDeleteConversation i a' = a'.
Proof.
  intros Hr l a'.
  assert (Forall (λ c, id c ≠ i) l) as Hl.
  { apply Forall_forall. intros c Hc. apply list_elem_of_In in Hc.
    apply filter_In in Hc as [_ Hc]. apply negb_true_iff in Hc.
    by apply bool_decide_eq_false in Hc. }
  assert (List.find (λ c, bool_decide (id c = i)) l = None) as Hnone.
  { destruct (List.find _ l) as [c|] eqn:E; [|done].
    apply find_some in E as [Hc Hi]. apply bool_decide_eq_true in Hi.
    rewrite Forall_forall in Hl. apply list_elem_of_In in Hc.
    by destruct (Hl c Hc). }
  destruct (List.find (λ c, bool_decide (id c = i)) (conversations a))
    as [c|] eqn:E.
  - destruct (handleDeleteConversation_found i a c E Hr)
      as (H1 & H2 & _ & _ & H4 & H5). fold l a' in H1, H2, H4, H5.
    split; [done|]. split.
    + intros _. split; [done|]. split; [done|]. split; [done|].
      split; [|done]. unfold persistedMessages. by rewrite H2, Hnone.
    + unfold handleDeleteConversation at 1. by rewrite H1, Hnone.
  - assert (a' = a) as Ea.
    { subst a'. unfold handleDeleteConversation. by rewrite E. }
    split; [done|]. split; [done|]. rewrite Ea.
    unfold handleDeleteConversation. by rewrite E.
Qed.

(** *** Ids and titles *)

Lemma toString_nonempty (n : Z) : toString n ≠ "".
Proof.
  assert (∀ x s, s ≠ "" → pretty_N_go x s ≠ "") as Hgo.
  { intros x s Hs E. pose proof (pretty_N_go_length x s) as Hl.
    rewrite E in Hl. destruct s; [done|]. cbn in Hl. lia. }
  unfold toString, pretty, pretty_Z. destruct n as [|p|p]; [done| |done].
  unfold pretty, pretty_positive, pretty, pretty_N.
  rewrite decide_False by done. rewrite pretty_N_go_step by lia.
  by apply Hgo.
Qed.

Lemma named_withMessages i ms cs :
  Forall named cs → Forall named (withMessages i ms cs).
Proof.
  unfold withMessages. induction 1 as [|c cs Hc _ IH]; [constructor|].
  cbn. constructor; [|done]. by case_bool_decide.
Qed.

Section Names.

Variable toLocaleString : Z → string.
Variable trim : string → string.
Variable fromCharCode : list Z → string.
Variable messageOf : exn → string.

(** X18.  Every conversation has an id and a title.  The conversation that
    [loadConversations] makes of a legacy history has the time as its id and
    a title that is not empty, whatever the messages: the first text of the
    user if it is not empty, else the generated one.  And in a session on a
    browser with room in which the conversations loaded at mount have ids
    and titles that are not empty, so have all conversations in the list
    after any sequence of events: a Send creates a conversation only for a
    prompt that is not blank, and titles it with the trimmed prompt. *)
Theorem conversations_are_named (now : Z) (w : LocalStorage.world)
    (events : list Session.event) :
  roomy (LocalStorage.store w) →
  Forall named (conversations (Session.app (Session.mount toLocaleString now w))) →
  (∀ t msgs, named (migratedConversation ("대화 " +:+ toLocaleString t) t msgs)) ∧
  Forall named
    (conversations
       (Session.app
          (foldl (Session.handle trim fromCharCode messageOf)
             (Session.mount toLocaleString now w) events))).
Proof.
  intros Hr Hn. split.
  { intros t msgs. split; [apply toString_nonempty|]. cbn.
    unfold firstUserText. destruct (firstUser msgs) as [m|]; [|done].
    destruct (parts m) as [|p ps]; [done|]. by case_bool_decide. }
  destruct (mount_consistent toLocaleString now w Hr) as [Hc _].
  revert Hc Hn. generalize (Session.mount toLocaleString now w).
  induction events as [|e events IH]; intros s Hc Hn; [done|].
  cbn [foldl].
  destruct (handle_maintains trim fromCharCode messageOf s e Hc) as [Hc' _].
  apply IH; [done|]. clear IH Hc'. destruct Hc as (Hroom & Hs & Ha).
  destruct e; cbn [Session.handle].
  - by destruct (loadDocuments_frame docs s) as ([_ ->] & _).
  - done.
  - cbn. unfold handleOpenConversation. by destruct (List.find _ _).
  - cbn. unfold handleDeleteConversation.
    destruct (List.find _ _); [|done].
    assert (Forall named
              (List.filter (λ c, negb (bool_decide (id c = i)))
                 (conversations (Session.app s)))) as Hf.
    { rewrite Forall_forall in Hn. apply Forall_forall. intros c' Hc'.
      apply Hn. apply list_elem_of_In. apply list_elem_of_In in Hc'.
      by apply filter_In in Hc' as [? _]. }
    by case_bool_decide.
  - done.
  - cbn [Session.app Session.onApp].
    destruct (decide (trim (promptValue (Session.app s)) = "")) as [Hb|Hb].
    { by rewrite handleSendMessage_blank. }
    destruct (handleSendMessage_summary trim fromCharCode messageOf now0 resp
                (Session.app s) Hb Ha) as (i & upd & Hcase & _ & ->).
    cbn. apply named_withMessages.
    destruct (falsy (currentConversationId (Session.app s))).
    + destruct Hcase as [-> ->]. constructor; [|done].
      split; [apply toString_nonempty|done].
    + destruct Hcase as [_ ->]. by apply named_withMessages.
  - by destruct (handleFileSelect_spec messageOf name uploaded env now0 turns
                   docs s) as ([_ ->] & _).
  - done.
  - done.
  - pose proof (handleConfirmDelete_spec messageOf deleted docs s) as H.
    cbv zeta in H.
    destruct (or_else (Session.targetFileToDelete s) None) as [filename|].
    + by destruct H as ([_ ->] & _).
    + by rewrite H.
Qed.

End Names.

Lemma conversations_are_named_witness :
  Forall named
    (conversations
       (Session.app
          (foldl (Session.handle (λ p, p) fromLatin1 (λ _, ""))
             (Session.mount (λ _, "") 0 emptyWorld)
             [Session.PromptChange "hello";
              Session.SendMessage 1700000000000 respHi]))).
Proof.
  destruct (conversations_are_named (λ _, "") (λ p, p) fromLatin1 (λ _, "") 0
              emptyWorld
              [Session.PromptChange "hello";
               Session.SendMessage 1700000000000 respHi]) as [_ H].
  - apply AppFacts.roomy_emptyStorage.
  - apply Forall_nil_2.
  - exact H.
Defined.

(** A first question, answered; then a new chat, and the conversation is
    deleted. *)
Lemma session_store_in_sync_witness :
  let s := foldl (Session.handle (λ p, p) fromLatin1 (λ _, ""))
             (Session.mount (λ _, "") 0 emptyWorld)
             [Session.PromptChange "hello";
              Session.SendMessage 1700000000000 respHi;
              Session.NewChat;
              Session.DeleteConversation "1700000000000"] in
  conversations (Session.app s) = default [] (persisted (Session.app s)) ∧
  active_listed (Session.app s).
Proof.
  apply (session_store_in_sync (λ _, "") (λ p, p) fromLatin1 (λ _, "") 0 emptyWorld).
  apply AppFacts.roomy_emptyStorage.
Defined.


(** The question "hello" on an empty store, answered "Hi" in two chunks. *)
Lemma send_end_to_end_witness :
  persisted
    (Session.handleSendMessage (λ p, p) fromLatin1 (λ _, "") 1700000000000
       respHi (startWith "hello"))
  = Some [ {| id := toString 1700000000000; title := "hello";
              messages := [textMsg User "hello";
                           textMsg Model (fromLatin1 (utf16 (strip_BOM [0x48; 0x69])))];
              createdAt := toString 1700000000000 |} ].
Proof.
  destruct (send_end_to_end (λ p, p) fromLatin1 (λ _, "") 1700000000000
              (startWith "hello") [0x48; 0x69] [[0x48]; [0x69]] None)
    as (_ & H & _).
  - discriminate.
  - reflexivity.
  - apply Forall_nil_2.
  - apply AppFacts.roomy_emptyStorage.
  - repeat constructor; unfold scalar; lia.
  - reflexivity.
  - discriminate.
  - exact H.
Defined.

(** A second question in the conversation [older], with [newer] stored
    beside it. *)
Lemma send_updates_active_conversation_witness :
  let a := {| conversations := [newer; older];
              currentConversationId := Some "1700000000000";
              chatContext := []; promptValue := "again";
              world := emptyWorld |} in
  let a' := Session.handleSendMessage (λ p, p) fromLatin1 (λ _, "")
              1700000000100 respHi a in
  ∃ reply,
    chatContext a' = [textMsg User "again"; reply] ∧
    conversations a' !! 0%nat = Some newer.
Proof.
  intros a a'.
  destruct (send_updates_active_conversation (λ p, p) fromLatin1 (λ _, "")
              1700000000100 respHi a "1700000000000" older)
    as (reply & H1 & _ & _ & _ & H5).
  - discriminate.
  - reflexivity.
  - discriminate.
  - reflexivity.
  - apply AppFacts.roomy_emptyStorage.
  - exists reply. split; [exact H1|]. exact (H5 0%nat newer eq_refl).
Defined.

(** An upload that the server refuses, then the question "hello". *)
Lemma upload_is_stored_with_next_question_witness :
  let s := Session.mount (λ _, "") 0 emptyWorld in
  let s1 := Session.handleFileSelect (λ _, "") "a.pdf" (Throw (Error "too large"))
              stuck 0 0 (Documents None) s in
  let s2 := Session.handle (λ p, p) fromLatin1 (λ _, "")
              (Session.handle (λ p, p) fromLatin1 (λ _, "") s1
                 (Session.PromptChange "hello"))
              (Session.SendMessage 1700000000000 respHi) in
  ∃ outcome reply,
    persisted (Session.app s2) =
      Some [ {| id := toString 1700000000000; title := "hello";
                messages := [textMsg User ("파일 업로드: " +:+ "a.pdf"); outcome;
                             textMsg User "hello"; reply];
                createdAt := toString 1700000000000 |} ].
Proof.
  intros s s1 s2.
  destruct (upload_is_stored_with_next_question (λ p, p) fromLatin1 (λ _, "")
              "a.pdf" (Throw (Error "too large")) stuck 0 0 (Documents None) s
              "hello" 1700000000000 respHi)
    as (outcome & reply & _ & _ & _ & H).
  - reflexivity.
  - right. reflexivity.
  - apply AppFacts.roomy_emptyStorage.
  - apply Forall_nil_2.
  - discriminate.
  - exists outcome, reply. exact H.
Defined.

(** Deleting [older] from the list [newer; older] while it is active. *)
Lemma delete_conversation_removes_everywhere_witness :
  let a := {| conversations := [newer; older];
              currentConversationId := Some "1700000000000";
              chatContext := []; promptValue := "";
              world := emptyWorld |} in
  let a' := handleDeleteConversation "1700000000000" a in
  persisted a' = Some [newer] ∧ currentConversationId a' = None.
Proof.
  intros a a'.
  destruct (delete_conversation_removes_everywhere "1700000000000" a)
    as (_ & H & _).
  - apply AppFacts.roomy_emptyStorage.
  - destruct H as (_ & H2 & _ & _ & H5 & _); [discriminate|].
    split; [exact H2|]. by destruct H5.
Defined.

(** A first question in a session that has loaded two conversations: its
    id comes in front of theirs, and the three are distinct. *)
Lemma conversation_ids_stay_distinct_witness :
  let w := {| LocalStorage.store :=
                {| conversations_v1 := Some (ArrayOf [newer; older]);
                   chat_history_v1 := None; migration_done := None;
                   accepts := λ _, true; accepts_flag := true |};
              LocalStorage.console := [] |} in
  let s := Session.handle (λ p, p) fromLatin1 (λ _, "")
             (Session.mount (λ _, "") 0 w) (Session.PromptChange "hello") in
  let s' := Session.handle (λ p, p) fromLatin1 (λ _, "") s
              (Session.SendMessage 1700000000002 respHi) in
  id <$> conversations (Session.app s')
    = ["1700000000002"; "1700000000001"; "1700000000000"] ∧
  NoDup (id <$> conversations (Session.app s')).
Proof.
  intros w s s'.
  destruct (conversation_ids_stay_distinct (λ p, p) fromLatin1 (λ _, "") s
              (Session.SendMessage 1700000000002 respHi)) as [H1 H2].
  - intros i Hi. discriminate.
  - split; [exact H1|]. apply H2.
    + apply (bool_decide_unpack _). vm_compute. reflexivity.
    + intros now resp Hn _ _. injection Hn as <- _.
      apply (bool_decide_unpack _). vm_compute. reflexivity.
Defined.

End SessionFacts.

(** ** The conversation handlers of the static script *)

Module ScriptSessionFacts.
Import Script ScriptSession.

Lemma set_messages_of_first_spec i ms cs c :
  List.find (λ c, bool_decide (id c = i)) cs = Some c →
  ∃ cs', set_messages_of_first i ms cs = Some cs' ∧
    List.find (λ c, bool_decide (id c = i)) cs' =
      Some {| id := id c; title := title c; messages := ms;
              createdAt := createdAt c |} ∧
    ∀ j, j ≠ i →
      List.find (λ c, bool_decide (id c = j)) cs' =
      List.find (λ c, bool_decide (id c = j)) cs.
Proof.
  induction cs as [|c0 cs IH]; [done|]. cbn.
  destruct (bool_decide (id c0 = i)) eqn:E.
  - intros [= ->]. eexists. split; [done|]. cbn. rewrite E. split; [done|].
    intros j Hj. apply bool_decide_eq_true in E.
    by rewrite bool_decide_eq_false_2 by congruence.
  - intros H. destruct (IH H) as (cs' & -> & H1 & H2).
    eexists. split; [done|]. cbn. rewrite E. split; [done|].
    intros j Hj. by rewrite (H2 j Hj).
Qed.

Lemma script_stored_saveConversations i s :
  accepts (store s) (conversations s) = true →
  script_stored i (saveConversations s) =
    messages <$> List.find (λ c, bool_decide (id c = i)) (conversations s).
Proof.
  intros H. unfold script_stored, saveConversations, setItem_conversations.
  by rewrite H.
Qed.

(** X19.  In the script the answer goes to the conversation that is open when
    the stream ends.  A question is sent in the conversation a; while the
    answer streams the user opens the conversation b; then the stream ends.
    With room in the browser, the answer is appended to the messages of b:
    the buffer and the stored messages of b are the messages b had, followed
    by the answer to the question asked in a; and what is stored for a ends
    with the question, without its answer. *)
Theorem script_answer_follows_open_conversation (now : Z) (question answer : string)
    (a b : string) (ca cb : Conversation) (s : state) :
  question ≠ "" →
  currentConversationId s = Some a → a ≠ "" → b ≠ "" → a ≠ b →
  List.find (λ c, bool_decide (id c = a)) (conversations s) = Some ca →
  List.find (λ c, bool_decide (id c = b)) (conversations s) = Some cb →
  roomy (store s) →
  let s1 := sendMessage_begin now question s in
  let s2 := openConversation b s1 in
  let s3 := sendMessage_resolved answer s2 in
  script_stored a s1 = Some (chatContext s ++ [textMsg User question]) ∧
  chatContext s3 = messages cb ++ [textMsg Model answer] ∧
  currentConversationId s3 = Some b ∧
  script_stored b s3 = Some (messages cb ++ [textMsg Model answer]) ∧
  script_stored a s3 = Some (chatContext s ++ [textMsg User question]).
Proof.
  intros Hq Ha Hna Hnb Hab Hca Hcb Hr s1 s2 s3.
  set (ctx := chatContext s ++ [textMsg User question]).
  destruct (set_messages_of_first_spec a ctx (conversations s) ca Hca)
    as (cs1 & E1 & F1 & O1).
  assert (s1 = saveConversations
                 {| chatContext := ctx; conversations := cs1;
                    currentConversationId := Some a; store := store s;
                    console := console s |}) as Es1.
  { subst s1. unfold sendMessage_begin. rewrite bool_decide_eq_false_2 by done.
    rewrite Ha. change (default "" (Some a)) with a. cbn [falsy].
    rewrite bool_decide_eq_false_2 by done.
    fold ctx. rewrite E1. unfold set_conversations. cbn. done. }
  assert (saveConversations
            {| chatContext := ctx; conversations := cs1;
               currentConversationId := Some a; store := store s;
               console := console s |} =
          {| chatContext := ctx; conversations := cs1;
             currentConversationId := Some a;
             store := {| conversations_v1 := Some (ArrayOf cs1);
                         chat_history_v1 := chat_history_v1 (store s);
                         migration_done := migration_done (store s);
                         accepts := accepts (store s);
                         accepts_flag := accepts_flag (store s) |};
             console := console s |}) as Esave.
  { unfold saveConversations, setItem_conversations. cbn. by rewrite Hr. }
  rewrite Esave in Es1.
  assert (List.find (λ c, bool_decide (id c = b)) cs1 = Some cb) as Hcb1.
  { by rewrite (O1 b) by done. }
  assert (s2 = {| chatContext := messages cb; conversations := cs1;
                  currentConversationId := Some b; store := store s1;
                  console := console s1 |}) as Es2.
  { subst s2. unfold openConversation. rewrite Es1. cbn. by rewrite Hcb1. }
  destruct (set_messages_of_first_spec b (messages cb ++ [textMsg Model answer])
              cs1 cb Hcb1) as (cs3 & E3 & F3 & O3).
  assert (s3 = {| chatContext := messages cb ++ [textMsg Model answer];
                  conversations := cs3; currentConversationId := Some b;
                  store := {| conversations_v1 := Some (ArrayOf cs3);
                              chat_history_v1 := chat_history_v1 (store s);
                              migration_done := migration_done (store s);
                              accepts := accepts (store s);
                              accepts_flag := accepts_flag (store s) |};
                  console := console s |}) as Es3.
  { subst s3. unfold sendMessage_resolved. rewrite Es2. cbn [set_session
      chatContext currentConversationId conversations falsy].
    change (default "" (Some b)) with b.
    rewrite bool_decide_eq_false_2 by done. rewrite E3.
    unfold saveConversations, setItem_conversations, set_conversations.
    rewrite Es1. cbn. by rewrite Hr. }
  split.
  { rewrite Es1. unfold script_stored. cbn. by rewrite F1. }
  rewrite Es3. split; [done|]. split; [done|].
  unfold script_stored. cbn. split.
  - by rewrite F3.
  - rewrite (O3 a) by done. by rewrite F1.
Qed.

(** Two stored conversations; a question in the older, answered after the
    newer one was opened. *)
Lemma script_answer_follows_open_conversation_witness :
  let s := {| chatContext := []; conversations := [newer; older];
              currentConversationId := Some "1700000000000";
              store := emptyStorage; console := [] |} in
  let s3 := sendMessage_resolved "Hi"
              (openConversation "1700000000001"
                 (sendMessage_begin 1700000000100 "hello" s)) in
  script_stored "1700000000001" s3 = Some [textMsg Model "Hi"] ∧
  script_stored "1700000000000" s3 = Some [textMsg User "hello"].
Proof.
  intros s s3.
  destruct (script_answer_follows_open_conversation 1700000000100 "hello" "Hi"
              "1700000000000" "1700000000001" older newer s)
    as (_ & _ & _ & H4 & H5); try discriminate; try reflexivity.
  - apply AppFacts.roomy_emptyStorage.
  - split; [exact H4|exact H5].
Defined.

Lemma filter_absent i (cs : list Conversation) :
  i ∉ id <$> cs →
  List.filter (λ c, negb (bool_decide (id c = i))) cs = cs.
Proof.
  induction cs as [|c cs IH]; [done|]. cbn. rewrite not_elem_of_cons.
  intros [Hc Hcs]. rewrite bool_decide_eq_false_2 by done. cbn.
  by rewrite IH.
Qed.

Lemma delete_found_filter i (cs : list Conversation) : ∀ idx c,
  list_find (λ c, id c = i) cs = Some (idx, c) →
  NoDup (id <$> cs) →
  base.delete idx cs = List.filter (λ c, negb (bool_decide (id c = i))) cs.
Proof.
  induction cs as [|c0 cs IH]; intros idx c; [done|]. cbn.
  rewrite NoDup_cons. intros H [Hc0 Hnd].
  destruct (decide (id c0 = i)) as [E|E].
  - injection H as <- <-. rewrite bool_decide_eq_true_2 by done. cbn.
    rewrite filter_absent; [done|]. by rewrite <- E.
  - rewrite bool_decide_eq_false_2 by done. cbn.
    destruct (list_find _ cs) as [[idx' c']|] eqn:F; [|done].
    injection H as <- <-. cbn. f_equal. by apply (IH idx' c').
Qed.

(** X20.  Deleting a conversation in the script.  [deleteConversation] with
    an id that no conversation has does nothing and writes nothing.
    Otherwise it removes one conversation, the first with that id, from the
    module's list, so the list gets shorter by one and keeps the others in
    their order; it saves the new list; and it empties the buffer and the
    active id when, and only when, the id deleted is the active one.  When
    the ids of the list are distinct, the list it leaves is the one that
    [handleDeleteConversation] of the React client leaves, the
    conversations with another id. *)
Theorem script_delete_removes_first (i : string) (s : state) (a : App.state) :
  let s' := deleteConversation i s in
  match list_find (λ c, id c = i) (conversations s) with
  | None => s' = s
  | Some (idx, c) =>
      conversations s' =
        take idx (conversations s) ++ drop (S idx) (conversations s) ∧
      S (length (conversations s')) = length (conversations s) ∧
      Forall (λ c, id c ≠ i) (take idx (conversations s)) ∧
      (accepts (store s) (conversations s') = true →
       conversations_v1 (store s') = Some (ArrayOf (conversations s'))) ∧
      (if bool_decide (currentConversationId s = Some i)
       then currentConversationId s' = None ∧ chatContext s' = []
       else currentConversationId s' = currentConversationId s ∧
            chatContext s' = chatContext s) ∧
      (NoDup (id <$> conversations s) →
       App.conversations a = conversations s →
       conversations s' = App.conversations (App.handleDeleteConversation i a))
  end.
Proof.
  cbv zeta. unfold deleteConversation.
  destruct (list_find _ (conversations s)) as [[idx c]|] eqn:F; [|done].
  cbv zeta.
  pose proof F as F'. apply list_find_Some in F' as (Hl & Hi & Hbefore).
  assert (conversations
            (saveConversations
               (if bool_decide
                     (currentConversationId
                        (set_conversations (base.delete idx (conversations s)) s)
                      = Some i)
                then set_session [] None
                       (set_conversations (base.delete idx (conversations s)) s)
                else set_conversations (base.delete idx (conversations s)) s))
          = base.delete idx (conversations s)) as E.
  { unfold saveConversations, setItem_conversations.
    case_bool_decide; cbn; by destruct (accepts _ _). }
  rewrite E. split; [by rewrite delete_take_drop|]. split.
  { rewrite length_delete by eauto.
    apply lookup_lt_Some in Hl. lia. }
  split.
  { apply Forall_forall. intros c' Hc'.
    apply list_elem_of_lookup in Hc' as [j Hj].
    pose proof (lookup_lt_Some _ _ _ Hj) as Hlt. rewrite length_take in Hlt.
    rewrite lookup_take_lt in Hj by lia. apply (Hbefore j c' Hj). lia. }
  split.
  { intros Ha. unfold saveConversations, setItem_conversations.
    cbn [set_conversations currentConversationId].
    destruct (bool_decide (currentConversationId s = Some i));
      cbn [set_session set_conversations store conversations];
      rewrite Ha; reflexivity. }
  split.
  { unfold saveConversations, setItem_conversations.
    cbn [set_conversations currentConversationId].
    destruct (bool_decide (currentConversationId s = Some i)); cbn;
      by destruct (accepts _ _). }
  intros Hnd Ha. rewrite (delete_found_filter i _ idx c F Hnd).
  unfold App.handleDeleteConversation. rewrite Ha.
  assert (List.find (λ c, bool_decide (id c = i)) (conversations s) ≠ None) as Hf.
  { intros Hn. pose proof (find_none _ _ Hn c) as Hc. cbv beta in Hc.
    rewrite bool_decide_eq_true_2 in Hc by done.
    assert (true = false) as [=]. apply Hc.
    apply list_elem_of_In. by apply list_elem_of_lookup_2 in Hl. }
  destruct (List.find _ (conversations s)); [|done].
  cbv zeta. by destruct (bool_decide (App.currentConversationId a = Some i)).
Qed.

End ScriptSessionFacts.

(** ** More on the stores *)

Module StoreMore.

(** *** Single records on IndexedDB *)

Section Records.
Import IndexedDB IndexedDBRecords.

(** X21.  Single records on IndexedDB.  On a database that opens,
    [saveConversation] then [loadConversation] with the id of the record
    returns that record, and [deleteConversation] then [loadConversation]
    returns [undefined]; neither changes what is loaded for any other id,
    and none of the three touches localStorage or logs.  On a database that
    cannot be opened, saving and deleting log the error and reject with it,
    and loading logs it and resolves with [undefined]; the table is left as
    it is. *)
Theorem record_round_trip (c : Conversation) (i : string) (w : world) :
  (opened (db w) = true →
   let saved := saveConversation c w in
   let deleted := deleteConversation (id c) saved.2 in
   saved.1 = Normal () ∧
   loadConversation (id c) saved.2 = (Normal (Some c), saved.2) ∧
   (∀ j, j ≠ id c → (loadConversation j saved.2).1 = (loadConversation j w).1) ∧
   deleted.1 = Normal () ∧
   loadConversation (id c) deleted.2 = (Normal None, deleted.2) ∧
   (∀ j, j ≠ id c → (loadConversation j deleted.2).1 = (loadConversation j w).1) ∧
   store deleted.2 = store w ∧ console deleted.2 = console w) ∧
  (opened (db w) = false →
   saveConversation c w =
     (Throw DatabaseClosedError,
      log "Conversation 저장 실패:" DatabaseClosedError w) ∧
   deleteConversation i w =
     (Throw DatabaseClosedError,
      log "Conversation 삭제 실패:" DatabaseClosedError w) ∧
   loadConversation i w =
     (Normal None, log "Conversation 로드 실패:" DatabaseClosedError w)).
Proof.
  split; intros Ho.
  - unfold saveConversation, deleteConversation, loadConversation, put, delete, get.
    rewrite Ho. cbn. rewrite lookup_insert_eq, lookup_delete_eq.
    repeat split; try done.
    + intros j Hj. by rewrite lookup_insert_ne.
    + intros j Hj. by rewrite lookup_delete_ne, lookup_insert_ne.
  - unfold saveConversation, deleteConversation, loadConversation, put, delete, get.
    rewrite Ho. destruct w as [ls [m o] con]. cbn in *. by subst.
Qed.

End Records.

Lemma record_round_trip_witness :
  let w := {| IndexedDB.store := emptyStorage;
              IndexedDB.db := {| IndexedDB.rows := ∅; IndexedDB.opened := true |};
              IndexedDB.console := [] |} in
  let saved := IndexedDBRecords.saveConversation older w in
  IndexedDBRecords.loadConversation (id older) saved.2 = (Normal (Some older), saved.2).
Proof.
  intros w saved.
  destruct (record_round_trip older "" w) as [H _].
  destruct H as (_ & H & _); [reflexivity|]. exact H.
Defined.

(** *** Saving the whole list on IndexedDB *)

Section Table.
Import IndexedDB.

Variable toLocaleString : Z → string.

Lemma foldl_add_lookup cs : ∀ m n i,
  (foldl add (m, n) cs).1 !! i =
    match m !! i with
    | Some c => Some c
    | None => List.find (λ c, bool_decide (id c = i)) cs
    end.
Proof.
  induction cs as [|c cs IH]; intros m n i; cbn [foldl List.find].
  - cbn [fst]. by destruct (m !! i).
  - unfold add at 2. cbn [fst snd].
    destruct (m !! id c) as [c0|] eqn:E; rewrite IH.
    + destruct (m !! i) as [ci|] eqn:Ei; [done|].
      rewrite bool_decide_eq_false_2; [done|]. intros Heq. rewrite Heq in E.
      congruence.
    + destruct (decide (id c = i)) as [<-|Hne].
      * by rewrite lookup_insert_eq, E, bool_decide_eq_true_2.
      * rewrite lookup_insert_ne by done.
        by rewrite bool_decide_eq_false_2.
Qed.

Lemma foldl_add_count cs : ∀ m n, (n ≤ (foldl add (m, n) cs).2)%nat.
Proof.
  induction cs as [|c cs IH]; intros m n; cbn [foldl]; [done|].
  unfold add at 2. cbn [fst snd]. destruct (m !! id c).
  - specialize (IH m (S n)). lia.
  - apply IH.
Qed.

Lemma foldl_add_NoDup cs : ∀ m n,
  (foldl add (m, n) cs).2 = n → NoDup (id <$> cs).
Proof.
  induction cs as [|c cs IH]; intros m n; cbn [foldl]; [constructor|].
  unfold add at 2. cbn [fst snd]. destruct (m !! id c) eqn:E.
  - intros H. pose proof (foldl_add_count cs m (S n)). lia.
  - intros H. cbn. apply NoDup_cons. split; [|by apply (IH _ _ H)].
    intros Hin. apply list_elem_of_fmap in Hin as (c' & Hid & Hc').
    (* a later record with the same id would have been refused *)
    clear IH. revert H.
    assert (∀ m0 n0, m0 !! id c' ≠ None → c' ∈ cs →
              (foldl add (m0, n0) cs).2 ≠ n0) as Hrefused.
    { clear. induction cs as [|c1 cs IH]; intros m0 n0 Hm Hin.
      - by apply elem_of_nil in Hin.
      - cbn [foldl]. unfold add at 2. cbn [fst snd].
        apply elem_of_cons in Hin as [->|Hin].
        + destruct (m0 !! id c1); [|done].
          pose proof (foldl_add_count cs m0 (S n0)). lia.
        + destruct (m0 !! id c1) eqn:E1.
          * pose proof (foldl_add_count cs m0 (S n0)). lia.
          * apply IH; [|done].
            destruct (decide (id c1 = id c')) as [Eq|Ne].
            -- rewrite <- Eq, lookup_insert_eq. done.
            -- by rewrite lookup_insert_ne. }
    apply Hrefused; [|done]. by rewrite <- Hid, lookup_insert_eq.
Qed.

Lemma bulkAdd_opened items d : opened (bulkAdd items d).2 = opened d.
Proof.
  unfold bulkAdd. destruct (opened d) eqn:Ho; [|done].
  by destruct (foldl add _ _).
Qed.

Lemma loadConversationsFromLocalStorage_db now w :
  db (loadConversationsFromLocalStorage toLocaleString now w).2 = db w ∧
  store (loadConversationsFromLocalStorage toLocaleString now w).2 = store w.
Proof.
  unfold loadConversationsFromLocalStorage.
  by destruct (loadConversationsFromLocalStorage_try _ _ _) as [[l|]|e].
Qed.

Lemma migrate_opened now w :
  opened (db (migrateFromLocalStorage toLocaleString now w)) = opened (db w).
Proof.
  unfold migrateFromLocalStorage.
  destruct (migrated (store w)); [done|].
  destruct (loadConversationsFromLocalStorage_db now w) as [Hdb _].
  destruct (loadConversationsFromLocalStorage toLocaleString now w) as [ex w1].
  cbn [snd] in Hdb. rewrite <- Hdb.
  destruct (0 <? length ex)%nat.
  - pose proof (bulkAdd_opened ex (db w1)) as Hb.
    destruct (bulkAdd ex (db w1)) as [r d]. cbn [snd] in Hb.
    destruct r as [[]|e]; [|done].
    by destruct (setItem_migration_done _).
  - by destruct (setItem_migration_done _).
Qed.

(** X22.  [saveConversations] on IndexedDB replaces the table.  On a database
    that opens, after the call the table holds, under each id, the first of
    the given conversations with that id and nothing else, whatever the
    table and localStorage held before - also what the call itself had just
    migrated from localStorage.  The call resolves when the ids given are
    distinct; otherwise it logs the error and rejects with it, and the table
    has been replaced all the same: the save is not undone. *)
Theorem indexedDB_save_replaces_table (now : Z) (cs : list Conversation) (w : world) :
  opened (db w) = true →
  let r := saveConversations toLocaleString now cs w in
  (∀ i, rows (db r.2) !! i = List.find (λ c, bool_decide (id c = i)) cs) ∧
  (NoDup (id <$> cs) → r.1 = Normal ()) ∧
  (¬ NoDup (id <$> cs) →
   r.1 = Throw ConstraintError ∧
   last (console r.2) =
     Some {| label := "Conversations 저장 실패:"; cause := ConstraintError |}).
Proof.
  intros Ho r. subst r. unfold saveConversations, clear, bulkAdd.
  rewrite migrate_opened, Ho. cbn [opened rows].
  pose proof (foldl_add_lookup cs ∅ 0%nat) as Hl.
  pose proof (foldl_add_NoDup cs ∅ 0%nat) as Hn.
  destruct (foldl add (∅, 0%nat) cs) as [m f] eqn:E. cbn [fst snd] in *.
  case_bool_decide as Hf; cbn.
  - split; [intros i; by rewrite Hl, lookup_empty|]. split; [done|].
    intros Hnd. destruct Hnd. by apply Hn.
  - split; [intros i; by rewrite Hl, lookup_empty|]. split.
    + intros Hnd.
      destruct (IndexedDBFacts.foldl_add_fresh cs ∅ 0%nat Hnd) as (m' & E' & _).
      { intros c _. apply lookup_empty. }
      rewrite E in E'. by injection E' as _ ->.
    + intros _. split; [done|]. by rewrite last_snoc.
Qed.

End Table.

Lemma indexedDB_save_replaces_table_witness :
  let w := {| IndexedDB.store := emptyStorage;
              IndexedDB.db := {| IndexedDB.rows := {[ id older := older ]};
                                 IndexedDB.opened := true |};
              IndexedDB.console := [] |} in
  let r := IndexedDB.saveConversations (λ _, "") 0 [newer] w in
  IndexedDB.rows (IndexedDB.db r.2) !! id older = None ∧
  IndexedDB.rows (IndexedDB.db r.2) !! id newer = Some newer.
Proof.
  intros w r.
  destruct (indexedDB_save_replaces_table (λ _, "") 0 [newer] w) as (H & _).
  - reflexivity.
  - split; [exact (H (id older))|exact (H (id newer))].
Defined.

(** *** From localStorage to IndexedDB *)

Section Migration.

Variable toLocaleString : Z → string.

(** What the IndexedDB module reads from localStorage is what
    [loadConversations] of [utils/localStorage.ts] returns. *)
Lemma loadConversationsFromLocalStorage_same now (w : IndexedDB.world) con :
  (IndexedDB.loadConversationsFromLocalStorage toLocaleString now w).1 =
    match (LocalStorage.loadConversations toLocaleString now
             {| LocalStorage.store := IndexedDB.store w;
                LocalStorage.console := con |}).1 with
    | Normal l => l
    | Throw _ => []
    end.
Proof.
  unfold IndexedDB.loadConversationsFromLocalStorage,
    IndexedDB.loadConversationsFromLocalStorage_try,
    LocalStorage.loadConversations, LocalStorage.loadConversations_try,
    LocalStorage.saveConversations.
  cbn [LocalStorage.store].
  destruct (conversations_v1 (IndexedDB.store w)) as [[| | | |l]|];
    destruct (chat_history_v1 (IndexedDB.store w)) as [[| | | |msgs]|];
    cbn [truthy JSON_parse orEmpty]; try done;
    by destruct (setItem_conversations _ _).
Qed.

(** X23.  The first load on IndexedDB brings the conversations of
    localStorage along.  On a database that opens and is empty, with the
    migration not yet done and room for its flag, [loadConversations] of
    [utils/indexedDBStorage.ts] returns the conversations that
    [loadConversations] of [utils/localStorage.ts] returns on the same store
    - provided their ids are distinct -, most recent first: in descending
    order of [createdAt], the values compared as IndexedDB compares keys
    that are strings, by their UTF-16 code units, so that of two
    conversations created at positive times of the same number of decimal
    digits the later comes first.  It sets the flag and leaves the
    conversations and the legacy record in localStorage as they are.  A
    later load does not migrate again: it returns the same list and changes
    nothing. *)
Theorem indexedDB_first_load_migrates (now now' : Z) (w : IndexedDB.world)
    (l : list Conversation) :
  IndexedDB.opened (IndexedDB.db w) = true →
  IndexedDB.rows (IndexedDB.db w) = ∅ →
  migration_done (IndexedDB.store w) = None →
  accepts_flag (IndexedDB.store w) = true →
  (LocalStorage.loadConversations toLocaleString now
     {| LocalStorage.store := IndexedDB.store w; LocalStorage.console := [] |}).1
    = Normal l →
  NoDup (id <$> l) →
  ∃ l' w1,
    IndexedDB.loadConversations toLocaleString now w = (Normal l', w1) ∧
    l' ≡ₚ l ∧ StronglySorted createdAt_ge l' ∧
    migration_done (IndexedDB.store w1) = Some "true" ∧
    conversations_v1 (IndexedDB.store w1) = conversations_v1 (IndexedDB.store w) ∧
    chat_history_v1 (IndexedDB.store w1) = chat_history_v1 (IndexedDB.store w) ∧
    IndexedDB.loadConversations toLocaleString now' w1 = (Normal l', w1) ∧
    (∀ (a b : Conversation) (n m : Z),
       createdAt a = toString n → createdAt b = toString m →
       0 < n → 0 < m →
       String.length (toString n) = String.length (toString m) →
       (createdAt_ge a b ↔ m ≤ n)).
Proof.
  intros Ho Hrows Hm Hflag Hl Hnd.
  pose proof (loadConversationsFromLocalStorage_same now w []) as Hsame.
  rewrite Hl in Hsame.
  destruct (loadConversationsFromLocalStorage_db toLocaleString now w) as [Hdb Hst].
  assert (∃ w1,
    IndexedDB.migrateFromLocalStorage toLocaleString now w = w1 ∧
    IndexedDB.opened (IndexedDB.db w1) = true ∧
    snd <$> map_to_list (IndexedDB.rows (IndexedDB.db w1)) ≡ₚ l ∧
    migration_done (IndexedDB.store w1) = Some "true" ∧
    conversations_v1 (IndexedDB.store w1) = conversations_v1 (IndexedDB.store w) ∧
    chat_history_v1 (IndexedDB.store w1) = chat_history_v1 (IndexedDB.store w))
    as (w1 & Hw1 & Ho1 & Hp & Hm1 & Hc1 & Hh1).
  { unfold IndexedDB.migrateFromLocalStorage, IndexedDB.migrated. rewrite Hm.
    destruct (IndexedDB.loadConversationsFromLocalStorage toLocaleString now w)
      as [ex w0]. cbn [fst snd] in *. subst ex.
    destruct (0 <? length l)%nat eqn:Hlen.
    - unfold IndexedDB.bulkAdd. rewrite Hdb, Ho, Hrows.
      destruct (IndexedDBFacts.foldl_add_fresh l ∅ 0%nat Hnd) as (m' & -> & Hp).
      { intros c _. apply lookup_empty. }
      rewrite bool_decide_eq_true_2 by done.
      unfold setItem_migration_done. cbn [IndexedDB.put_db IndexedDB.store].
      rewrite Hst, Hflag. eexists. split; [done|]. cbn.
      split; [done|]. split; [|done].
      rewrite Hp, map_to_list_empty, app_nil_r, <- list_fmap_compose.
      clear. induction l; simpl; [done|]. by f_equiv.
    - unfold setItem_migration_done. rewrite Hst, Hflag.
      eexists. split; [done|]. cbn. rewrite Hdb, Ho, Hrows.
      split; [done|]. split; [|done].
      destruct l; [|done]. by rewrite map_to_list_empty. }
  assert (IndexedDB.migrated (IndexedDB.store w1) = true) as Hmig.
  { unfold IndexedDB.migrated. by rewrite Hm1. }
  exists (reverse (IndexedDB.orderBy_createdAt (IndexedDB.db w1))), w1.
  split.
  { unfold IndexedDB.loadConversations. rewrite Hw1.
    unfold IndexedDB.orderBy_createdAt_reverse_toArray. by rewrite Ho1. }
  split; [by rewrite IndexedDBFacts.orderBy_reverse_Permutation|].
  split; [apply IndexedDBFacts.orderBy_reverse_sorted|].
  split; [done|]. split; [done|]. split; [done|].
  unfold IndexedDB.loadConversations.
  split; [|apply createdAt_ge_times].
  rewrite StoreFacts.indexedDB_migrated_skip by done.
  unfold IndexedDB.orderBy_createdAt_reverse_toArray. by rewrite Ho1.
Qed.

(** X24.  A migration whose write is refused loses the legacy history.  From
    a store that holds only a legacy record, when the browser refuses the
    write of the migrated list, [loadConversations] of
    [utils/localStorage.ts] still returns the migrated conversation and
    still removes the legacy record, after a warning for the failed save:
    the store then holds neither the conversations nor the legacy record,
    and the next load returns the empty list.  The script's
    [loadConversations] does the same. *)
Theorem migration_refused_loses_history (dateToLocaleString : string → string)
    (now now' : Z) (msgs : list Message)
    (w : LocalStorage.world) (s : Script.state) :
  let c := migratedConversation ("대화 " +:+ toLocaleString now) now msgs in
  let c' := migratedConversation
              ("대화 " +:+ dateToLocaleString (toString now)) now msgs in
  conversations_v1 (LocalStorage.store w) = None →
  chat_history_v1 (LocalStorage.store w) = Some (ArrayOf msgs) →
  accepts (LocalStorage.store w) [c] = false →
  conversations_v1 (Script.store s) = None →
  chat_history_v1 (Script.store s) = Some (ArrayOf msgs) →
  accepts (Script.store s) [c'] = false →
  (let r := LocalStorage.loadConversations toLocaleString now w in
   r.1 = Normal [c] ∧
   conversations_v1 (LocalStorage.store r.2) = None ∧
   chat_history_v1 (LocalStorage.store r.2) = None ∧
   LocalStorage.console r.2 =
     LocalStorage.console w ++
       [ {| label := "Conversations 저장 실패"; cause := QuotaExceededError |} ] ∧
   (LocalStorage.loadConversations toLocaleString now' r.2).1 = Normal []) ∧
  (let s1 := Script.loadConversations dateToLocaleString now s in
   Script.conversations s1 = [c'] ∧
   conversations_v1 (Script.store s1) = None ∧
   chat_history_v1 (Script.store s1) = None ∧
   Script.console s1 =
     Script.console s ++
       [ {| label := "Conversations 저장 실패"; cause := QuotaExceededError |} ]).
Proof.
  intros c c' Hc Hh Ha Hc' Hh' Ha'. split.
  - unfold LocalStorage.loadConversations, LocalStorage.loadConversations_try.
    rewrite Hc, Hh. cbn [truthy JSON_parse orEmpty].
    fold (migratedConversation ("대화 " +:+ toLocaleString now) now msgs). fold c.
    rewrite (LocalStorageFacts.saveConversations_refused _ _ Ha).
    cbn. rewrite Hc. done.
  - unfold Script.loadConversations, Script.loadConversations_try.
    rewrite Hc', Hh'. cbn [truthy JSON_parse orEmpty].
    fold (migratedConversation
            ("대화 " +:+ dateToLocaleString (toString now)) now msgs). fold c'.
    unfold Script.saveConversations, setItem_conversations.
    cbn [Script.set_conversations Script.store Script.conversations].
    rewrite Ha'. cbn. by rewrite Hc'.
Qed.


End Migration.

(** Two conversations in localStorage, oldest first, and a fresh database:
    they are loaded most recent first. *)
Lemma indexedDB_first_load_migrates_witness :
  let w := {| IndexedDB.store :=
                {| conversations_v1 := Some (ArrayOf [older; newer]);
                   chat_history_v1 := None; migration_done := None;
                   accepts := λ _, true; accepts_flag := true |};
              IndexedDB.db := {| IndexedDB.rows := ∅; IndexedDB.opened := true |};
              IndexedDB.console := [] |} in
  ∃ w1,
    IndexedDB.loadConversations (λ _, "") 0 w = (Normal [newer; older], w1) ∧
    StronglySorted createdAt_ge [newer; older] ∧
    migration_done (IndexedDB.store w1) = Some "true".
Proof.
  intros w.
  destruct (indexedDB_first_load_migrates (λ _, "") 0 1 w [older; newer])
    as (l' & w1 & H1 & H2 & H3 & H4 & _).
  - reflexivity.
  - reflexivity.
  - reflexivity.
  - reflexivity.
  - reflexivity.
  - apply (bool_decide_unpack _). vm_compute. reflexivity.
  - assert ((IndexedDB.loadConversations (λ _, "") 0 w).1 = Normal [newer; older])
      as E by (vm_compute; reflexivity).
    rewrite H1 in E. cbn [fst] in E. injection E as ->.
    exists w1. split; [exact H1|]. split; [exact H3|exact H4].
Defined.

(** A legacy history on a browser without room. *)
Lemma migration_refused_loses_history_witness :
  let msgs := [textMsg User "hello"; textMsg Model "hi"] in
  let ls := {| conversations_v1 := None; chat_history_v1 := Some (ArrayOf msgs);
               migration_done := None; accepts := λ _, false;
               accepts_flag := false |} in
  let w := {| LocalStorage.store := ls; LocalStorage.console := [] |} in
  let r := LocalStorage.loadConversations (λ _, "") 1700000000000 w in
  conversations_v1 (LocalStorage.store r.2) = None ∧
  chat_history_v1 (LocalStorage.store r.2) = None ∧
  (LocalStorage.loadConversations (λ _, "") 1700000000001 r.2).1 = Normal [].
Proof.
  intros msgs ls w r.
  destruct (migration_refused_loses_history (λ _, "") (λ _, "")
              1700000000000 1700000000001 msgs w
              {| Script.chatContext := []; Script.conversations := [];
                 Script.currentConversationId := None; Script.store := ls;
                 Script.console := [] |})
    as [(_ & H2 & H3 & _ & H5) _].
  - reflexivity.
  - reflexivity.
  - reflexivity.
  - reflexivity.
  - reflexivity.
  - reflexivity.
  - split; [exact H2|]. split; [exact H3|exact H5].
Defined.


End StoreMore.

(** ** [escapeHtml] *)

Module HelpersFacts.
Import Helpers.

Lemma special_cases a :
  special a = true →
  a = "&"%char ∨ a = "<"%char ∨ a = ">"%char ∨ a = "034"%char.
Proof.
  unfold special. rewrite !orb_true_iff, !bool_decide_eq_true. tauto.
Qed.

Lemma map_special a :
  special a = true →
  ∃ e, map (String a "") = Some e ∧
       occurs "<" e = false ∧ occurs ">" e = false ∧ occurs "034" e = false.
Proof.
  intros H; apply special_cases in H as [-> | [-> | [-> | ->]]];
    (eexists; split; [reflexivity|]; by vm_compute).
Qed.

Lemma map_not_special a : special a = false → map (String a "") = None.
Proof.
  unfold special, map. rewrite !orb_false_iff, !bool_decide_eq_false.
  intros [[[H1 H2] H3] H4].
  rewrite !bool_decide_eq_false_2; [done|congruence..].
Qed.

Lemma map_long a b r : map (String a (String b r)) = None.
Proof. unfold map. by repeat (case_bool_decide; simplify_eq). Qed.

Lemma default_Some {A} (x e : A) : default x (Some e) = e.
Proof. reflexivity. Qed.

Lemma default_None {A} (x : A) : default x None = x.
Proof. reflexivity. Qed.

Lemma app_cons a (s t : string) : String a s +:+ t = String a (s +:+ t).
Proof. reflexivity. Qed.

Lemma app_empty_l (t : string) : "" +:+ t = t.
Proof. reflexivity. Qed.

Lemma occurs_app a s t : occurs a (s +:+ t) = occurs a s || occurs a t.
Proof.
  induction s as [|b s IH]; [done|]. rewrite app_cons. cbn [occurs].
  by rewrite IH, orb_assoc.
Qed.

Lemma app_assoc_string (s t u : string) : (s +:+ t) +:+ u = s +:+ (t +:+ u).
Proof.
  induction s as [|a s IH]; [done|]. rewrite !app_cons. by rewrite IH.
Qed.

Lemma app_empty_r (s : string) : s +:+ "" = s.
Proof.
  induction s as [|a s IH]; [done|]. rewrite app_cons. by rewrite IH.
Qed.

Section Replace.

Variable f : string → string.

Lemma replace_plain q : plain q = true → replace f "" q = q.
Proof.
  induction q as [|a q IH]; [done|]. cbn [plain replace].
  intros [Ha Hq]%andb_true_iff. apply negb_true_iff in Ha. rewrite Ha.
  rewrite bool_decide_eq_true_2 by done. rewrite app_empty_l. by rewrite IH.
Qed.

Lemma replace_plain_app p x :
  plain p = true → replace f "" (p +:+ x) = p +:+ replace f "" x.
Proof.
  induction p as [|a p IH]; [done|]. rewrite !app_cons. cbn [plain replace].
  intros [Ha Hp]%andb_true_iff. apply negb_true_iff in Ha. rewrite Ha.
  rewrite bool_decide_eq_true_2 by done. rewrite app_empty_l. by rewrite IH.
Qed.

Lemma replace_run r : ∀ run q,
  all_special r = true →
  replace f run (r +:+ q) = replace f (run +:+ r) q.
Proof.
  induction r as [|a r IH]; intros run q.
  - intros _. by rewrite app_empty_l, app_empty_r.
  - rewrite app_cons. cbn [all_special replace].
    intros [Ha Hr]%andb_true_iff. rewrite Ha, IH by done.
    by rewrite app_assoc_string.
Qed.

Lemma replace_after_run run q :
  run ≠ "" → plain q = true → replace f run q = f run +:+ q.
Proof.
  intros Hrun Hq. destruct q as [|a q]; cbn [replace].
  - rewrite bool_decide_eq_false_2 by done. by rewrite app_empty_r.
  - cbn [plain] in Hq. apply andb_true_iff in Hq as [Ha Hq].
    apply negb_true_iff in Ha. rewrite Ha.
    rewrite bool_decide_eq_false_2 by done. by rewrite replace_plain.
Qed.

End Replace.

(** X26.  [escapeHtml] on a text in which no two of the characters ampersand,
    less-than, greater-than and double quote are next to each other.  Both
    versions replace each of these characters by its entity and leave the
    other characters as they are; so the result has no less-than, no
    greater-than and no double quote, and the two versions agree. *)
Theorem escapeHtml_isolated (str : string) :
  isolated false str = true →
  escapeHtml str = escape_each str ∧
  script_escapeHtml str = escape_each str ∧
  occurs "<" (escapeHtml str) = false ∧
  occurs ">" (escapeHtml str) = false ∧
  occurs "034" (escapeHtml str) = false.
Proof.
  assert (∀ (f : string → string),
            (∀ a e, map (String a "") = Some e → f (String a "") = e) →
            ∀ s,
              (isolated false s = true → replace f "" s = escape_each s) ∧
              (∀ a, special a = true → isolated true s = true →
                 replace f (String a "") s =
                   default (String a "") (map (String a "")) +:+ escape_each s))
    as Hrep.
  { intros f Hf. induction s as [|b s [IH0 IH1]].
    - split; [done|]. intros a Ha _. cbn [replace escape_each].
      rewrite bool_decide_eq_false_2 by done.
      destruct (map_special a Ha) as (e & He & _).
      by rewrite He, (Hf a e He), default_Some, app_empty_r.
    - split.
      + cbn [isolated replace escape_each]. destruct (special b) eqn:Hb.
        * cbn [negb andb]. intros H. rewrite app_empty_l. by apply IH1.
        * intros H. rewrite (map_not_special b Hb), default_None.
          rewrite bool_decide_eq_true_2 by done.
          rewrite app_empty_l, app_cons, app_empty_l. by rewrite IH0.
      + intros a Ha. cbn [isolated replace escape_each].
        destruct (special b) eqn:Hb; [done|].
        intros H. destruct (map_special a Ha) as (e & He & _).
        rewrite He, (Hf a e He), default_Some.
        rewrite (map_not_special b Hb), default_None.
        rewrite bool_decide_eq_false_2 by done.
        rewrite (app_cons b "" (escape_each s)), app_empty_l. by rewrite IH0. }
  assert (∀ s, occurs "<" (escape_each s) = false ∧
               occurs ">" (escape_each s) = false ∧
               occurs "034" (escape_each s) = false) as Hsafe.
  { induction s as [|b s (I1 & I2 & I3)]; [done|]. cbn [escape_each].
    rewrite !occurs_app, I1, I2, I3, !orb_false_r.
    destruct (special b) eqn:Hb.
    - destruct (map_special b Hb) as (e & -> & H1 & H2 & H3).
      by rewrite default_Some.
    - rewrite (map_not_special b Hb), default_None. cbn [occurs].
      rewrite !orb_false_r.
      unfold special in Hb. apply orb_false_iff in Hb as [Hb H4].
      apply orb_false_iff in Hb as [Hb H3]. apply orb_false_iff in Hb as [H1 H2].
      apply bool_decide_eq_false in H2, H3, H4.
      rewrite !bool_decide_eq_false_2 by congruence. done. }
  intros H.
  assert (escapeHtml str = escape_each str) as E.
  { unfold escapeHtml. apply Hrep; [|done]. intros a e He. by rewrite He. }
  split; [done|]. split.
  { unfold script_escapeHtml. apply Hrep; [|done]. intros a e He. by rewrite He. }
  rewrite E. apply Hsafe.
Qed.

(** X27.  [escapeHtml] on a run of two or more of these characters.  The
    pattern matches the whole run and the table has no entry for it.  In a
    text made of a part without these characters, such a run and another
    part without them, [escapeHtml] of [utils/helpers.ts] returns the text
    as it is, the run not escaped; and the script's [escapeHtml] puts the
    word undefined in the place of the run. *)
Theorem escapeHtml_run (p q : string) (a b : ascii) (r : string) :
  plain p = true → plain q = true →
  all_special (String a (String b r)) = true →
  escapeHtml (p +:+ String a (String b r) +:+ q) =
    p +:+ String a (String b r) +:+ q ∧
  script_escapeHtml (p +:+ String a (String b r) +:+ q) =
    p +:+ "undefined" +:+ q.
Proof.
  intros Hp Hq Hr. unfold escapeHtml, script_escapeHtml.
  split.
  - rewrite replace_plain_app, replace_run, replace_after_run by done.
    cbv beta. by rewrite app_empty_l, map_long.
  - rewrite replace_plain_app, replace_run, replace_after_run by done.
    cbv beta. by rewrite app_empty_l, map_long.
Qed.

Lemma escapeHtml_isolated_witness :
  escapeHtml "a<b>c" = "a&lt;b&gt;c".
Proof.
  destruct (escapeHtml_isolated "a<b>c") as [H _].
  - reflexivity.
  - rewrite H. reflexivity.
Defined.

Lemma escapeHtml_run_witness :
  escapeHtml ("x" +:+ "<>" +:+ "y") = "x<>y" ∧
  script_escapeHtml ("x" +:+ "<>" +:+ "y") = "xundefinedy".
Proof.
  destruct (escapeHtml_run "x" "y" "<" ">" "") as [H1 H2]; try reflexivity.
  split; [exact H1|exact H2].
Defined.

End HelpersFacts.

(** ** [cleanMessagesForPayload] *)

Module PayloadFacts.
Import Payload.

Lemma length_app_string (s t : string) :
  String.length (s +:+ t) = (String.length s + String.length t)%nat.
Proof.
  induction s as [|a s IH]; [done|]. rewrite HelpersFacts.app_cons.
  cbn [String.length]. by rewrite IH.
Qed.

Lemma tagless_cons a s :
  tagless (String a s) = true ↔ a ≠ "<"%char ∧ tagless s = true.
Proof.
  unfold tagless. cbn [occurs]. rewrite negb_orb, andb_true_iff.
  rewrite negb_true_iff, bool_decide_eq_false. split; intros [H1 H2]; split;
    [congruence|done|congruence|done].
Qed.

Lemma joinLines_no_line_feed s : ∀ after,
  occurs "010" (joinLines after s) = false.
Proof.
  induction s as [|a s IH]; intros after; [done|]. cbn [joinLines].
  case_bool_decide as Ha.
  - rewrite HelpersFacts.occurs_app, IH. by destruct after.
  - cbn [occurs]. rewrite IH, bool_decide_eq_false_2 by congruence. done.
Qed.

Lemma behind_app p x : behind p (p +:+ x) = Some x.
Proof.
  induction p as [|a p IH]; [done|]. rewrite HelpersFacts.app_cons.
  cbn [behind]. by rewrite bool_decide_eq_true_2.
Qed.

Lemma sources_other a r : a ≠ "<"%char → sources (String a r) = None.
Proof.
  intros Ha. unfold sources, opening. cbn [behind].
  by rewrite bool_decide_eq_false_2 by congruence.
Qed.

Lemma behind_closing_other a r : a ≠ "<"%char → behind closing (String a r) = None.
Proof.
  intros Ha. unfold closing. cbn [behind].
  by rewrite bool_decide_eq_false_2 by congruence.
Qed.

Lemma to_closing_eq s :
  to_closing s =
    match behind closing s with
    | Some _ => Some (String.length closing)
    | None =>
        match s with
        | EmptyString => None
        | String _ r => S <$> to_closing r
        end
    end.
Proof. by destruct s. Qed.

Lemma to_closing_tagless body q :
  tagless body = true →
  to_closing (body +:+ closing +:+ q) = Some (String.length body + 6)%nat.
Proof.
  induction body as [|a body IH].
  - intros _. rewrite HelpersFacts.app_empty_l.
    by rewrite to_closing_eq, behind_app.
  - intros [Ha Hb]%tagless_cons. rewrite HelpersFacts.app_cons.
    cbn [to_closing]. rewrite behind_closing_other by done.
    rewrite IH by done. done.
Qed.

Lemma to_closing_none body : tagless body = true → to_closing body = None.
Proof.
  induction body as [|a body IH]; [done|].
  intros [Ha Hb]%tagless_cons. cbn [to_closing].
  rewrite behind_closing_other by done. by rewrite IH.
Qed.

Lemma removeSources_tagless_app p x :
  tagless p = true → removeSources 0 (p +:+ x) = p +:+ removeSources 0 x.
Proof.
  induction p as [|a p IH]; [done|].
  intros [Ha Hp]%tagless_cons. rewrite !HelpersFacts.app_cons.
  cbn [removeSources]. rewrite sources_other by done. by rewrite IH.
Qed.

Lemma removeSources_tagless p : tagless p = true → removeSources 0 p = p.
Proof.
  intros Hp. rewrite <- (HelpersFacts.app_empty_r p) at 1.
  rewrite removeSources_tagless_app by done. cbn [removeSources].
  by rewrite HelpersFacts.app_empty_r.
Qed.

Lemma removeSources_skip s : ∀ x,
  removeSources (String.length s) (s +:+ x) = removeSources 0 x.
Proof.
  induction s as [|a s IH]; intros x; [done|].
  rewrite HelpersFacts.app_cons. cbn [String.length removeSources]. apply IH.
Qed.

Lemma removeSources_match pre rest n :
  sources (pre +:+ rest) = Some n →
  String.length pre = n → n ≠ 0%nat →
  removeSources 0 (pre +:+ rest) = removeSources 0 rest.
Proof.
  intros Hs Hl Hn. destruct pre as [|a pre]; [by destruct Hn|].
  rewrite HelpersFacts.app_cons in *. cbn [removeSources]. rewrite Hs.
  cbn [String.length] in Hl. subst n. apply removeSources_skip.
Qed.

Lemma removeSources_no_match a r :
  sources (String a r) = None →
  removeSources 0 (String a r) = String a (removeSources 0 r).
Proof. intros Hs. cbn [removeSources]. by rewrite Hs. Qed.

Lemma sources_block body q :
  tagless body = true →
  sources (opening +:+ body +:+ closing +:+ q)
    = Some (String.length opening + (String.length body + 6))%nat.
Proof.
  intros Hb. unfold sources. by rewrite behind_app, to_closing_tagless.
Qed.

Lemma sources_open body :
  tagless body = true → sources (opening +:+ body) = None.
Proof.
  intros Hb. unfold sources. by rewrite behind_app, to_closing_none.
Qed.

Lemma opening_cons : opening = String "<" "div class='sources'>".
Proof. reflexivity. Qed.

Section Clean.

Variable trim : string → string.

(** X28.  The payload keeps the messages and has no line breaks.  With a
    [trim] that only takes characters away, [cleanMessagesForPayload]
    returns as many messages as it gets, each with the role, the upload
    status and as many parts as the message at its place, each part with
    its icon; and the text of no part holds a line feed. *)
Theorem payload_keeps_messages (messages : list Message) :
  trims trim →
  let cleaned := cleanMessagesForPayload trim messages in
  length cleaned = length messages ∧
  (∀ k m, messages !! k = Some m →
     ∃ m', cleaned !! k = Some m' ∧ role m' = role m ∧
           uploadStatus m' = uploadStatus m ∧
           icon <$> parts m' = icon <$> parts m) ∧
  Forall (λ m, Forall (λ p, occurs "010" (text p) = false) (parts m)) cleaned.
Proof.
  intros Ht cleaned. subst cleaned. unfold cleanMessagesForPayload.
  split; [by rewrite length_fmap|]. split.
  - intros k m Hk. rewrite list_lookup_fmap, Hk. eexists. split; [done|].
    cbn. split; [done|]. split; [done|].
    rewrite <- list_fmap_compose. by apply list_fmap_ext.
  - apply Forall_fmap, Forall_forall. intros m _. cbn.
    apply Forall_fmap, Forall_forall. intros p _. cbn. unfold cleanText.
    destruct (occurs "010" (trim _)) eqn:E; [|done].
    apply Ht in E. by rewrite joinLines_no_line_feed in E.
Qed.

(** X29.  What the cleaning removes.  In a text made of a part without tags,
    a sources block - its opening tag, a body without tags and the closing
    tag - and a rest without tags, the block is removed and the two parts
    are joined, before the line feeds are replaced and the text is trimmed.
    An opening tag that no closing tag follows stays in the text with what
    follows it, and a text without tags loses nothing. *)
Theorem payload_drops_sources_block (p body q : string) :
  tagless p = true → tagless body = true → tagless q = true →
  removeSources 0 (p +:+ opening +:+ body +:+ closing +:+ q) = p +:+ q ∧
  cleanText trim (p +:+ opening +:+ body +:+ closing +:+ q)
    = trim (joinLines false (p +:+ q)) ∧
  removeSources 0 (p +:+ opening +:+ body) = p +:+ opening +:+ body ∧
  cleanText trim p = trim (joinLines false p).
Proof.
  intros Hp Hb Hq.
  assert (removeSources 0 (p +:+ opening +:+ body +:+ closing +:+ q) = p +:+ q)
    as E.
  { rewrite removeSources_tagless_app by done. f_equal.
    pose proof (sources_block body q Hb) as Es.
    rewrite <- !HelpersFacts.app_assoc_string in Es.
    rewrite <- !HelpersFacts.app_assoc_string.
    rewrite (removeSources_match _ _ _ Es).
    - by apply removeSources_tagless.
    - by rewrite !length_app_string.
    - done. }
  split; [done|]. split; [unfold cleanText; by rewrite E|]. split.
  - rewrite removeSources_tagless_app by done. f_equal.
    pose proof (sources_open body Hb) as Es.
    rewrite opening_cons, HelpersFacts.app_cons in *.
    rewrite (removeSources_no_match _ _ Es). f_equal.
    rewrite removeSources_tagless_app by reflexivity.
    by rewrite removeSources_tagless.
  - unfold cleanText. by rewrite removeSources_tagless.
Qed.

End Clean.

Lemma payload_keeps_messages_witness :
  Forall (λ m, Forall (λ p, occurs "010" (text p) = false) (parts m))
    (cleanMessagesForPayload (λ s, s)
       [textMsg User (String "a" (String "010" (String "010" "b")))]).
Proof.
  destruct (payload_keeps_messages (λ s, s)
              [textMsg User (String "a" (String "010" (String "010" "b")))])
    as (_ & _ & H).
  - intros a s H. exact H.
  - exact H.
Defined.

Lemma payload_drops_sources_block_witness :
  cleanText (λ s, s) ("See " +:+ opening +:+ "a.pdf" +:+ closing +:+ " ok")
    = "See  ok".
Proof.
  destruct (payload_drops_sources_block (λ s, s) "See " "a.pdf" " ok")
    as (_ & H & _).
  - reflexivity.
  - reflexivity.
  - reflexivity.
  - rewrite H. reflexivity.
Defined.

End PayloadFacts.
